(** * WAF checker: a shallow embedding of [waf_checker.py]

    The development follows the class [WAFChecker]: the pattern registry
    [self.waf_patterns], the two signal collectors
    [_check_dns_indicators] and [_check_http_indicators], the vendor
    resolver [_determine_waf_type] and the orchestrator
    [check_waf_protection]; then the two sources of URLs,
    [load_urls_from_file] and [get_route53_records], the save methods
    and the command [main], whose calls to the file system, to S3 and
    to their libraries are recorded in the order they are made.

    Python strings are modelled by [string] (characters below 256, with
    Python's case mapping on them), Python exceptions by the type [exn] with an explicit class
    test for every [except] clause, and the mutable locals of a method by
    the state of a small state-and-exception monad. *)

From Stdlib Require Import String Ascii List Bool Arith ZArith Lia DecimalString.
Import ListNotations.
Open Scope string_scope.
Open Scope list_scope.

(** ** Python string primitives *)

Module PyStr.

(** A character is a code point below 256, so a string is a text of
    Latin-1, as [http.client] decodes header names and values; a text
    with a code point above 255 has no counterpart here.

    [c.lower()] on one character: the letters [A]..[Z] and the capital
    letters of Latin-1 (192 to 222, but the multiplication sign 215) move
    up by 32, every other character is kept. *)
Definition lower_char (c : ascii) : ascii :=
  let n := nat_of_ascii c in
  if (((65 <=? n) && (n <=? 90))
      || ((192 <=? n) && (n <=? 222) && negb (n =? 215)))%nat
  then ascii_of_nat (n + 32) else c.

(** [c.upper()] on one character: the letters [a]..[z] and the small
    letters of Latin-1 (224 to 254, but the division sign 247) move down
    by 32, the sharp s (223) becomes the two letters [SS], and every
    other character is kept, but for the micro sign (181) and the y with
    diaeresis (255): their capitals are the code points 924 and 376,
    which no character here stands for. *)
Definition upper_char (c : ascii) : option string :=
  let n := nat_of_ascii c in
  if (((97 <=? n) && (n <=? 122))
      || ((224 <=? n) && (n <=? 254) && negb (n =? 247)))%nat
  then Some (String (ascii_of_nat (n - 32)) EmptyString)
  else if (n =? 223)%nat then Some "SS"
  else if ((n =? 181) || (n =? 255))%nat then None
  else Some (String c EmptyString).

(** [s.lower()], and [s.upper()] where it is a text of Latin-1. *)
Fixpoint lower (s : string) : string :=
  match s with
  | EmptyString => EmptyString
  | String c s' => String (lower_char c) (lower s')
  end.

Fixpoint upper (s : string) : option string :=
  match s with
  | EmptyString => Some EmptyString
  | String c s' =>
      match upper_char c, upper s' with
      | Some u, Some t => Some (u ++ t)%string
      | _, _ => None
      end
  end.

(** [pattern in s]: substring containment. *)
Fixpoint contains (pattern s : string) : bool :=
  prefix pattern s ||
  match s with
  | EmptyString => false
  | String _ s' => contains pattern s'
  end.

(** [s.split(sep)] for a one-character separator: the list is never
    empty, and two adjacent separators delimit an empty piece. *)
Fixpoint split (sep : ascii) (s : string) : list string :=
  match s with
  | EmptyString => [EmptyString]
  | String c s' =>
      if Ascii.eqb c sep then EmptyString :: split sep s'
      else match split sep s' with
           | piece :: pieces => String c piece :: pieces
           | [] => [String c EmptyString]
           end
  end.

(** [l[-1]] on a list of strings; [split] never returns the empty list,
    so the default is never taken in this program. *)
Definition last_item (l : list string) : string := last l EmptyString.

End PyStr.

Import PyStr.

(** ** The pattern registry

    [self.waf_patterns] of [WAFChecker.__init__], as the dictionary
    literal lists it: the keys in insertion order, which is the order
    [.items()] yields them in.  (The larger table [WAF_PATTERNS] of
    [config.py] is not the one the checker reads.) *)

Definition waf_patterns : list (string * list string) :=
  [ ("cloudflare", ["cloudflare"; "__cfduid"; "cf-ray"]);
    ("aws_waf",    ["x-amz-cf-id"; "x-amz-cf-pop"; "x-amz-cf-id"]);
    ("akamai",     ["akamai"; "x-akamai-transformed"]);
    ("fastly",     ["fastly"; "x-fastly"]);
    ("imperva",    ["incap_ses"; "visid_incap"; "x-iinfo"]);
    ("f5_bigip",   ["bigip"; "x-wa-info"]);
    ("barracuda",  ["barra_counter_session"; "barra_counter_session"]);
    ("citrix",     ["citrix"; "ns_af"]);
    ("sucuri",     ["sucuri"; "x-sucuri"]);
    ("cloudfront", ["x-amz-cf-id"; "x-amz-cf-pop"]) ].

(** The CDN tokens of the CNAME test in [_check_dns_indicators]. *)
Definition cdn_tokens : list string :=
  ["cloudflare"; "akamai"; "fastly"; "cloudfront"].

(** ** The vendor resolver: [_determine_waf_type] *)

(** [waf_counts] is a Python [dict] from vendor key to count.  A [dict]
    iterates in insertion order, and [max] depends on that order, so it
    is an association list with unique keys, new keys appended. *)
Definition counts := list (string * nat).

(** [d.get(k, default)] *)
Fixpoint dict_get (d : counts) (k : string) (default : nat) : nat :=
  match d with
  | [] => default
  | (k', v) :: d' => if String.eqb k' k then v else dict_get d' k default
  end.

(** [d[k] = v]: an existing key keeps its position. *)
Fixpoint dict_set (d : counts) (k : string) (v : nat) : counts :=
  match d with
  | [] => [(k, v)]
  | (k', v') :: d' =>
      if String.eqb k' k then (k', v) :: d' else (k', v') :: dict_set d' k v
  end.

(** [indicator.split('_')[-1]] *)
Definition waf_name_of (indicator : string) : string :=
  last_item (split "_" indicator).

(** The loop [for indicator in indicators: ...] from a given dictionary. *)
Definition tally_from (waf_counts : counts) (indicators : list string) : counts :=
  fold_left
    (fun waf_counts indicator =>
       let waf_name := waf_name_of indicator in
       dict_set waf_counts waf_name (dict_get waf_counts waf_name 0 + 1))
    indicators waf_counts.

Definition tally (indicators : list string) : counts := tally_from [] indicators.

(** [max(keys, key=f)] after its first element: the running maximum is
    replaced only by a key with a strictly greater value, so among equal
    values the key met first is kept. *)
Definition max_from (key : string -> nat) (best : string) (rest : list string) : string :=
  fold_left (fun best k => if (key best <? key k)%nat then k else best) rest best.

(** [_determine_waf_type]: iterating a [dict] yields its keys. *)
Definition _determine_waf_type (indicators : list string) : string :=
  let waf_counts := tally indicators in
  match map fst waf_counts with
  | first :: rest => max_from (fun k => dict_get waf_counts k 0) first rest
  | [] => "unknown"
  end.

(** ** Exceptions, outcomes and the method monad *)

(** The exception classes the program distinguishes in its [except]
    clauses, each carrying the text [str(e)] gives. *)
Inductive exn : Type :=
  | NXDOMAIN (msg : string)          (* dns.resolver.NXDOMAIN *)
  | NoAnswer (msg : string)          (* dns.resolver.NoAnswer *)
  | DNSException (msg : string)      (* any other DNS failure: Timeout, NoNameservers, ... *)
  | NameError (msg : string)
  | RequestException (msg : string)  (* requests.exceptions.RequestException and subclasses *)
  | OtherException (msg : string)    (* any other subclass of Exception, e.g. ValueError *)
  | KeyboardInterrupt.               (* a BaseException outside Exception *)

Definition str (e : exn) : string :=
  match e with
  | NXDOMAIN msg | NoAnswer msg | DNSException msg | NameError msg
  | RequestException msg | OtherException msg => msg
  | KeyboardInterrupt => EmptyString
  end.

Definition is_NXDOMAIN (e : exn) : bool :=
  match e with NXDOMAIN _ => true | _ => false end.
Definition is_NoAnswer (e : exn) : bool :=
  match e with NoAnswer _ => true | _ => false end.
Definition is_RequestException (e : exn) : bool :=
  match e with RequestException _ => true | _ => false end.
(** [except Exception] catches every class but the process-level ones. *)
Definition is_Exception (e : exn) : bool :=
  match e with KeyboardInterrupt => false | _ => true end.
(** A bare [except:] catches everything. *)
Definition is_BaseException (e : exn) : bool := true.

Inductive outcome (A : Type) : Type :=
  | Return (a : A)
  | Raise (e : exn).
Arguments Return {A} a.
Arguments Raise {A} e.

Inductive level : Type := DEBUG | INFO | WARNING | ERROR.

(** What [logger] has emitted so far, oldest first. *)
Definition Log := list (level * string).

(** A running method: its mutable locals and the process-wide log. *)
Record Frame (L : Type) : Type := mkFrame { locals : L; log : Log }.
Arguments mkFrame {L} locals log.
Arguments locals {L} f.
Arguments log {L} f.

Definition M (L A : Type) : Type := Frame L -> outcome A * Frame L.

Section Monad.
Context {L : Type}.

Definition ret {A} (a : A) : M L A := fun s => (Return a, s).

Definition bind {A B} (m : M L A) (k : A -> M L B) : M L B :=
  fun s =>
    match m s with
    | (Return a, s') => k a s'
    | (Raise e, s') => (Raise e, s')
    end.

Definition raise {A} (e : exn) : M L A := fun s => (Raise e, s).

(** The result of a library call, delivered into the method. *)
Definition lift {A} (o : outcome A) : M L A := fun s => (o, s).

Definition get_locals : M L L := fun s => (Return (locals s), s).

Definition modify (f : L -> L) : M L unit :=
  fun s => (Return tt, mkFrame (f (locals s)) (log s)).

(** [logger.debug(msg)], [logger.warning(msg)], [logger.error(msg)] *)
Definition logger (lvl : level) (msg : string) : M L unit :=
  fun s => (Return tt, mkFrame (locals s) (log s ++ [(lvl, msg)])).

(** One [except <class> as e: <handler>] clause. *)
Definition clause : Type := (exn -> bool) * (exn -> M L unit).

(** The clauses are tried in order; an exception none of them matches
    propagates. *)
Fixpoint dispatch (clauses : list clause) (e : exn) : M L unit :=
  match clauses with
  | [] => raise e
  | (is_class, handler) :: rest =>
      if is_class e then handler e else dispatch rest e
  end.

(** [try: body  except ...]: the handler runs in the state the body
    left behind. *)
Definition try_except (body : M L unit) (clauses : list clause) : M L unit :=
  fun s =>
    match body s with
    | (Return a, s') => (Return a, s')
    | (Raise e, s') => dispatch clauses e s'
    end.

(** [for x in l: body] *)
Fixpoint for_each {X} (l : list X) (body : X -> M L unit) : M L unit :=
  match l with
  | [] => ret tt
  | x :: l' => bind (body x) (fun _ => for_each l' body)
  end.

(** [if c: body] *)
Definition when (c : bool) (body : M L unit) : M L unit :=
  if c then body else ret tt.

(** Reading a name that no enclosing scope binds. *)
Definition unbound_name {A} (name : string) : M L A :=
  raise (NameError ("name '" ++ name ++ "' is not defined")).

End Monad.

Notation "x <- m ;; k" := (bind m (fun x => k))
  (at level 61, m at next level, right associativity).
Notation "m ;; k" := (bind m (fun _ => k))
  (at level 61, right associativity).

(** Calling a method: it runs on locals of its own and shares the log. *)
Definition call {L L' A} (method : M L' A) (init : L') : M L A :=
  fun s =>
    let '(o, s') := method (mkFrame init (log s)) in
    (o, mkFrame (locals s) (log s')).

(** Truthiness of a list: [if l:] holds when [l] is not empty. *)
Definition truthy {A} (l : list A) : bool :=
  match l with [] => false | _ :: _ => true end.

(** ** The outside world

    The three library calls the checker makes, as functions of their
    arguments: each is made at most once per check. *)

Inductive rdtype : Type := TXT | CNAME.

(** A completed [requests.Response], as far as the checker reads it:
    [response.text] may fail to decode. *)
Record Response : Type := mkResponse {
  resp_status_code : Z;
  resp_headers : list (string * string);
  resp_cookies : list string;          (* the cookie names *)
  resp_text : outcome string
}.

Record World : Type := mkWorld {
  (** [urlparse(url).netloc] *)
  urlparse_netloc : string -> outcome string;
  (** [dns.resolver.resolve(domain, rdtype)]: the answer's records as
      text, [str(record)] for TXT and [str(record.target)] for CNAME. *)
  dns_resolve : string -> rdtype -> outcome (list string);
  (** [requests.get(url, ...)] *)
  requests_get : string -> outcome Response;
  (** The two readings of [time.time()] around the request. *)
  time_before : Z;
  time_after : Z
}.

(** ** The DNS signal collector: [_check_dns_indicators] *)

(** [indicators.append(x)] on the method's local list, which starts
    empty ([indicators = []]): a method that collects is called on the
    initial locals [[]]. *)
Definition append (x : string) : M (list string) unit :=
  modify (fun indicators => indicators ++ [x]).

Definition _check_dns_indicators (w : World) (domain : string)
  : M (list string) (list string) :=
  try_except
    (try_except
       (txt_records <- lift (dns_resolve w domain TXT) ;;
        for_each txt_records (fun record =>
          let txt_data := record in
          for_each waf_patterns (fun '(waf_name, patterns) =>
            when (existsb (fun pattern => contains pattern (lower txt_data)) patterns)
                 (append ("DNS_TXT_" ++ waf_name)))))
       [ (is_NXDOMAIN, fun _ => ret tt);
         (is_NoAnswer, fun _ => ret tt) ] ;;
     try_except
       (cname_records <- lift (dns_resolve w domain CNAME) ;;
        for_each cname_records (fun record =>
          let cname_data := lower record in
          when (existsb (fun cdn => contains cdn cname_data) cdn_tokens)
               (* [cdn] is bound inside the generator expression of the
                  test only; the f-string reads it outside that scope. *)
               (cdn <- unbound_name "cdn" ;;
                append ("DNS_CNAME_" ++ cdn))))
       [ (is_NoAnswer, fun _ => ret tt) ])
    [ (is_Exception, fun e =>
         logger DEBUG ("Erro ao verificar DNS para " ++ domain ++ ": " ++ str e)) ] ;;
  get_locals.

(** ** The HTTP signal collector: [_check_http_indicators] *)

Definition _check_http_indicators (response : Response)
  : M (list string) (list string) :=
  for_each (resp_headers response) (fun '(header_name, header_value) =>
    let header_lower := lower header_name in
    let header_value_lower := lower header_value in
    for_each waf_patterns (fun '(waf_name, patterns) =>
      when (existsb (fun pattern => contains pattern header_lower
                                    || contains pattern header_value_lower) patterns)
           (append ("HTTP_HEADER_" ++ waf_name)))) ;;
  for_each (resp_cookies response) (fun cookie =>
    let cookie_name := lower cookie in
    for_each waf_patterns (fun '(waf_name, patterns) =>
      when (existsb (fun pattern => contains pattern cookie_name) patterns)
           (append ("HTTP_COOKIE_" ++ waf_name)))) ;;
  try_except
    (text <- lift (resp_text response) ;;
     let content := lower text in
     for_each waf_patterns (fun '(waf_name, patterns) =>
       when (existsb (fun pattern => contains pattern content) patterns)
            (append ("HTTP_BODY_" ++ waf_name))))
    [ (is_BaseException, fun _ => ret tt) ] ;;
  get_locals.

(** ** The orchestrator: [check_waf_protection] *)

(** The [result] dictionary: its seven keys are fixed by the literal
    that creates it, and later statements only assign to them.  [None]
    is [None]; the response time, a float of seconds in the source, is
    the difference of two clock readings. *)
Record CheckResult : Type := mkResult {
  url : string;
  waf_detected : bool;
  waf_type : option string;
  waf_indicators : list string;
  status_code : option Z;
  response_time : option Z;
  error : option string
}.

Definition set_waf_detected (b : bool) (r : CheckResult) : CheckResult :=
  mkResult (url r) b (waf_type r) (waf_indicators r)
           (status_code r) (response_time r) (error r).
Definition set_waf_type (t : string) (r : CheckResult) : CheckResult :=
  mkResult (url r) (waf_detected r) (Some t) (waf_indicators r)
           (status_code r) (response_time r) (error r).
(** [result['waf_indicators'].extend(l)] *)
Definition extend_waf_indicators (l : list string) (r : CheckResult) : CheckResult :=
  mkResult (url r) (waf_detected r) (waf_type r) (waf_indicators r ++ l)
           (status_code r) (response_time r) (error r).
Definition set_status_code (c : Z) (r : CheckResult) : CheckResult :=
  mkResult (url r) (waf_detected r) (waf_type r) (waf_indicators r)
           (Some c) (response_time r) (error r).
Definition set_response_time (t : Z) (r : CheckResult) : CheckResult :=
  mkResult (url r) (waf_detected r) (waf_type r) (waf_indicators r)
           (status_code r) (Some t) (error r).
Definition set_error (e : string) (r : CheckResult) : CheckResult :=
  mkResult (url r) (waf_detected r) (waf_type r) (waf_indicators r)
           (status_code r) (response_time r) (Some e).

Definition initial_result (u : string) : CheckResult :=
  mkResult u false None [] None None None.

Definition check_waf_protection_body (w : World) (u : string)
  : M CheckResult CheckResult :=
  try_except
    (domain <- lift (urlparse_netloc w u) ;;
     dns_indicators <- call (_check_dns_indicators w domain) [] ;;
     when (truthy dns_indicators)
          (modify (set_waf_detected true) ;;
           modify (extend_waf_indicators dns_indicators)) ;;
     let start_time := time_before w in
     response <- lift (requests_get w u) ;;
     modify (set_response_time (time_after w - start_time)) ;;
     modify (set_status_code (resp_status_code response)) ;;
     http_indicators <- call (_check_http_indicators response) [] ;;
     when (truthy http_indicators)
          (modify (set_waf_detected true) ;;
           modify (extend_waf_indicators http_indicators)) ;;
     result <- get_locals ;;
     when (truthy (waf_indicators result))
          (modify (set_waf_type (_determine_waf_type (waf_indicators result)))))
    [ (is_RequestException, fun e =>
         modify (set_error (str e)) ;;
         logger WARNING ("Erro ao acessar " ++ u ++ ": " ++ str e));
      (is_Exception, fun e =>
         modify (set_error (str e)) ;;
         logger ERROR ("Erro inesperado ao verificar " ++ u ++ ": " ++ str e)) ] ;;
  get_locals.

(** A call of [check_waf_protection(url)] in a process whose log is
    [log0]: what it returns or raises, and the log afterwards. *)
Definition check_waf_protection (w : World) (u : string) (log0 : Log)
  : outcome CheckResult * Log :=
  let '(o, s) := check_waf_protection_body w u (mkFrame (initial_result u) log0) in
  (o, log s).

(** ** What the collectors compute

    The loops of the two collectors only append to [indicators]; the
    functions below give the appended lists in closed form, and the
    run lemmas further down show that the methods compute them. *)

(** The vendors' loop on one probed item: one indicator for each vendor
    one of whose patterns passes [test], in registry order. *)
Definition vendor_hits (tag : string) (test : string -> bool) : list string :=
  flat_map
    (fun '(waf_name, patterns) =>
       if existsb test patterns then [(tag ++ waf_name)%string] else [])
    waf_patterns.

Definition txt_hits (record : string) : list string :=
  vendor_hits "DNS_TXT_" (fun pattern => contains pattern (lower record)).

Definition header_hits (header : string * string) : list string :=
  vendor_hits "HTTP_HEADER_"
    (fun pattern => contains pattern (lower (fst header))
                    || contains pattern (lower (snd header))).

Definition cookie_hits (cookie : string) : list string :=
  vendor_hits "HTTP_COOKIE_" (fun pattern => contains pattern (lower cookie)).

Definition body_hits (text : outcome string) : list string :=
  match text with
  | Return t => vendor_hits "HTTP_BODY_" (fun pattern => contains pattern (lower t))
  | Raise _ => []
  end.

Definition http_indicators_of (response : Response) : list string :=
  flat_map header_hits (resp_headers response)
  ++ flat_map cookie_hits (resp_cookies response)
  ++ body_hits (resp_text response).

(** The test of the CNAME loop on one record. *)
Definition cname_match (record : string) : bool :=
  existsb (fun cdn => contains cdn (lower record)) cdn_tokens.

(** What the CNAME block lets escape to the outer handler. *)
Definition cname_failure (w : World) (domain : string) : option exn :=
  match dns_resolve w domain CNAME with
  | Return cname_records =>
      if existsb cname_match cname_records
      then Some (NameError "name 'cdn' is not defined") else None
  | Raise e => if is_NoAnswer e then None else Some e
  end.

(** What reaches the outer handler of [_check_dns_indicators]. *)
Definition dns_failure (w : World) (domain : string) : option exn :=
  match dns_resolve w domain TXT with
  | Return _ => cname_failure w domain
  | Raise e =>
      if is_NXDOMAIN e || is_NoAnswer e then cname_failure w domain else Some e
  end.

(** The indicators the DNS collector has gathered when it stops. *)
Definition dns_indicators_of (w : World) (domain : string) : list string :=
  match dns_resolve w domain TXT with
  | Return txt_records => flat_map txt_hits txt_records
  | Raise _ => []
  end.

(** No library call of this check is cut short by a process-level
    interrupt: whatever [urlparse], the resolver and [requests.get]
    raise is an [Exception]. *)
Definition no_interrupt (w : World) (u : string) : Prop :=
  (forall e, urlparse_netloc w u = Raise e -> is_Exception e = true) /\
  (forall domain rd e, dns_resolve w domain rd = Raise e -> is_Exception e = true) /\
  (forall e, requests_get w u = Raise e -> is_Exception e = true).

Definition dns_debug_entry (domain : string) (e : exn) : level * string :=
  (DEBUG, ("Erro ao verificar DNS para " ++ domain ++ ": " ++ str e)%string).

(** The two [except] clauses of [check_waf_protection], run on the
    result [r] as the body left it. *)
Definition handled (u : string) (e : exn) (r : CheckResult) (lg : Log)
  : outcome CheckResult * Log :=
  if is_RequestException e then
    (Return (set_error (str e) r),
     lg ++ [(WARNING, ("Erro ao acessar " ++ u ++ ": " ++ str e)%string)])
  else if is_Exception e then
    (Return (set_error (str e) r),
     lg ++ [(ERROR, ("Erro inesperado ao verificar " ++ u ++ ": " ++ str e)%string)])
  else (Raise e, lg).

(** [if inds: result['waf_detected'] = True; result['waf_indicators'].extend(inds)] *)
Definition detect (inds : list string) (r : CheckResult) : CheckResult :=
  if truthy inds then extend_waf_indicators inds (set_waf_detected true r) else r.

(** [if result['waf_indicators']: result['waf_type'] = ...] *)
Definition classify (r : CheckResult) : CheckResult :=
  if truthy (waf_indicators r)
  then set_waf_type (_determine_waf_type (waf_indicators r)) r else r.

(** The log entry of the DNS collector's outer handler, if it ran. *)
Definition dns_log_of (w : World) (domain : string) : Log :=
  match dns_failure w domain with
  | Some e => if is_Exception e then [dns_debug_entry domain e] else []
  | None => []
  end.

(** ** Predicates on results and on indicator lists *)

Definition detected_iff_indicators (r : CheckResult) : Prop :=
  waf_detected r = true <-> waf_indicators r <> [].

(** A vendor is recorded only together with indicators, and it is the
    resolver's answer on them. *)
Definition type_from_indicators (r : CheckResult) : Prop :=
  forall v, waf_type r = Some v ->
    waf_indicators r <> [] /\ v = _determine_waf_type (waf_indicators r).

(** The TXT query did not stop the collector: it answered, or the
    records are absent. *)
Definition txt_passed (w : World) (domain : string) : Prop :=
  match dns_resolve w domain TXT with
  | Return _ => True
  | Raise e => is_NXDOMAIN e || is_NoAnswer e = true
  end.

(** The keys the resolver tallies, one per indicator. *)
Definition keys_of (indicators : list string) : list string :=
  map waf_name_of indicators.

(** How many indicators carry the key [k]. *)
Definition occurrences (k : string) (indicators : list string) : nat :=
  count_occ string_dec (keys_of indicators) k.

(** The rule the resolver follows.  On the empty list the answer is
    "unknown".  Otherwise the answer [v] is a key of the list, no key
    has more occurrences, and every key that appears before the first
    occurrence of [v] has strictly fewer: among the keys with the
    highest count, the one seen first. *)
Definition first_max_rule (indicators : list string) (v : string) : Prop :=
  match indicators with
  | [] => v = "unknown"
  | _ :: _ =>
      (exists pre post,
          keys_of indicators = pre ++ v :: post /\
          ~ In v pre /\
          forall k, In k pre -> occurrences k indicators < occurrences v indicators) /\
      forall k, occurrences k indicators <= occurrences v indicators
  end.

(** [c not in s] *)
Fixpoint no_char (c : ascii) (s : string) : bool :=
  match s with
  | EmptyString => true
  | String c' s' => negb (Ascii.eqb c' c) && no_char c s'
  end.

(** ** Re-cased inputs *)

(** The same response, and the same world, with every probed text
    rewritten by [recase]: header names and values, cookie names, the
    body, and the text of the DNS records. *)
Definition recase_response (recase : string -> string) (r : Response) : Response :=
  mkResponse
    (resp_status_code r)
    (map (fun h => (recase (fst h), recase (snd h))) (resp_headers r))
    (map recase (resp_cookies r))
    (match resp_text r with
     | Return t => Return (recase t)
     | Raise e => Raise e
     end).

Definition recase_world (recase : string -> string) (w : World) : World :=
  mkWorld
    (urlparse_netloc w)
    (fun domain rd =>
       match dns_resolve w domain rd with
       | Return records => Return (map recase records)
       | Raise e => Raise e
       end)
    (fun u =>
       match requests_get w u with
       | Return r => Return (recase_response recase r)
       | Raise e => Raise e
       end)
    (time_before w) (time_after w).

(** [s.upper()] where it is a text of Latin-1 with the lower-case form
    of [s], and [s] itself where it is not. *)
Definition upper_or_keep (s : string) : string :=
  match upper s with
  | Some t => if String.eqb (lower t) (lower s) then t else s
  | None => s
  end.

(** The characters whose capital is one character below 256 or which
    have none: all but the sharp s, the micro sign and the y with
    diaeresis. *)
Definition plain_char (c : ascii) : bool :=
  let n := nat_of_ascii c in
  negb ((n =? 223) || (n =? 181) || (n =? 255))%nat.

Fixpoint plain (s : string) : bool :=
  match s with
  | EmptyString => true
  | String c s' => plain_char c && plain s'
  end.

(** The sharp s, and a response one of whose header values holds it,
    with the response whose texts are the upper-cased ones. *)
Definition sharp_s : ascii := ascii_of_nat 223.

Definition response_sharp_s : Response :=
  mkResponse 200
    [("Server", ("cloudflare barra_counter_se" ++ String sharp_s "ion")%string)]
    [] (Return "<html></html>").

Definition response_sharp_s_upper : Response :=
  mkResponse 200 [("SERVER", "CLOUDFLARE BARRA_COUNTER_SESSION")]
    [] (Return "<HTML></HTML>").

(** ** Example worlds *)

(** The double-quote character: [str(record)] of a TXT record quotes
    its text. *)
Definition dquote : string := String (ascii_of_nat 34) EmptyString.

(** The domain [shop.example.com] is a CNAME to a CloudFront
    distribution and has no TXT record; the web server refuses the
    connection. *)
Definition world_cname_cloudfront : World :=
  mkWorld
    (fun _ => Return "shop.example.com")
    (fun _ rd =>
       match rd with
       | TXT => Raise (NoAnswer "The DNS response does not contain an answer to the question")
       | CNAME => Return ["d111111abcdef8.cloudfront.net."]
       end)
    (fun _ => Raise (RequestException "Connection refused"))
    100 250.

(** The domain has a TXT record naming Cloudflare and no CNAME; the web
    server refuses the connection. *)
Definition world_txt_cloudflare_refused : World :=
  mkWorld
    (fun _ => Return "shop.example.com")
    (fun _ rd =>
       match rd with
       | TXT => Return [(dquote ++ "cloudflare-verify=1234" ++ dquote)%string]
       | CNAME => Raise (NoAnswer "The DNS response does not contain an answer to the question")
       end)
    (fun _ => Raise (RequestException "Connection refused"))
    100 250.


(** The domain does not exist: every DNS query raises NXDOMAIN and the
    connection cannot be made. *)
Definition world_nxdomain : World :=
  mkWorld
    (fun _ => Return "nonexistent.example")
    (fun _ _ => Raise (NXDOMAIN "The DNS query name does not exist: nonexistent.example."))
    (fun _ => Raise (RequestException "Failed to resolve 'nonexistent.example'"))
    100 250.

(** A site behind Cloudflare: the header [CF-RAY] and the cookie
    [__cfduid]; no DNS evidence. *)
Definition world_cloudflare_site : World :=
  mkWorld
    (fun _ => Return "www.example.com")
    (fun _ _ => Raise (NoAnswer "The DNS response does not contain an answer to the question"))
    (fun _ => Return (mkResponse 200 [("CF-RAY", "abcd1234")] ["__cfduid"]
                        (Return "<html>hello</html>")))
    100 250.

(** ** Substring matching *)

(** [matches patterns text]: one of the patterns occurs in the text. *)
Definition matches (patterns : list string) (text : string) : Prop :=
  exists pattern pre post,
    In pattern patterns /\ text = (pre ++ pattern ++ post)%string.

(** ** The paths through [check_waf_protection] *)

(** The server answers with the Cloudflare header, and the body cannot
    be decoded: reading [response.text] is interrupted. *)
Definition world_undecodable_body : World :=
  mkWorld
    (fun _ => Return "www.example.com")
    (fun _ _ => Raise (NoAnswer "The DNS response does not contain an answer to the question"))
    (fun _ => Return (mkResponse 200 [("CF-RAY", "abcd1234")] [] (Raise KeyboardInterrupt)))
    100 250.

(** The resolver of [domain] raises exceptions only. *)
Definition dns_raises_exceptions (w : World) (domain : string) : Prop :=
  forall rd e, dns_resolve w domain rd = Raise e -> is_Exception e = true.

(** ** The vendors a check can report *)

(** The names [check_waf_protection] can put in [waf_type]. *)
Definition reported_names : list string :=
  ["cloudflare"; "waf"; "akamai"; "fastly"; "imperva"; "bigip";
   "barracuda"; "citrix"; "sucuri"].

(** In a list of keys, [waf] and [cloudfront] come in pairs, [waf]
    first: they occur equally often, and before any [cloudfront] there
    is a [waf]. *)
Definition waf_leads (keys : list string) : Prop :=
  count_occ string_dec keys "waf" = count_occ string_dec keys "cloudfront" /\
  forall pre post, keys = pre ++ "cloudfront" :: post -> In "waf" pre.

Fixpoint waf_seen_first (seen : bool) (keys : list string) : bool :=
  match keys with
  | [] => true
  | k :: keys' =>
      if String.eqb k "cloudfront" then seen && waf_seen_first seen keys'
      else waf_seen_first (seen || String.eqb k "waf") keys'
  end.

Definition waf_leadsb (keys : list string) : bool :=
  (count_occ string_dec keys "waf" =? count_occ string_dec keys "cloudfront")%nat
  && waf_seen_first false keys.

(** ** More string primitives *)

(** White space as [str.strip()] sees it among the characters below
    256: tab to carriage return, the four separators 28 to 31, space,
    next line (133) and the no-break space (160). *)
Definition is_space (c : ascii) : bool :=
  let n := nat_of_ascii c in
  (((9 <=? n) && (n <=? 13)) || ((28 <=? n) && (n <=? 32))
   || (n =? 133) || (n =? 160))%nat.

Fixpoint lstrip_by (strippable : ascii -> bool) (s : string) : string :=
  match s with
  | EmptyString => EmptyString
  | String c s' => if strippable c then lstrip_by strippable s' else s
  end.

Fixpoint rstrip_by (strippable : ascii -> bool) (s : string) : string :=
  match s with
  | EmptyString => EmptyString
  | String c s' =>
      match rstrip_by strippable s' with
      | EmptyString => if strippable c then EmptyString else String c EmptyString
      | rest => String c rest
      end
  end.

(** [s.strip()] *)
Definition strip (s : string) : string :=
  rstrip_by is_space (lstrip_by is_space s).

(** [s.rstrip('.')] *)
Definition rstrip_dots (s : string) : string := rstrip_by (Ascii.eqb ".") s.

(** [s.startswith((p1, p2, ...))] *)
Definition startswith_any (prefixes : list string) (s : string) : bool :=
  existsb (fun p => prefix p s) prefixes.

(** [str(n)] for a length or a count, and for an integer. *)
Definition str_of_nat (n : nat) : string := NilZero.string_of_uint (Nat.to_uint n).

Definition str_of_int (n : Z) : string := NilZero.string_of_int (Z.to_int n).

(** ** Exceptions and results of the sources *)

(** The classes the sources name in their [except] clauses, beside
    those of the checker; each carries the text of [str(e)]. *)
Inductive py_exn : Type :=
  | FileNotFoundError (msg : string)
  | NoCredentialsError (msg : string)
  | ClientError (msg : string)
  | KeyError (msg : string)
  | Checker (e : exn).

Definition py_str (e : py_exn) : string :=
  match e with
  | FileNotFoundError msg | NoCredentialsError msg | ClientError msg | KeyError msg => msg
  | Checker e => str e
  end.

Definition is_FileNotFoundError (e : py_exn) : bool :=
  match e with FileNotFoundError _ => true | _ => false end.

Definition is_NoCredentialsError (e : py_exn) : bool :=
  match e with NoCredentialsError _ => true | _ => false end.

Definition is_ClientError (e : py_exn) : bool :=
  match e with ClientError _ => true | _ => false end.

Definition py_is_Exception (e : py_exn) : bool :=
  match e with Checker e => is_Exception e | _ => true end.

Inductive result (A : Type) : Type :=
  | Returns (a : A)
  | Raises (e : py_exn).

Arguments Returns {A} a.

Arguments Raises {A} e.

(** A Python integer option used as a limit: [cap and count >= cap]. *)
Definition cap_reached (cap : option Z) (count : nat) : bool :=
  match cap with
  | Some n => negb (n =? 0)%Z && (n <=? Z.of_nat count)%Z
  | None => false
  end.

(** The scheme is added when the text starts with neither scheme; both
    sources do it with the same two statements. *)
Definition with_scheme (s : string) : string :=
  if negb (startswith_any ["http://"; "https://"] s)
  then ("https://" ++ s)%string else s.

(** ** [load_urls_from_file] *)

(** What the sources read.  A file opened for reading yields its lines
    (each with its line end) and may fail after the last one it yields;
    the Route53 client lists zones as dictionaries and pages of record
    sets, each record set with its [Type] and [Name]. *)
Record RecordSet : Type := mkRecordSet { rs_Type : string; rs_Name : string }.

Record Sources : Type := mkSources {
  (** [open(file_path, 'r')] and the iteration over the file *)
  open_read : string -> result (list string * option py_exn);
  (** [self.session.client('route53')] *)
  route53_client : result unit;
  (** [route53.list_hosted_zones()['HostedZones']] *)
  list_hosted_zones : result (list (list (string * string)));
  (** [paginator.paginate(HostedZoneId=id)]: the pages, each the list
      under [ResourceRecordSets], and a failure after the last page. *)
  paginate : string -> list (list RecordSet) * option py_exn
}.

(** The body of [for line in f], from the lines not yet read and the
    list [urls] so far: the list at the end, and whether the loop was
    left by [break]. *)
Fixpoint read_lines (max_urls : option Z) (lines : list string) (urls : list string)
  : bool * list string :=
  match lines with
  | [] => (false, urls)
  | line :: lines' =>
      let line := strip line in
      if negb (String.eqb line EmptyString) && negb (prefix "#" line) then
        let line := with_scheme line in
        let urls := urls ++ [line] in
        if cap_reached max_urls (List.length urls) then (true, urls)
        else read_lines max_urls lines' urls
      else read_lines max_urls lines' urls
  end.

(** The two [except] clauses of [load_urls_from_file]: each logs and
    raises again. *)
Definition load_failed (e : py_exn) (file_path : string) (log0 : Log)
  : result (list string) * Log :=
  if is_FileNotFoundError e then
    (Raises e, log0 ++ [(ERROR, ("Arquivo não encontrado: " ++ file_path)%string)])
  else if py_is_Exception e then
    (Raises e, log0 ++ [(ERROR, ("Erro ao ler arquivo: " ++ py_str e)%string)])
  else (Raises e, log0).

Definition load_urls_from_file (src : Sources) (file_path : string) (max_urls : option Z)
           (log0 : Log) : result (list string) * Log :=
  match open_read src file_path with
  | Raises e => load_failed e file_path log0
  | Returns (lines, failure) =>
      let '(broke, urls) := read_lines max_urls lines [] in
      match (if broke then None else failure) with
      | Some e => load_failed e file_path log0
      | None =>
          (Returns urls,
           log0 ++ [(INFO, ("Carregadas " ++ str_of_nat (List.length urls)
                            ++ " URLs do arquivo " ++ file_path)%string)])
      end
  end.

(** ** [get_route53_records] *)

(** [zone[key]] on a zone dictionary. *)
Fixpoint getitem (d : list (string * string)) (key : string) : result string :=
  match d with
  | [] => Raises (KeyError ("'" ++ key ++ "'"))
  | (k, v) :: d' => if String.eqb k key then Returns v else getitem d' key
  end.

(** Where the three nested loops stand: going on, left by [return urls],
    or left by an exception. *)
Inductive flow : Type :=
  | Going (urls : list string) (record_count : nat)
  | Returned (urls : list string)
  | Failed (e : py_exn).

(** [for record in page['ResourceRecordSets']] *)
Fixpoint scan_records (max_records : option Z) (records : list RecordSet)
         (urls : list string) (record_count : nat) (log0 : Log) : flow * Log :=
  match records with
  | [] => (Going urls record_count, log0)
  | record :: records' =>
      if existsb (String.eqb (rs_Type record)) ["A"; "CNAME"; "AAAA"] then
        let domain := rstrip_dots (rs_Name record) in
        let url := with_scheme domain in
        let urls := urls ++ [url] in
        let record_count := record_count + 1 in
        match max_records with
        | Some n =>
            if negb (n =? 0)%Z && (n <=? Z.of_nat record_count)%Z then
              (Returned urls,
               log0 ++ [(INFO, ("Limite de " ++ str_of_int n ++ " registros atingido")%string)])
            else scan_records max_records records' urls record_count log0
        | None => scan_records max_records records' urls record_count log0
        end
      else scan_records max_records records' urls record_count log0
  end.

(** [for page in page_iterator]; a failure of the paginator comes after
    the pages it delivered. *)
Fixpoint scan_pages (max_records : option Z) (pages : list (list RecordSet))
         (failure : option py_exn) (urls : list string) (record_count : nat) (log0 : Log)
  : flow * Log :=
  match pages with
  | [] =>
      match failure with
      | Some e => (Failed e, log0)
      | None => (Going urls record_count, log0)
      end
  | page :: pages' =>
      match scan_records max_records page urls record_count log0 with
      | (Going urls' record_count', log1) =>
          scan_pages max_records pages' failure urls' record_count' log1
      | stopped => stopped
      end
  end.

(** [for zone in zones] *)
Fixpoint scan_zones (src : Sources) (max_records : option Z)
         (zones : list (list (string * string))) (urls : list string) (log0 : Log)
  : flow * Log :=
  match zones with
  | [] => (Going urls 0, log0)
  | zone :: zones' =>
      match getitem zone "Name" with
      | Raises e => (Failed e, log0)
      | Returns name =>
          let log1 := log0 ++ [(INFO, ("Processando zona hospedada: " ++ name)%string)] in
          match getitem zone "Id" with
          | Raises e => (Failed e, log1)
          | Returns id =>
              let '(pages, failure) := paginate src id in
              match scan_pages max_records pages failure urls 0 log1 with
              | (Going urls' record_count, log2) =>
                  scan_zones src max_records zones' urls'
                    (log2 ++ [(INFO, ("Total de registros processados na zona " ++ name
                                      ++ ": " ++ str_of_nat record_count)%string)])
              | stopped => stopped
              end
          end
      end
  end.

(** The three [except] clauses of [get_route53_records]: each logs and
    raises again. *)
Definition route53_failed (e : py_exn) (log0 : Log) : result (list string) * Log :=
  if is_NoCredentialsError e then
    (Raises e, log0 ++ [(ERROR, "Credenciais AWS não encontradas")])
  else if is_ClientError e then
    (Raises e, log0 ++ [(ERROR, ("Erro ao acessar Route53: " ++ py_str e)%string)])
  else if py_is_Exception e then
    (Raises e, log0 ++ [(ERROR, ("Erro inesperado: " ++ py_str e)%string)])
  else (Raises e, log0).

Definition get_route53_records (src : Sources) (hosted_zone_id : option string)
           (max_records : option Z) (log0 : Log) : result (list string) * Log :=
  match route53_client src with
  | Raises e => route53_failed e log0
  | Returns _ =>
      let zones :=
        match hosted_zone_id with
        | Some id =>
            if negb (String.eqb id EmptyString) then Returns [[("Id", id)]]
            else list_hosted_zones src
        | None => list_hosted_zones src
        end in
      match zones with
      | Raises e => route53_failed e log0
      | Returns zones =>
          match scan_zones src max_records zones [] log0 with
          | (Going urls _, log1) => (Returns urls, log1)
          | (Returned urls, log1) => (Returns urls, log1)
          | (Failed e, log1) => route53_failed e log1
          end
      end
  end.

(** ** [load_urls_from_file]: what is kept, the limit, failures *)

(** The test of the loop on a line, and what the loop appends for it. *)
Definition kept (line : string) : bool :=
  negb (String.eqb (strip line) EmptyString) && negb (prefix "#" (strip line)).

Definition urls_of_lines (lines : list string) : list string :=
  map (fun line => with_scheme (strip line)) (filter kept lines).

(** The limit as a number of URLs: a limit below one acts as one. *)
Definition effective_cap (n : Z) : nat := Z.to_nat (Z.max n 1).

(** A loaded URL: it begins with a scheme and [strip] leaves it alone. *)
Definition clean_url (u : string) : Prop :=
  startswith_any ["http://"; "https://"] u = true /\ strip u = u.

(** ** [get_route53_records]: what is listed, the limit, failures *)

(** The test of the innermost loop on a record set, and the URL the
    loop appends for it. *)
Definition wanted (record : RecordSet) : bool :=
  existsb (String.eqb (rs_Type record)) ["A"; "CNAME"; "AAAA"].

Definition url_of_record (record : RecordSet) : string :=
  with_scheme (rstrip_dots (rs_Name record)).

Definition urls_of_records (records : list RecordSet) : list string :=
  map url_of_record (filter wanted records).

(** The URLs of all the pages of a zone. *)
Definition zone_urls (src : Sources) (zone : list (string * string)) : list string :=
  match getitem zone "Id" with
  | Returns id => urls_of_records (concat (fst (paginate src id)))
  | Raises _ => []
  end.

(** The limit as a number of URLs, when there is one: zero and [None]
    are no limit. *)
Definition limit_of (cap : option Z) : option nat :=
  match cap with
  | Some n => if (n =? 0)%Z then None else Some (effective_cap n)
  | None => None
  end.

Definition limit_entry (cap : option Z) : Log :=
  match cap with
  | Some n => [(INFO, ("Limite de " ++ str_of_int n ++ " registros atingido")%string)]
  | None => []
  end.

(** What the loops over one zone come to, from [record_count] records
    counted so far in the zone. *)
Definition scanned (cap : option Z) (failure : option py_exn) (found urls : list string)
           (record_count : nat) (log0 : Log) : flow * Log :=
  let going :=
    match failure with
    | Some e => (Failed e, log0)
    | None => (Going (urls ++ found) (record_count + List.length found), log0)
    end in
  match limit_of cap with
  | Some c =>
      if (c <=? record_count + List.length found)%nat
      then (Returned (urls ++ firstn (c - record_count) found), log0 ++ limit_entry cap)
      else going
  | None => going
  end.

Definition below_limit (cap : option Z) (record_count : nat) : Prop :=
  match limit_of cap with
  | Some c => record_count < c
  | None => True
  end.

(** A zone as Route53 lists it: it has its [Name] and its [Id], and
    the pages of its record sets come without a failure. *)
Definition zone_listed (src : Sources) (zone : list (string * string)) : Prop :=
  exists name id,
    getitem zone "Name" = Returns name /\
    getitem zone "Id" = Returns id /\
    snd (paginate src id) = None.

(** ** An example of sources *)

Definition newline : string := String (ascii_of_nat 10) EmptyString.

(** Two files and two zones.  [urls.txt] has a padded line, a comment, a
    blank line, a URL with its scheme and a last line without line end;
    [clean.txt] holds the three URLs it loads to.  The first zone has
    two pages, the second one page. *)
Definition sources_example : Sources :=
  mkSources
    (fun file_path =>
       if String.eqb file_path "urls.txt" then
         Returns ([ ("  shop.example.com " ++ newline)%string;
                    ("# staging" ++ newline)%string;
                    newline;
                    ("http://intranet.example/" ++ newline)%string;
                    "www.example.org" ], None)
       else if String.eqb file_path "clean.txt" then
         Returns ([ "https://shop.example.com"; "http://intranet.example/";
                    "https://www.example.org" ], None)
       else Raises (FileNotFoundError "[Errno 2] No such file or directory"))
    (Returns tt)
    (Returns [ [("Id", "/hostedzone/Z1"); ("Name", "example.com.")];
               [("Id", "/hostedzone/Z2"); ("Name", "example.org.")] ])
    (fun id =>
       if String.eqb id "/hostedzone/Z1" then
         ([ [mkRecordSet "A" "example.com."; mkRecordSet "NS" "example.com."];
            [mkRecordSet "CNAME" "www.example.com."] ], None)
       else
         ([ [mkRecordSet "AAAA" "example.org."; mkRecordSet "A" "a.example.org.";
             mkRecordSet "MX" "example.org."; mkRecordSet "A" "b.example.org."] ], None)).

(** ** What is written *)

(** A row of the CSV table.  [Status_HTTP] holds the status as a number,
    or the text ['N/A']. *)
Record CsvRow : Type := mkCsvRow {
  URL : string;
  WAF_Detectado : string;
  Tipo_WAF : string;
  Indicadores : string;
  Status_HTTP : Z + string;
  Tempo_Resposta : string;
  Erro : string
}.

(** The [metadata] of the JSON document and the document. *)
Record Metadata : Type := mkMetadata {
  timestamp : Z;
  total_urls : nat;
  waf_detected_count : nat;
  waf_not_detected_count : nat
}.

Record JsonData : Type := mkJsonData {
  metadata : Metadata;
  results : list CheckResult
}.

(** ** The calls to the outside

    The calls [main] and the save methods make to the system and to
    their libraries, with their arguments, in the order they are made.
    A call that writes a file stands for opening the file and writing
    it. *)
Inductive ext_call : Type :=
  | click_echo_help                                   (* click.echo(main.get_help()) *)
  | load_dotenv
  | os_environ_set (name value : string)              (* os.environ[name] = value *)
  | boto3_Session                                     (* in WAFChecker.__init__ *)
  | time_sleep                                        (* time.sleep(0.5) *)
  | os_makedirs (path : string)                       (* os.makedirs(path, exist_ok=True) *)
  | df_to_csv (rows : list CsvRow) (path : string)    (* df.to_csv(path, index=False, encoding='utf-8') *)
  | json_dump (data : JsonData) (path : string)       (* open(path, 'w') and json.dump(data, f, ...) *)
  | f_write (path content : string)                   (* open(path, 'w') and f.write(content) *)
  | session_client_s3                                 (* self.session.client('s3') *)
  | put_object (Bucket Key Body ContentType : string).

(** What the command runs in.  A call is answered from the calls made
    before it; the serialisers of pandas and json and the formatting of
    a duration with three decimals are functions of their argument. *)
Record Env : Type := mkEnv {
  sources : Sources;
  (** what the [i]-th check of the run meets, counting from 1 *)
  worlds : nat -> World;
  answer : list ext_call -> ext_call -> result unit;
  (** [os.getenv('S3_BUCKET')] *)
  getenv_S3_BUCKET : option string;
  (** [int(time.time())] in [save_results] and in [_save_json] *)
  save_time : Z;
  json_time : Z;
  (** [df.to_csv(index=False, encoding='utf-8')] *)
  to_csv_text : list CsvRow -> string;
  (** [json.dumps(json_data, indent=2, ensure_ascii=False)] *)
  json_dumps : JsonData -> string;
  (** the format [:.3f] *)
  format_3f : Z -> string
}.

(** The calls made so far and the log. *)
Record Store : Type := mkStore {
  calls : list ext_call;
  journal : Log
}.

Definition IO (A : Type) : Type := Store -> result A * Store.

Definition io_ret {A : Type} (a : A) : IO A := fun st => (Returns a, st).

Definition io_bind {A B : Type} (m : IO A) (k : A -> IO B) : IO B :=
  fun st =>
    match m st with
    | (Returns a, st') => k a st'
    | (Raises e, st') => (Raises e, st')
    end.

Notation "m >>= k" := (io_bind m k) (at level 58, left associativity).

Notation "m >> k" := (io_bind m (fun _ => k)) (at level 58, left associativity).

Definition perform (env : Env) (c : ext_call) : IO unit :=
  fun st => (answer env (calls st) c, mkStore (calls st ++ [c]) (journal st)).

Definition io_log (lvl : level) (msg : string) : IO unit :=
  fun st => (Returns tt, mkStore (calls st) (journal st ++ [(lvl, msg)])).

(** [try: m except <class> as e: handler e] *)
Definition io_except {A : Type} (m : IO A) (class : py_exn -> bool)
           (handler : py_exn -> IO A) : IO A :=
  fun st =>
    match m st with
    | (Raises e, st') => if class e then handler e st' else (Raises e, st')
    | r => r
    end.

(** A method of the checker or of the sources, which reads and writes
    the log only. *)
Definition on_log {A : Type} (f : Log -> result A * Log) : IO A :=
  fun st => let '(r, log1) := f (journal st) in (r, mkStore (calls st) log1).

(** ** [_upload_to_s3], [_save_csv], [_save_json], [save_results] *)

(** The two attributes of a checker the save methods read. *)
Record WAFChecker : Type := mkWAFChecker {
  local_mode : bool;
  s3_bucket : option string
}.

(** [os.path.join('output', filename)] on a POSIX system. *)
Definition os_path_join (dir filename : string) : string :=
  if prefix "/" filename then filename else (dir ++ "/" ++ filename)%string.

(** [value or default] for an optional text. *)
Definition or_text (value : option string) (default : string) : string :=
  match value with
  | Some (String c s) => String c s
  | Some EmptyString | None => default
  end.

Definition _upload_to_s3 (env : Env) (self : WAFChecker)
           (content filename content_type : string) : IO unit :=
  match s3_bucket self with
  | None | Some EmptyString =>
      io_log WARNING "Bucket S3 não configurado, salvando localmente" >>
      let filepath := os_path_join "output" filename in
      perform env (os_makedirs "output") >>
      perform env (f_write filepath content)
  | Some bucket =>
      io_except
        (perform env session_client_s3 >>
         perform env (put_object bucket filename content content_type) >>
         io_log INFO ("Arquivo enviado para S3: s3://" ++ bucket ++ "/" ++ filename))
        py_is_Exception
        (fun e =>
           io_log ERROR ("Erro ao enviar para S3: " ++ py_str e) >>
           let filepath := os_path_join "output" filename in
           perform env (os_makedirs "output") >>
           perform env (f_write filepath content) >>
           io_log INFO ("Arquivo salvo localmente como fallback: " ++ filepath))
  end.

(** The dictionary [_save_csv] builds for a result. *)
Definition csv_row (env : Env) (result : CheckResult) : CsvRow :=
  mkCsvRow
    (url result)
    (if waf_detected result then "Sim" else "Não")
    (or_text (waf_type result) "N/A")
    (if truthy (waf_indicators result)
     then String.concat "; " (waf_indicators result) else "N/A")
    (match status_code result with
     | Some n => if (n =? 0)%Z then inr "N/A" else inl n
     | None => inr "N/A"
     end)
    (match response_time result with
     | Some t => if (t =? 0)%Z then "N/A" else (format_3f env t ++ "s")%string
     | None => "N/A"
     end)
    (or_text (error result) "N/A").

Definition _save_csv (env : Env) (self : WAFChecker)
           (results : list CheckResult) (filename : string) : IO unit :=
  if negb (truthy results) then io_ret tt
  else
    let csv_data := map (csv_row env) results in
    if local_mode self then
      let filepath := os_path_join "output" filename in
      perform env (os_makedirs "output") >>
      perform env (df_to_csv csv_data filepath) >>
      io_log INFO ("CSV salvo localmente: " ++ filepath)
    else
      _upload_to_s3 env self (to_csv_text env csv_data) filename "text/csv".

(** [sum(1 for r in results if test(r))] *)
Definition count_if (test : CheckResult -> bool) (results : list CheckResult) : nat :=
  List.length (filter test results).

Definition json_data_of (env : Env) (results : list CheckResult) : JsonData :=
  mkJsonData
    (mkMetadata (json_time env)
                (List.length results)
                (count_if waf_detected results)
                (count_if (fun r => negb (waf_detected r)) results))
    results.

Definition _save_json (env : Env) (self : WAFChecker)
           (results : list CheckResult) (filename : string) : IO unit :=
  if negb (truthy results) then io_ret tt
  else
    let json_data := json_data_of env results in
    if local_mode self then
      let filepath := os_path_join "output" filename in
      perform env (os_makedirs "output") >>
      perform env (json_dump json_data filepath) >>
      io_log INFO ("JSON salvo localmente: " ++ filepath)
    else
      _upload_to_s3 env self (json_dumps env json_data) filename "application/json".

(** [x in [a, b]] on texts *)
Definition text_in (x : string) (l : list string) : bool := existsb (String.eqb x) l.

Definition save_results (env : Env) (self : WAFChecker)
           (results : list CheckResult) (output_format : string) : IO unit :=
  let timestamp := save_time env in
  (if text_in output_format ["csv"; "both"]
   then _save_csv env self results
                  ("waf_check_results_" ++ str_of_int timestamp ++ ".csv")
   else io_ret tt) >>
  (if text_in output_format ["json"; "both"]
   then _save_json env self results
                   ("waf_check_results_" ++ str_of_int timestamp ++ ".json")
   else io_ret tt).

(** ** [main] *)

(** How the command ends: it returns, [sys.exit] ends it, or an
    exception leaves it. *)
Inductive ending : Type :=
  | Done
  | SystemExit (code : Z)
  | Uncaught (e : py_exn).

Definition is_KeyboardInterrupt (e : py_exn) : bool :=
  match e with Checker KeyboardInterrupt => true | _ => false end.

(** [checker.check_waf_protection(url)] as the [i]-th check of the run *)
Definition check (env : Env) (i : nat) (u : string) : IO CheckResult :=
  on_log (fun log0 =>
            match check_waf_protection (worlds env i) u log0 with
            | (Return r, log1) => (Returns r, log1)
            | (Raise e, log1) => (Raises (Checker e), log1)
            end).

(** The loop [for i, url in enumerate(urls, 1)] from its [i]-th turn,
    [total] being [len(urls)]. *)
Fixpoint check_urls (env : Env) (total : nat) (urls : list string) (i : nat)
         (results : list CheckResult) : IO (list CheckResult) :=
  match urls with
  | [] => io_ret results
  | u :: rest =>
      io_log INFO ("Verificando " ++ str_of_nat i ++ "/" ++ str_of_nat total ++ ": " ++ u) >>
      check env i u >>= fun result =>
      perform env time_sleep >>
      check_urls env total rest (S i) (results ++ [result])
  end.

(** The first statement of the [try] of [main]: the URLs come from the
    file, if one is named, and from Route53 if not. *)
Definition get_urls (env : Env) (urls_file : option string) (max_urls : option Z)
           (hosted_zone_id : option string) : IO (list string) :=
  match urls_file with
  | Some (String c s) =>
      let file := String c s in
      io_log INFO ("Carregando URLs do arquivo: " ++ file) >>
      on_log (load_urls_from_file (sources env) file max_urls)
  | Some EmptyString | None =>
      io_log INFO "Listando registros DNS do Route53..." >>
      on_log (get_route53_records (sources env) hosted_zone_id max_urls)
  end.

(** The statements of the [try] after the URLs are there. *)
Definition check_and_save (env : Env) (checker : WAFChecker) (output_format : string)
           (urls : list string) : IO unit :=
  if negb (truthy urls) then
    io_log WARNING "Nenhuma URL encontrada para testar"
  else
    io_log INFO ("Iniciando verificação de WAF para "
                 ++ str_of_nat (List.length urls) ++ " URLs...") >>
    check_urls env (List.length urls) urls 1 [] >>= fun results =>
    io_log INFO "Salvando resultados..." >>
    save_results env checker results output_format >>
    let waf_detected := count_if waf_detected results in
    io_log INFO "Verificação concluída!" >>
    io_log INFO ("Total de URLs: " ++ str_of_nat (List.length urls)) >>
    io_log INFO ("WAF detectado: " ++ str_of_nat waf_detected) >>
    io_log INFO ("Sem WAF: "
                 ++ str_of_int (Z.of_nat (List.length urls) - Z.of_nat waf_detected)).

(** The body of the [try] statement of [main]. *)
Definition main_try (env : Env) (checker : WAFChecker) (urls_file : option string)
           (max_urls : option Z) (hosted_zone_id : option string)
           (output_format : string) : IO unit :=
  get_urls env urls_file max_urls hosted_zone_id >>= check_and_save env checker output_format.

(** The statements of [main] before the [try]: the environment file is
    loaded, the mode is exported, and the checker is made, which opens
    a session. *)
Definition setup (env : Env) (local_mode : bool) : IO unit :=
  perform env load_dotenv >>
  (if local_mode then perform env (os_environ_set "LOCAL_MODE" "true") else io_ret tt) >>
  perform env boto3_Session.

(** The two [except] clauses of [main], on what the [try] left. *)
Definition main_handlers (e : py_exn) (st : Store) : ending * Store :=
  if is_KeyboardInterrupt e then
    (Done, mkStore (calls st)
                   (journal st ++ [(INFO, "Operação interrompida pelo usuário")]))
  else if py_is_Exception e then
    (SystemExit 1,
     mkStore (calls st)
             (journal st ++ [(ERROR, ("Erro durante execução: " ++ py_str e)%string)]))
  else (Uncaught e, st).

Definition main (env : Env) (local_mode local_storage : bool) (urls_file : option string)
           (max_urls : option Z) (hosted_zone_id : option string)
           (output_format : string) (show_help : bool) (st : Store) : ending * Store :=
  if show_help then
    match perform env click_echo_help st with
    | (Returns _, st') => (Done, st')
    | (Raises e, st') => (Uncaught e, st')
    end
  else
    match setup env local_mode st with
    | (Raises e, st') => (Uncaught e, st')
    | (Returns _, st') =>
        let s3_bucket := if local_storage then None else getenv_S3_BUCKET env in
        let checker := mkWAFChecker local_mode s3_bucket in
        match main_try env checker urls_file max_urls hosted_zone_id output_format st' with
        | (Returns _, st'') => (Done, st'')
        | (Raises e, st'') => main_handlers e st''
        end
    end.

(** ** An example of an environment *)

(** The S3 client is made, [put_object] is refused, every other call is
    answered; the serialisers give a fixed text. *)
Definition env_example : Env :=
  mkEnv sources_example
        (fun _ => world_cloudflare_site)
        (fun _ c => match c with
                    | put_object _ _ _ _ => Raises (ClientError "AccessDenied")
                    | _ => Returns tt
                    end)
        (Some "waf-reports")
        1700000000 1700000001
        (fun _ => "URL,WAF_Detectado")
        (fun _ => "{}")
        (fun _ => "0.250").

(** ** The calls of the save methods *)

(** A method makes no call less, or at least one call more. *)
Definition keeps_calls {A : Type} (m : IO A) : Prop :=
  forall st, List.length (calls st) <= List.length (calls (snd (m st))).

Definition makes_a_call {A : Type} (m : IO A) : Prop :=
  forall st, List.length (calls st) < List.length (calls (snd (m st))).

(** The example environment on a disk where no file can be written. *)
Definition env_read_only : Env :=
  mkEnv (sources env_example) (worlds env_example)
        (fun _ c => match c with
                    | put_object _ _ _ _ => Raises (ClientError "AccessDenied")
                    | f_write _ _ | df_to_csv _ _ | json_dump _ _ =>
                        Raises (Checker (OtherException "[Errno 30] Read-only file system"))
                    | _ => Returns tt
                    end)
        (getenv_S3_BUCKET env_example)
        (save_time env_example) (json_time env_example)
        (to_csv_text env_example) (json_dumps env_example) (format_3f env_example).

(** ** The fields of a returned result *)

(** The four tags of an indicator. *)
Definition indicator_tags : list string :=
  ["DNS_TXT_"; "HTTP_HEADER_"; "HTTP_COOKIE_"; "HTTP_BODY_"].

(** ** What is written for a result *)

Definition result_cloudflare_site : CheckResult :=
  mkResult "https://shop.example" true (Some "cloudflare")
           ["HTTP_HEADER_cloudflare"; "HTTP_COOKIE_cloudflare"]
           (Some 200%Z) (Some 150%Z) None.

(** ** What [main] hands to the outside *)



(** Every call a method adds satisfies [P]. *)
Definition only_calls {A : Type} (P : ext_call -> Prop) (m : IO A) : Prop :=
  forall st, exists l, calls (snd (m st)) = calls st ++ l /\ Forall P l.

(** The calls of a save in local mode: the directory is made, and the
    table and the document are written under it, in files named after
    the one reading of the clock in [save_results]. *)
Definition local_call (env : Env) (rs : list CheckResult) (c : ext_call) : Prop :=
  c = os_makedirs "output" \/
  c = df_to_csv (map (csv_row env) rs)
                ("output/waf_check_results_" ++ str_of_int (save_time env) ++ ".csv") \/
  c = json_dump (json_data_of env rs)
                ("output/waf_check_results_" ++ str_of_int (save_time env) ++ ".json").

(** * Proofs *)

(** ** Run lemmas for the loops *)

Example determine_cloudflare :
  _determine_waf_type ["HTTP_HEADER_cloudflare"; "HTTP_COOKIE_cloudflare"; "HTTP_BODY_akamai"]
  = "cloudflare".
Proof. reflexivity. Qed.

Lemma frame_eta {L} (s : Frame L) : mkFrame (locals s) (log s) = s.
Proof. destruct s; reflexivity. Qed.

Lemma for_each_appends {X} (g : X -> list string) (body : X -> M (list string) unit) :
  (forall x s, body x s = (Return tt, mkFrame (locals s ++ g x) (log s))) ->
  forall l s,
    for_each l body s = (Return tt, mkFrame (locals s ++ flat_map g l) (log s)).
Proof.
  intros Hbody l; induction l as [|x l IH]; intros s; simpl.
  - unfold ret. now rewrite app_nil_r, frame_eta.
  - unfold bind. rewrite Hbody, IH. simpl. now rewrite app_assoc.
Qed.

Lemma vendor_loop (tag : string) (test : string -> bool) (s : Frame (list string)) :
  for_each waf_patterns
    (fun '(waf_name, patterns) =>
       when (existsb test patterns) (append (tag ++ waf_name))) s
  = (Return tt, mkFrame (locals s ++ vendor_hits tag test) (log s)).
Proof.
  unfold vendor_hits. apply for_each_appends.
  intros [waf_name patterns] s'. destruct (existsb test patterns); simpl.
  - reflexivity.
  - unfold ret. now rewrite app_nil_r, frame_eta.
Qed.

Lemma cname_loop (cname_records : list string) (s : Frame (list string)) :
  for_each cname_records
    (fun record =>
       let cname_data := lower record in
       when (existsb (fun cdn => contains cdn cname_data) cdn_tokens)
            (cdn <- unbound_name "cdn" ;; append ("DNS_CNAME_" ++ cdn))) s
  = if existsb cname_match cname_records
    then (Raise (NameError "name 'cdn' is not defined"), s)
    else (Return tt, s).
Proof.
  induction cname_records as [|record l IH]; [reflexivity|].
  cbn [for_each existsb]. unfold bind at 1.
  change (existsb (fun cdn => contains cdn (lower record)) cdn_tokens)
    with (cname_match record).
  destruct (cname_match record); [reflexivity|].
  cbn [when orb]. unfold ret at 1. apply IH.
Qed.

Lemma txt_loop (txt_records : list string) (s : Frame (list string)) :
  for_each txt_records
    (fun record =>
       let txt_data := record in
       for_each waf_patterns (fun '(waf_name, patterns) =>
         when (existsb (fun pattern => contains pattern (lower txt_data)) patterns)
              (append ("DNS_TXT_" ++ waf_name)))) s
  = (Return tt, mkFrame (locals s ++ flat_map txt_hits txt_records) (log s)).
Proof.
  apply for_each_appends. intros record s'. apply vendor_loop.
Qed.

(** The CNAME block of [_check_dns_indicators] leaves the frame as it
    found it: it returns, or lets [cname_failure] escape. *)
Lemma cname_block_run (w : World) (domain : string) (s : Frame (list string)) :
  try_except
    (cname_records <- lift (dns_resolve w domain CNAME) ;;
     for_each cname_records (fun record =>
       let cname_data := lower record in
       when (existsb (fun cdn => contains cdn cname_data) cdn_tokens)
            (cdn <- unbound_name "cdn" ;; append ("DNS_CNAME_" ++ cdn))))
    [ (is_NoAnswer, fun _ => ret tt) ] s
  = match cname_failure w domain with
    | None => (Return tt, s)
    | Some e => (Raise e, s)
    end.
Proof.
  unfold try_except, cname_failure, bind at 1, lift.
  destruct (dns_resolve w domain CNAME) as [cname_records|e].
  - rewrite cname_loop. destruct (existsb cname_match cname_records); reflexivity.
  - cbn [dispatch]. destruct (is_NoAnswer e); reflexivity.
Qed.

(** [_check_dns_indicators] in closed form. *)
Lemma check_dns_run (w : World) (domain : string) (s : Frame (list string)) :
  _check_dns_indicators w domain s =
    let inds := locals s ++ dns_indicators_of w domain in
    match dns_failure w domain with
    | None => (Return inds, mkFrame inds (log s))
    | Some e =>
        if is_Exception e
        then (Return inds, mkFrame inds (log s ++ [dns_debug_entry domain e]))
        else (Raise e, mkFrame inds (log s))
    end.
Proof.
  unfold _check_dns_indicators, dns_failure, dns_indicators_of.
  unfold bind at 1. unfold try_except at 1. unfold bind at 1.
  unfold try_except at 1. unfold bind at 1. unfold lift at 1.
  destruct (dns_resolve w domain TXT) as [txt_records|e].
  - rewrite txt_loop, cname_block_run.
    destruct (cname_failure w domain) as [e|]; cbn.
    + destruct (is_Exception e); reflexivity.
    + reflexivity.
  - cbn [dispatch].
    assert (Hnil : mkFrame (locals s ++ []) (log s) = s)
      by (rewrite app_nil_r; apply frame_eta).
    destruct e; cbn [is_NXDOMAIN is_NoAnswer orb];
      try (unfold ret at 1; rewrite cname_block_run;
           destruct (cname_failure w domain) as [e'|]; cbn;
           [destruct (is_Exception e')|]; rewrite ?app_nil_r, ?frame_eta; reflexivity);
      cbn; rewrite ?app_nil_r, ?frame_eta; reflexivity.
Qed.

Lemma header_loop (headers : list (string * string)) (s : Frame (list string)) :
  for_each headers
    (fun '(header_name, header_value) =>
       let header_lower := lower header_name in
       let header_value_lower := lower header_value in
       for_each waf_patterns (fun '(waf_name, patterns) =>
         when (existsb (fun pattern => contains pattern header_lower
                                       || contains pattern header_value_lower) patterns)
              (append ("HTTP_HEADER_" ++ waf_name)))) s
  = (Return tt, mkFrame (locals s ++ flat_map header_hits headers) (log s)).
Proof.
  apply for_each_appends. intros [header_name header_value] s'. apply vendor_loop.
Qed.

Lemma cookie_loop (cookies : list string) (s : Frame (list string)) :
  for_each cookies
    (fun cookie =>
       let cookie_name := lower cookie in
       for_each waf_patterns (fun '(waf_name, patterns) =>
         when (existsb (fun pattern => contains pattern cookie_name) patterns)
              (append ("HTTP_COOKIE_" ++ waf_name)))) s
  = (Return tt, mkFrame (locals s ++ flat_map cookie_hits cookies) (log s)).
Proof.
  apply for_each_appends. intros cookie s'. apply vendor_loop.
Qed.

(** [_check_http_indicators] in closed form: it always returns. *)
Lemma check_http_run (response : Response) (s : Frame (list string)) :
  _check_http_indicators response s =
    let inds := locals s ++ http_indicators_of response in
    (Return inds, mkFrame inds (log s)).
Proof.
  unfold _check_http_indicators, http_indicators_of.
  unfold bind at 1. rewrite header_loop.
  unfold bind at 1. rewrite cookie_loop.
  unfold bind at 1, try_except, bind at 1, lift, body_hits.
  destruct (resp_text response) as [text|e].
  - rewrite vendor_loop. cbn. now rewrite <- !app_assoc.
  - cbn. now rewrite app_nil_r, <- !app_assoc.
Qed.

(** ** The orchestrator in closed form *)

Lemma call_dns_run (w : World) (domain : string) (s : Frame CheckResult) :
  call (_check_dns_indicators w domain) [] s =
    match dns_failure w domain with
    | Some e =>
        if is_Exception e
        then (Return (dns_indicators_of w domain),
              mkFrame (locals s) (log s ++ [dns_debug_entry domain e]))
        else (Raise e, s)
    | None => (Return (dns_indicators_of w domain), s)
    end.
Proof.
  unfold call. rewrite check_dns_run. cbn.
  destruct (dns_failure w domain) as [e|]; [destruct (is_Exception e)|];
    cbn; rewrite ?frame_eta; reflexivity.
Qed.

Lemma call_http_run (response : Response) (s : Frame CheckResult) :
  call (_check_http_indicators response) [] s
  = (Return (http_indicators_of response), s).
Proof.
  unfold call. rewrite check_http_run. cbn. now rewrite frame_eta.
Qed.

Lemma detect_run (inds : list string) (s : Frame CheckResult) :
  when (truthy inds)
       (modify (set_waf_detected true) ;; modify (extend_waf_indicators inds)) s
  = (Return tt, mkFrame (detect inds (locals s)) (log s)).
Proof.
  unfold detect. destruct (truthy inds); cbn; [reflexivity|].
  unfold ret. now rewrite frame_eta.
Qed.

(** Symbolic execution of the orchestrator's body from the DNS call on. *)
Ltac run_from_dns w u :=
  unfold bind at 1; rewrite detect_run; cbv zeta;
  unfold bind at 1, lift at 1;
  destruct (requests_get w u) as [response|e'];
  [ unfold bind at 1; cbn [modify locals log];
    unfold bind at 1; cbn [modify locals log];
    unfold bind at 1; rewrite call_http_run;
    unfold bind at 1; rewrite detect_run;
    unfold bind at 1, get_locals at 1; cbn [locals log];
    unfold classify;
    destruct (truthy (waf_indicators _)); reflexivity
  | unfold handled; cbn [dispatch];
    destruct (is_RequestException e'); [reflexivity|];
    destruct (is_Exception e'); reflexivity ].

Lemma check_waf_protection_run (w : World) (u : string) (log0 : Log) :
  check_waf_protection w u log0 =
    match urlparse_netloc w u with
    | Raise e => handled u e (initial_result u) log0
    | Return domain =>
        let r1 := detect (dns_indicators_of w domain) (initial_result u) in
        let log1 := log0 ++ dns_log_of w domain in
        match dns_failure w domain with
        | Some (KeyboardInterrupt as e) => (Raise e, log0)
        | _ =>
            match requests_get w u with
            | Raise e => handled u e r1 log1
            | Return response =>
                let r2 := set_status_code (resp_status_code response)
                            (set_response_time (time_after w - time_before w) r1) in
                (Return (classify (detect (http_indicators_of response) r2)), log1)
            end
        end
    end.
Proof.
  unfold check_waf_protection, check_waf_protection_body.
  unfold bind at 1, try_except, bind at 1, lift at 1.
  destruct (urlparse_netloc w u) as [domain|e].
  - unfold bind at 1. rewrite call_dns_run. unfold dns_log_of.
    destruct (dns_failure w domain) as [e|].
    + destruct e; cbn [is_Exception locals log];
        try (run_from_dns w u).
      reflexivity.
    + rewrite app_nil_r. run_from_dns w u.
  - unfold handled. cbn [dispatch].
    destruct (is_RequestException e); [reflexivity|].
    destruct (is_Exception e); reflexivity.
Qed.

(** A site behind Cloudflare, end to end: the header and the cookie
    each give an indicator and the vendor is resolved. *)
Example cloudflare_site_detected :
  check_waf_protection world_cloudflare_site "https://www.example.com" []
  = (Return (mkResult "https://www.example.com" true (Some "cloudflare")
               ["HTTP_HEADER_cloudflare"; "HTTP_COOKIE_cloudflare"]
               (Some 200%Z) (Some 150%Z) None),
     []).
Proof. vm_compute. reflexivity. Qed.

(** ** Invariants of the result record *)

Lemma truthy_nonempty {A} (l : list A) : truthy l = true <-> l <> [].
Proof. destruct l; simpl; split; congruence. Qed.

Lemma inv_initial (u : string) : detected_iff_indicators (initial_result u).
Proof. unfold detected_iff_indicators; simpl; split; congruence. Qed.

Lemma inv_detect (inds : list string) (r : CheckResult) :
  detected_iff_indicators r -> detected_iff_indicators (detect inds r).
Proof.
  unfold detect. destruct inds as [|i inds]; simpl; [trivial|].
  intros _. unfold detected_iff_indicators; simpl. split; [|reflexivity].
  intros _ H. apply app_eq_nil in H. destruct H; discriminate.
Qed.

Lemma inv_classify (r : CheckResult) :
  detected_iff_indicators r -> detected_iff_indicators (classify r).
Proof. unfold classify. destruct (truthy (waf_indicators r)); trivial. Qed.

Lemma inv_handled (u : string) (e : exn) (r r' : CheckResult) (lg lg' : Log) :
  detected_iff_indicators r ->
  handled u e r lg = (Return r', lg') -> detected_iff_indicators r'.
Proof.
  unfold handled. intros Hr.
  destruct (is_RequestException e); [|destruct (is_Exception e)];
    intros H; inversion H; subst; exact Hr.
Qed.

Lemma handled_returns (u : string) (e : exn) (r : CheckResult) (lg : Log) :
  is_Exception e = true ->
  exists lg', handled u e r lg = (Return (set_error (str e) r), lg').
Proof.
  unfold handled. intros He. rewrite He.
  destruct (is_RequestException e); eexists; reflexivity.
Qed.

Lemma cname_failure_Exception (w : World) (domain : string) (e : exn) :
  (forall rd e', dns_resolve w domain rd = Raise e' -> is_Exception e' = true) ->
  cname_failure w domain = Some e -> is_Exception e = true.
Proof.
  unfold cname_failure. intros Hw.
  destruct (dns_resolve w domain CNAME) as [recs|e'] eqn:Hc.
  - destruct (existsb cname_match recs); intros H; inversion H; reflexivity.
  - destruct (is_NoAnswer e'); intros H; inversion H; subst. eauto.
Qed.

Lemma dns_failure_Exception (w : World) (domain : string) (e : exn) :
  (forall rd e', dns_resolve w domain rd = Raise e' -> is_Exception e' = true) ->
  dns_failure w domain = Some e -> is_Exception e = true.
Proof.
  unfold dns_failure. intros Hw.
  destruct (dns_resolve w domain TXT) as [recs|e'] eqn:Ht.
  - apply cname_failure_Exception; assumption.
  - destruct (is_NXDOMAIN e' || is_NoAnswer e').
    + apply cname_failure_Exception; assumption.
    + intros H; inversion H; subst. eauto.
Qed.

(** Unless a library call is interrupted, [check_waf_protection]
    returns a result. *)
Lemma check_returns (w : World) (u : string) (log0 : Log) :
  no_interrupt w u ->
  exists r log1, check_waf_protection w u log0 = (Return r, log1).
Proof.
  intros (Hparse & Hdns & Hget). rewrite check_waf_protection_run.
  destruct (urlparse_netloc w u) as [domain|e] eqn:Hp.
  - assert (Hok : forall e, dns_failure w domain = Some e -> is_Exception e = true)
      by (intros e; apply dns_failure_Exception; intros rd e'; apply Hdns).
    cbv zeta.
    assert (Hrest : exists r log1,
      match requests_get w u with
      | Return response =>
          (Return (classify (detect (http_indicators_of response)
             (set_status_code (resp_status_code response)
                (set_response_time (time_after w - time_before w)
                   (detect (dns_indicators_of w domain) (initial_result u)))))),
           log0 ++ dns_log_of w domain)
      | Raise e =>
          handled u e (detect (dns_indicators_of w domain) (initial_result u))
            (log0 ++ dns_log_of w domain)
      end = (Return r, log1)).
    { destruct (requests_get w u) as [response|e] eqn:Hg.
      - eauto.
      - destruct (handled_returns u e
          (detect (dns_indicators_of w domain) (initial_result u))
          (log0 ++ dns_log_of w domain) (Hget e eq_refl)) as [lg' H].
        eauto. }
    destruct (dns_failure w domain) as [e|]; [|exact Hrest].
    specialize (Hok e eq_refl). destruct e; try exact Hrest. discriminate.
  - destruct (handled_returns u e (initial_result u) log0 (Hparse e eq_refl))
      as [lg' H].
    eauto.
Qed.

(** Whatever [check_waf_protection] returns satisfies the invariant
    [detected_iff_indicators]. *)
Lemma check_result_inv (w : World) (u : string) (log0 log1 : Log) (r : CheckResult) :
  check_waf_protection w u log0 = (Return r, log1) -> detected_iff_indicators r.
Proof.
  rewrite check_waf_protection_run.
  destruct (urlparse_netloc w u) as [domain|e].
  - cbv zeta.
    assert (Hrest :
      match requests_get w u with
      | Return response =>
          (Return (classify (detect (http_indicators_of response)
             (set_status_code (resp_status_code response)
                (set_response_time (time_after w - time_before w)
                   (detect (dns_indicators_of w domain) (initial_result u)))))),
           log0 ++ dns_log_of w domain)
      | Raise e =>
          handled u e (detect (dns_indicators_of w domain) (initial_result u))
            (log0 ++ dns_log_of w domain)
      end = (Return r, log1) -> detected_iff_indicators r).
    { destruct (requests_get w u) as [response|e].
      - intros H; inversion H; subst.
        apply inv_classify, inv_detect.
        exact (inv_detect (dns_indicators_of w domain) _ (inv_initial u)).
      - apply inv_handled, inv_detect, inv_initial. }
    destruct (dns_failure w domain) as [e|]; [|exact Hrest].
    destruct e; try exact Hrest. discriminate.
  - apply inv_handled, inv_initial.
Qed.

(** C4: for every probed URL, the returned result has [waf_detected]
    true if and only if [waf_indicators] is not empty; and a result is
    returned whenever no library call is interrupted. *)
Theorem waf_detected_iff_indicators (w : World) (u : string) (log0 : Log) :
  (forall r log1, check_waf_protection w u log0 = (Return r, log1) ->
     (waf_detected r = true <-> waf_indicators r <> [])) /\
  (no_interrupt w u ->
     exists r log1, check_waf_protection w u log0 = (Return r, log1)).
Proof.
  split.
  - intros r log1 H. exact (check_result_inv w u log0 log1 r H).
  - apply check_returns.
Qed.

(** The vendor field is still unset when the body reaches its last
    statement or leaves it through an exception. *)
Lemma detect_waf_type (inds : list string) (r : CheckResult) :
  waf_type (detect inds r) = waf_type r.
Proof. unfold detect. destruct (truthy inds); reflexivity. Qed.

Lemma classify_type (r : CheckResult) :
  waf_type r = None -> type_from_indicators (classify r).
Proof.
  unfold classify, type_from_indicators. intros Hnone v.
  destruct (truthy (waf_indicators r)) eqn:Ht; simpl.
  - intros H; inversion H; subst. split; [|reflexivity].
    now apply truthy_nonempty.
  - rewrite Hnone. discriminate.
Qed.

Lemma handled_type (u : string) (e : exn) (r r' : CheckResult) (lg lg' : Log) :
  waf_type r = None ->
  handled u e r lg = (Return r', lg') -> waf_type r' = None.
Proof.
  unfold handled. intros Hr.
  destruct (is_RequestException e); [|destruct (is_Exception e)];
    intros H; inversion H; subst; exact Hr.
Qed.

Lemma check_result_type (w : World) (u : string) (log0 log1 : Log) (r : CheckResult) :
  check_waf_protection w u log0 = (Return r, log1) -> type_from_indicators r.
Proof.
  rewrite check_waf_protection_run.
  assert (Hnone : forall r', waf_type r' = None -> type_from_indicators r')
    by (intros r' Hr v Hv; rewrite Hr in Hv; discriminate).
  destruct (urlparse_netloc w u) as [domain|e].
  - cbv zeta.
    assert (Hrest :
      match requests_get w u with
      | Return response =>
          (Return (classify (detect (http_indicators_of response)
             (set_status_code (resp_status_code response)
                (set_response_time (time_after w - time_before w)
                   (detect (dns_indicators_of w domain) (initial_result u)))))),
           log0 ++ dns_log_of w domain)
      | Raise e =>
          handled u e (detect (dns_indicators_of w domain) (initial_result u))
            (log0 ++ dns_log_of w domain)
      end = (Return r, log1) -> type_from_indicators r).
    { destruct (requests_get w u) as [response|e].
      - intros H; inversion H; subst. apply classify_type.
        rewrite detect_waf_type. simpl. apply detect_waf_type.
      - intros H. apply Hnone. eapply handled_type; [|exact H].
        apply detect_waf_type. }
    destruct (dns_failure w domain) as [e|]; [|exact Hrest].
    destruct e; try exact Hrest. discriminate.
  - intros H. apply Hnone. eapply handled_type; [|exact H]. reflexivity.
Qed.

(** ** The resolver on the empty list (C6) *)

(** C6, as stated, fails: on the empty indicator list the resolver
    returns the string "unknown", not an absent value. *)
Lemma resolver_on_empty_list_is_unknown :
  _determine_waf_type [] = "unknown".
Proof. reflexivity. Qed.

(** C6, amended: on the empty indicator list the resolver itself
    returns the string "unknown"; [check_waf_protection] calls it only
    on a non-empty list, so a result without indicators has no vendor
    at all, and a recorded vendor is the resolver's answer on a
    non-empty list. *)
Theorem no_indicators_no_vendor :
  _determine_waf_type [] = "unknown" /\
  forall (w : World) (u : string) (log0 log1 : Log) (r : CheckResult),
    check_waf_protection w u log0 = (Return r, log1) ->
    (waf_indicators r = [] -> waf_type r = None) /\
    (forall v, waf_type r = Some v ->
       waf_indicators r <> [] /\ v = _determine_waf_type (waf_indicators r)).
Proof.
  split; [reflexivity|].
  intros w u log0 log1 r H.
  pose proof (check_result_type w u log0 log1 r H) as Ht.
  split; [|exact Ht].
  intros Hnil. destruct (waf_type r) as [v|] eqn:Hv; [|reflexivity].
  destruct (Ht v Hv) as [Hne _]. contradiction.
Qed.

(** ** Totality and the error field (C9) *)





(** ** The DNS collector never raises (C5) *)

Lemma dns_log_txt (w : World) (domain : string) (e : exn) :
  dns_resolve w domain TXT = Raise e ->
  is_NXDOMAIN e = false -> is_NoAnswer e = false ->
  dns_failure w domain = Some e.
Proof.
  unfold dns_failure. intros -> Hnx Hna. now rewrite Hnx, Hna.
Qed.

Lemma dns_failure_passed (w : World) (domain : string) :
  txt_passed w domain -> dns_failure w domain = cname_failure w domain.
Proof.
  unfold txt_passed, dns_failure.
  destruct (dns_resolve w domain TXT) as [recs|e]; [reflexivity|].
  now intros ->.
Qed.

(** C5: the DNS collector never raises.  Whatever the resolver raises
    for the TXT or the CNAME query (an [Exception] of any class), the
    collector returns; a query that raised contributes no indicator;
    absent records (NXDOMAIN or NoAnswer on TXT, NoAnswer on CNAME) leave
    no trace, any other failure is logged at debug level; and the check
    of the URL goes on to the HTTP fetch. *)
Theorem dns_collector_never_raises (w : World) (domain : string) (log0 : Log) :
  (forall rd e, dns_resolve w domain rd = Raise e -> is_Exception e = true) ->
  exists inds log1,
    _check_dns_indicators w domain (mkFrame [] log0)
      = (Return inds, mkFrame inds (log0 ++ log1)) /\
    inds = match dns_resolve w domain TXT with
           | Return txt_records => flat_map txt_hits txt_records
           | Raise _ => []
           end /\
    (forall e, dns_resolve w domain TXT = Raise e ->
       inds = [] /\
       (is_NXDOMAIN e || is_NoAnswer e = false ->
        log1 = [dns_debug_entry domain e])) /\
    (forall e, txt_passed w domain -> dns_resolve w domain CNAME = Raise e ->
       if is_NoAnswer e then log1 = [] else log1 = [dns_debug_entry domain e]) /\
    (forall u response,
       urlparse_netloc w u = Return domain ->
       requests_get w u = Return response ->
       exists r log2,
         check_waf_protection w u log0 = (Return r, log2) /\
         status_code r = Some (resp_status_code response) /\
         error r = None).
Proof.
  intros Hw.
  assert (Hok : forall e, dns_failure w domain = Some e -> is_Exception e = true)
    by (intros e; apply dns_failure_Exception; exact Hw).
  exists (dns_indicators_of w domain), (dns_log_of w domain).
  split; [|split; [|split; [|split]]].
  - rewrite check_dns_run. cbn [locals log app]. unfold dns_log_of.
    destruct (dns_failure w domain) as [e|].
    + rewrite (Hok e eq_refl). reflexivity.
    + now rewrite app_nil_r.
  - reflexivity.
  - intros e He. unfold dns_indicators_of. rewrite He.
    split; [reflexivity|]. intros Habs.
    apply orb_false_elim in Habs. destruct Habs as [Hnx Hna].
    unfold dns_log_of. rewrite (dns_log_txt w domain e He Hnx Hna).
    now rewrite (Hw TXT e He).
  - intros e Hpass He. unfold dns_log_of.
    rewrite (dns_failure_passed w domain Hpass).
    unfold cname_failure. rewrite He.
    destruct (is_NoAnswer e); [reflexivity|]. now rewrite (Hw CNAME e He).
  - intros u response Hp Hg. rewrite check_waf_protection_run, Hp, Hg.
    cbv zeta.
    assert (Hrest : exists r log2,
      (Return (classify (detect (http_indicators_of response)
         (set_status_code (resp_status_code response)
            (set_response_time (time_after w - time_before w)
               (detect (dns_indicators_of w domain) (initial_result u)))))),
       log0 ++ dns_log_of w domain) = (Return r, log2) /\
      status_code r = Some (resp_status_code response) /\ error r = None).
    { do 2 eexists. split; [reflexivity|].
      unfold classify, detect.
      destruct (truthy (dns_indicators_of w domain));
        destruct (truthy (http_indicators_of response)); simpl;
        repeat match goal with
               | |- context [truthy ?l] => destruct (truthy l); simpl
               end; split; reflexivity. }
    destruct (dns_failure w domain) as [e|]; [|exact Hrest].
    specialize (Hok e eq_refl). destruct e; try exact Hrest. discriminate.
Qed.

(** For [nonexistent.example] both queries raise NXDOMAIN: the
    collector returns the empty list. *)
Lemma dns_collector_never_raises_witness :
  exists inds log1,
    _check_dns_indicators world_nxdomain "nonexistent.example" (mkFrame [] [])
      = (Return inds, mkFrame inds ([] ++ log1)) /\
    inds = [].
Proof.
  destruct (dns_collector_never_raises world_nxdomain "nonexistent.example" [])
    as (inds & log1 & Hrun & Hinds & _).
  - intros rd e H; inversion H; reflexivity.
  - exists inds, log1. split; [exact Hrun|exact Hinds].
Defined.

(** ** DNS-only evidence and a failed fetch (C1, C2) *)

(** When the HTTP fetch raises a request exception the result carries
    the error text and the DNS indicators, no status and no time; the
    vendor stays unset, with or without indicators. *)
Lemma http_failure_result (w : World) (u domain msg : string) (log0 : Log) :
  urlparse_netloc w u = Return domain ->
  (forall rd e, dns_resolve w domain rd = Raise e -> is_Exception e = true) ->
  requests_get w u = Raise (RequestException msg) ->
  fst (check_waf_protection w u log0)
  = Return (mkResult u (truthy (dns_indicators_of w domain)) None
              (dns_indicators_of w domain) None None (Some msg)).
Proof.
  intros Hp Hw Hg. rewrite check_waf_protection_run, Hp, Hg. cbv zeta.
  assert (Hok : forall e, dns_failure w domain = Some e -> is_Exception e = true)
    by (intros e; apply dns_failure_Exception; exact Hw).
  assert (Hrest :
    fst (handled u (RequestException msg)
           (detect (dns_indicators_of w domain) (initial_result u))
           (log0 ++ dns_log_of w domain))
    = Return (mkResult u (truthy (dns_indicators_of w domain)) None
                (dns_indicators_of w domain) None None (Some msg))).
  { unfold handled, detect. cbn [is_RequestException fst].
    destruct (dns_indicators_of w domain); reflexivity. }
  destruct (dns_failure w domain) as [e|]; [|exact Hrest].
  specialize (Hok e eq_refl). destruct e; try exact Hrest. discriminate.
Qed.

(** The DNS collector returns TXT evidence only: no run of it yields an
    indicator for a CNAME record. *)
Lemma dns_collector_txt_only (w : World) (domain : string) (log0 : Log) (inds : list string)
      (s : Frame (list string)) :
  _check_dns_indicators w domain (mkFrame [] log0) = (Return inds, s) ->
  forall i, In i inds -> exists record v, i = ("DNS_TXT_" ++ v)%string /\ In i (txt_hits record).
Proof.
  rewrite check_dns_run. cbn [locals log app].
  assert (Hin : forall i, In i (dns_indicators_of w domain) ->
            exists record v, i = ("DNS_TXT_" ++ v)%string /\ In i (txt_hits record)).
  { unfold dns_indicators_of. intros i.
    destruct (dns_resolve w domain TXT) as [recs|e]; [|intros []].
    intros Hi. apply in_flat_map in Hi. destruct Hi as (record & _ & Hi).
    pose proof Hi as Hi'. unfold txt_hits, vendor_hits in Hi'.
    apply in_flat_map in Hi'. destruct Hi' as ([v ps] & _ & Hv).
    destruct (existsb _ ps); [|destruct Hv].
    destruct Hv as [Hv|[]]. exists record, v. split; [symmetry; exact Hv|exact Hi]. }
  destruct (dns_failure w domain) as [e|]; [destruct (is_Exception e)|];
    intros H; inversion H; subst; try exact Hin.
Qed.

(** C1 at a failing input: the domain's TXT record names Cloudflare and
    the fetch is refused.  The result has the error, no status, no time
    and the DNS indicator, and [waf_detected] is true, yet [waf_type] is
    unset: the handler is entered before the statement that sets it. *)
Theorem dns_evidence_without_vendor :
  check_waf_protection world_txt_cloudflare_refused "https://shop.example.com" []
  = (Return (mkResult "https://shop.example.com" true None
               ["DNS_TXT_cloudflare"] None None (Some "Connection refused")),
     [(WARNING, "Erro ao acessar https://shop.example.com: Connection refused")]).
Proof. vm_compute. reflexivity. Qed.

(** C2 at a failing input: the CNAME target contains [cloudfront].  The
    collector stops at the unbound name [cdn], its handler logs the
    [NameError], and no indicator is returned; the check reports no WAF. *)
Theorem cname_match_yields_no_indicator :
  cname_match "d111111abcdef8.cloudfront.net." = true /\
  _check_dns_indicators world_cname_cloudfront "shop.example.com" (mkFrame [] [])
  = (Return [],
     mkFrame []
       [(DEBUG, "Erro ao verificar DNS para shop.example.com: name 'cdn' is not defined")]) /\
  check_waf_protection world_cname_cloudfront "https://shop.example.com" []
  = (Return (mkResult "https://shop.example.com" false None
               [] None None (Some "Connection refused")),
     [(DEBUG, "Erro ao verificar DNS para shop.example.com: name 'cdn' is not defined");
      (WARNING, "Erro ao acessar https://shop.example.com: Connection refused")]).
Proof. repeat split; vm_compute; reflexivity. Qed.

(** ** The vendor resolver (C3, C7) *)

Lemma dict_get_set_same (d : counts) (k : string) (v default : nat) :
  dict_get (dict_set d k v) k default = v.
Proof.
  induction d as [|[k' v'] d IH]; simpl.
  - now rewrite String.eqb_refl.
  - destruct (String.eqb k' k) eqn:E; simpl; rewrite E; [reflexivity|exact IH].
Qed.

Lemma dict_get_set_other (d : counts) (k k' : string) (v default : nat) :
  k <> k' -> dict_get (dict_set d k v) k' default = dict_get d k' default.
Proof.
  intros Hne. induction d as [|[k0 v0] d IH]; simpl.
  - destruct (String.eqb k k') eqn:E; [|reflexivity].
    apply String.eqb_eq in E. contradiction.
  - destruct (String.eqb k0 k) eqn:E; simpl.
    + apply String.eqb_eq in E. subst k0.
      destruct (String.eqb k k') eqn:E'; [|reflexivity].
      apply String.eqb_eq in E'. contradiction.
    + now rewrite IH.
Qed.

Lemma keys_dict_set_old (d : counts) (k : string) (v : nat) :
  In k (map fst d) -> map fst (dict_set d k v) = map fst d.
Proof.
  induction d as [|[k' v'] d IH]; simpl; [intros []|].
  destruct (String.eqb k' k) eqn:E; simpl; [reflexivity|].
  intros [H|H]; [subst; now rewrite String.eqb_refl in E|].
  now rewrite IH.
Qed.

Lemma keys_dict_set_new (d : counts) (k : string) (v : nat) :
  ~ In k (map fst d) -> map fst (dict_set d k v) = map fst d ++ [k].
Proof.
  induction d as [|[k' v'] d IH]; simpl; [reflexivity|].
  intros Hn. destruct (String.eqb k' k) eqn:E; simpl.
  - apply String.eqb_eq in E. subst. exfalso. apply Hn. now left.
  - rewrite IH; [reflexivity|]. intros H. apply Hn. now right.
Qed.

Lemma tally_snoc (l : list string) (i : string) :
  tally (l ++ [i]) =
    dict_set (tally l) (waf_name_of i) (dict_get (tally l) (waf_name_of i) 0 + 1).
Proof. unfold tally, tally_from. now rewrite fold_left_app. Qed.

Lemma count_occ_snoc (l : list string) (x k : string) :
  count_occ string_dec (l ++ [x]) k
  = count_occ string_dec l k + (if string_dec x k then 1 else 0).
Proof.
  rewrite count_occ_app. simpl. destruct (string_dec x k); reflexivity.
Qed.

(** The dictionary holds, for every key, its number of occurrences. *)
Lemma tally_counts (l : list string) (k : string) :
  dict_get (tally l) k 0 = occurrences k l.
Proof.
  unfold occurrences, keys_of. induction l as [|i l IH] using rev_ind.
  - reflexivity.
  - rewrite tally_snoc, map_app.
    change (map waf_name_of [i]) with [waf_name_of i].
    rewrite count_occ_snoc.
    destruct (string_dec (waf_name_of i) k) as [->|Hne].
    + now rewrite dict_get_set_same, IH.
    + rewrite dict_get_set_other by exact Hne. rewrite IH. lia.
Qed.

Lemma tally_keys (l : list string) (k : string) :
  In k (map fst (tally l)) <-> In k (keys_of l).
Proof.
  unfold keys_of. induction l as [|i l IH] using rev_ind.
  - reflexivity.
  - rewrite tally_snoc, map_app, in_app_iff.
    change (map waf_name_of [i]) with [waf_name_of i].
    destruct (in_dec string_dec (waf_name_of i) (map fst (tally l))) as [Hin|Hnin].
    + rewrite keys_dict_set_old by exact Hin. rewrite IH.
      split; [tauto|]. intros [H|[H|[]]]; [exact H|].
      subst k. now apply IH.
    + rewrite keys_dict_set_new by exact Hnin. rewrite in_app_iff, IH.
      simpl. tauto.
Qed.

(** The dictionary lists its keys by first occurrence: a key that stands
    at some place among the dictionary's keys first occurs in the input
    after nothing but keys that stand before it. *)
Lemma tally_order (l : list string) (p q : list string) (v : string) :
  map fst (tally l) = p ++ v :: q ->
  exists pre post,
    keys_of l = pre ++ v :: post /\ ~ In v pre /\ forall k, In k pre -> In k p.
Proof.
  revert p q v. unfold keys_of. induction l as [|i l IH] using rev_ind; intros p q v.
  - simpl. intros H. destruct p; discriminate H.
  - rewrite tally_snoc, map_app.
    change (map waf_name_of [i]) with [waf_name_of i].
    destruct (in_dec string_dec (waf_name_of i) (map fst (tally l))) as [Hin|Hnin].
    + rewrite keys_dict_set_old by exact Hin. intros H.
      destruct (IH p q v H) as (pre & post & Hk & Hv & Hp).
      exists pre, (post ++ [waf_name_of i]).
      rewrite Hk, <- app_assoc. simpl. auto.
    + rewrite keys_dict_set_new by exact Hnin. intros H.
      destruct q as [|k' q'] using rev_ind.
      * replace (p ++ [v]) with (p ++ [v]) in H by reflexivity.
        apply app_inj_tail in H. destruct H as [Hp Hv]. subst v.
        exists (map waf_name_of l), []. split; [reflexivity|]. split.
        -- intros H. apply Hnin. apply tally_keys. exact H.
        -- intros k Hk. rewrite <- Hp. apply tally_keys. exact Hk.
      * clear IHq'.
        replace (p ++ v :: q' ++ [k']) with ((p ++ v :: q') ++ [k']) in H
          by (rewrite <- app_assoc; reflexivity).
        apply app_inj_tail in H. destruct H as [H _].
        destruct (IH p q' v H) as (pre & post & Hk & Hv & Hp).
        exists pre, (post ++ [waf_name_of i]).
        rewrite Hk, <- app_assoc. simpl. auto.
Qed.

(** [max] returns a key such that every key before it has a strictly
    smaller value and no key after it has a greater one. *)
Lemma max_from_spec (key : string -> nat) (rest before after : list string) (best : string) :
  (forall k, In k before -> key k < key best) ->
  (forall k, In k after -> key k <= key best) ->
  exists p q,
    before ++ best :: after ++ rest = p ++ max_from key best rest :: q /\
    (forall k, In k p -> key k < key (max_from key best rest)) /\
    (forall k, In k q -> key k <= key (max_from key best rest)).
Proof.
  revert before after best.
  induction rest as [|k rest IH]; intros before after best Hb Ha; simpl.
  - exists before, after. rewrite app_nil_r. auto.
  - unfold max_from in *. simpl.
    destruct (key best <? key k)%nat eqn:E.
    + apply Nat.ltb_lt in E.
      destruct (IH (before ++ best :: after) [] k) as (p & q & Heq & Hp & Hq).
      * intros k0 H0. apply in_app_iff in H0. destruct H0 as [H0|[H0|H0]].
        -- specialize (Hb k0 H0). lia.
        -- subst k0. exact E.
        -- specialize (Ha k0 H0). lia.
      * intros k0 [].
      * exists p, q. split; [|auto].
        rewrite <- Heq. rewrite <- app_assoc. reflexivity.
    + apply Nat.ltb_ge in E.
      destruct (IH before (after ++ [k]) best) as (p & q & Heq & Hp & Hq).
      * exact Hb.
      * intros k0 H0. apply in_app_iff in H0. destruct H0 as [H0|[H0|[]]].
        -- auto.
        -- subst k0. exact E.
      * exists p, q. split; [|auto].
        rewrite <- Heq. rewrite <- app_assoc. reflexivity.
Qed.

Lemma two_first_occurrences (pre1 post1 pre2 post2 : list string) (v1 v2 : string) :
  pre1 ++ v1 :: post1 = pre2 ++ v2 :: post2 ->
  v1 = v2 \/ In v1 pre2 \/ In v2 pre1.
Proof.
  revert pre2. induction pre1 as [|a pre1 IH]; intros [|b pre2] H; simpl in *.
  - inversion H. now left.
  - inversion H. right. left. now left.
  - inversion H. right. right. now left.
  - inversion H. subst b. destruct (IH pre2 H2) as [E|[E|E]]; auto.
Qed.

Lemma resolver_follows_rule (indicators : list string) :
  first_max_rule indicators (_determine_waf_type indicators).
Proof.
  destruct indicators as [|i l]; [reflexivity|].
  unfold first_max_rule, _determine_waf_type.
  set (inds := i :: l). cbv zeta.
  destruct (map fst (tally inds)) as [|first rest] eqn:Hkeys.
  - exfalso.
    assert (H : In (waf_name_of i) (map fst (tally inds)))
      by (apply tally_keys; now left).
    rewrite Hkeys in H. exact H.
  - set (key := fun k => dict_get (tally inds) k 0).
    destruct (max_from_spec key rest [] [] first) as (p & q & Heq & Hp & Hq);
      [intros k []|intros k []|].
    simpl in Heq. set (v := max_from key first rest) in *.
    assert (Hkey : forall k, key k = occurrences k inds)
      by (intros k; apply tally_counts).
    rewrite <- Hkeys in Heq.
    destruct (tally_order inds p q v Heq) as (pre & post & Hk & Hv & Hpre).
    split.
    + exists pre, post. split; [exact Hk|]. split; [exact Hv|].
      intros k Hin. rewrite <- !Hkey. apply Hp, Hpre, Hin.
    + intros k. rewrite <- !Hkey.
      destruct (in_dec string_dec k (map fst (tally inds))) as [Hin|Hnin].
      * rewrite Heq in Hin. apply in_app_iff in Hin.
        destruct Hin as [Hin|[Hin|Hin]].
        -- specialize (Hp k Hin). lia.
        -- subst k. lia.
        -- exact (Hq k Hin).
      * rewrite Hkey. unfold occurrences.
        rewrite (proj1 (count_occ_not_In string_dec (keys_of inds) k)); [lia|].
        intros H. apply Hnin, tally_keys, H.
Qed.

Lemma first_max_rule_unique (indicators : list string) (v1 v2 : string) :
  first_max_rule indicators v1 -> first_max_rule indicators v2 -> v1 = v2.
Proof.
  destruct indicators as [|i l]; simpl.
  - congruence.
  - intros [(pre1 & post1 & Hk1 & _ & Hlt1) Hmax1] [(pre2 & post2 & Hk2 & _ & Hlt2) Hmax2].
    rewrite Hk1 in Hk2.
    destruct (two_first_occurrences _ _ _ _ _ _ Hk2) as [E|[E|E]]; [exact E| |].
    + specialize (Hlt2 v1 E). specialize (Hmax1 v2). lia.
    + specialize (Hlt1 v2 E). specialize (Hmax2 v1). lia.
Qed.

(** On a tie between two indicators the first one's key is returned. *)
Lemma resolver_tie (i1 i2 : string) :
  _determine_waf_type [i1; i2] = waf_name_of i1.
Proof.
  unfold _determine_waf_type, tally, tally_from. cbn [fold_left dict_get dict_set].
  set (k1 := waf_name_of i1). set (k2 := waf_name_of i2).
  destruct (String.eqb k1 k2) eqn:E; cbn [map fst]; unfold max_from; cbn [fold_left].
  - reflexivity.
  - cbn [dict_get]. rewrite String.eqb_refl, E, String.eqb_refl. reflexivity.
Qed.

(** C7: the resolver is deterministic.  Its answer on a list is fixed
    by the list through [first_max_rule], which at most one answer
    satisfies; on a tie between two indicators the answer is the first
    one's key. *)
Theorem resolver_deterministic (indicators : list string) :
  first_max_rule indicators (_determine_waf_type indicators) /\
  (forall v1 v2,
     first_max_rule indicators v1 -> first_max_rule indicators v2 -> v1 = v2) /\
  (forall i1 i2, _determine_waf_type [i1; i2] = waf_name_of i1).
Proof.
  split; [apply resolver_follows_rule|].
  split; [apply first_max_rule_unique|apply resolver_tie].
Qed.

(** A single-word vendor is recovered from its indicator. *)
Example waf_name_of_cloudflare :
  waf_name_of "DNS_TXT_cloudflare" = "cloudflare" /\
  _determine_waf_type ["DNS_TXT_cloudflare"; "HTTP_HEADER_akamai"] = "cloudflare" /\
  _determine_waf_type ["HTTP_HEADER_akamai"; "DNS_TXT_cloudflare"] = "akamai".
Proof. repeat split; reflexivity. Qed.

(** ** Single-word vendors *)

Lemma split_nonempty (sep : ascii) (s : string) : split sep s <> [].
Proof.
  induction s as [|c s IH]; simpl; [discriminate|].
  destruct (Ascii.eqb c sep); [discriminate|].
  destruct (split sep s); discriminate.
Qed.

Lemma split_no_sep (sep : ascii) (s : string) :
  no_char sep s = true -> split sep s = [s].
Proof.
  induction s as [|c s IH]; simpl; [reflexivity|].
  intros H. apply andb_prop in H. destruct H as [Hc Hs].
  apply negb_true_iff in Hc. rewrite Hc, (IH Hs). reflexivity.
Qed.

Lemma last_item_cons (x : string) (l : list string) :
  l <> [] -> last_item (x :: l) = last_item l.
Proof. destruct l; [congruence|reflexivity]. Qed.

Lemma split_two_pieces (sep : ascii) (pre s : string) :
  exists p q ps, split sep (pre ++ String sep s) = p :: q :: ps.
Proof.
  induction pre as [|c pre (p & q & ps & IH)]; cbn [String.append split].
  - rewrite Ascii.eqb_refl.
    destruct (split sep s) as [|q ps] eqn:E; [exfalso; exact (split_nonempty _ _ E)|].
    now exists EmptyString, q, ps.
  - rewrite IH. destruct (Ascii.eqb c sep); eauto.
Qed.

Lemma last_split_after_sep (sep : ascii) (pre s : string) :
  last_item (split sep (pre ++ String sep s)) = last_item (split sep s).
Proof.
  induction pre as [|c pre IH]; cbn [String.append split].
  - rewrite Ascii.eqb_refl. apply last_item_cons, split_nonempty.
  - destruct (split_two_pieces sep pre s) as (p & q & ps & E).
    rewrite E in *. rewrite <- IH.
    destruct (Ascii.eqb c sep); reflexivity.
Qed.

(** An indicator built from a tag ending in an underscore and a vendor
    name without underscores gives the vendor name back. *)
Lemma waf_name_of_single_word (tag vendor : string) :
  no_char "_" vendor = true ->
  waf_name_of (tag ++ String "_" vendor) = vendor.
Proof.
  intros H. unfold waf_name_of.
  rewrite last_split_after_sep, (split_no_sep _ _ H). reflexivity.
Qed.

(** With single-word vendors a strict majority wins, whatever the
    sources of the three indicators. *)
Lemma resolver_majority_single_word (t1 t2 t3 V1 V2 : string) :
  no_char "_" V1 = true -> no_char "_" V2 = true ->
  _determine_waf_type
    [ (t1 ++ String "_" V1)%string; (t2 ++ String "_" V1)%string;
      (t3 ++ String "_" V2)%string ] = V1.
Proof.
  intros H1 H2.
  unfold _determine_waf_type, tally, tally_from. cbn [fold_left].
  rewrite !waf_name_of_single_word by assumption.
  cbn [dict_get dict_set]. rewrite !String.eqb_refl. cbn [dict_get dict_set].
  destruct (String.eqb V1 V2) eqn:E; cbn [map fst]; unfold max_from; cbn [fold_left].
  - reflexivity.
  - cbn [dict_get]. rewrite ?String.eqb_refl, ?E, ?String.eqb_refl. reflexivity.
Qed.

(** The answer on a non-empty list is one of its keys, and no key
    occurs more often. *)
Lemma resolver_majority (indicators : list string) :
  indicators <> [] ->
  In (_determine_waf_type indicators) (keys_of indicators) /\
  forall k, occurrences k indicators <= occurrences (_determine_waf_type indicators) indicators.
Proof.
  intros Hne. pose proof (resolver_follows_rule indicators) as H.
  destruct indicators as [|i l]; [congruence|].
  destruct H as [(pre & post & Hk & _ & _) Hmax]. split; [|exact Hmax].
  rewrite Hk. apply in_app_iff. right. now left.
Qed.

(** C3 at a failing input: two indicators of the vendor [aws_waf]
    against one of [cloudflare].  The key tallied for [aws_waf] is the
    text after its last underscore, and that is what the resolver
    returns; likewise [f5_bigip] comes back as [bigip]. *)
Theorem multiword_vendor_truncated :
  _determine_waf_type ["HTTP_HEADER_aws_waf"; "HTTP_COOKIE_aws_waf"; "HTTP_BODY_cloudflare"]
    = "waf" /\
  _determine_waf_type ["HTTP_HEADER_f5_bigip"] = "bigip" /\
  waf_name_of "HTTP_HEADER_aws_waf" = "waf".
Proof. repeat split; reflexivity. Qed.

(** ** Case-insensitive matching (C8) *)

Section Recase.
Variable recase : string -> string.
Hypothesis recase_lower : forall s, lower (recase s) = lower s.

Lemma flat_map_map {A B C} (f : A -> B) (g : B -> list C) (l : list A) :
  flat_map g (map f l) = flat_map (fun x => g (f x)) l.
Proof. induction l as [|x l IH]; simpl; [reflexivity|]. now rewrite IH. Qed.

Lemma http_indicators_recase (r : Response) :
  http_indicators_of (recase_response recase r) = http_indicators_of r.
Proof.
  unfold http_indicators_of, recase_response. cbn [resp_headers resp_cookies resp_text].
  rewrite !flat_map_map. f_equal; [|f_equal].
  - apply flat_map_ext. intros [n v]. unfold header_hits. cbn [fst snd].
    now rewrite !recase_lower.
  - apply flat_map_ext. intros c. unfold cookie_hits. now rewrite recase_lower.
  - destruct (resp_text r) as [t|e]; [|reflexivity].
    unfold body_hits. now rewrite recase_lower.
Qed.

Lemma existsb_map {A B} (f : A -> B) (p : B -> bool) (l : list A) :
  existsb p (map f l) = existsb (fun x => p (f x)) l.
Proof. induction l as [|x l IH]; simpl; [reflexivity|]. now rewrite IH. Qed.

Lemma existsb_pointwise {A} (p q : A -> bool) (l : list A) :
  (forall x, p x = q x) -> existsb p l = existsb q l.
Proof.
  intros H. induction l as [|x l IH]; simpl; [reflexivity|]. now rewrite H, IH.
Qed.

Lemma cname_failure_recase (w : World) (domain : string) :
  cname_failure (recase_world recase w) domain = cname_failure w domain.
Proof.
  unfold cname_failure, recase_world. cbn [dns_resolve].
  destruct (dns_resolve w domain CNAME) as [recs|e]; [|reflexivity].
  rewrite existsb_map.
  replace (existsb (fun x => cname_match (recase x)) recs)
    with (existsb cname_match recs); [reflexivity|].
  apply existsb_pointwise. intros x. unfold cname_match. now rewrite recase_lower.
Qed.

Lemma dns_failure_recase (w : World) (domain : string) :
  dns_failure (recase_world recase w) domain = dns_failure w domain.
Proof.
  unfold dns_failure. rewrite cname_failure_recase.
  unfold recase_world. cbn [dns_resolve].
  destruct (dns_resolve w domain TXT); reflexivity.
Qed.

Lemma dns_indicators_recase (w : World) (domain : string) :
  dns_indicators_of (recase_world recase w) domain = dns_indicators_of w domain.
Proof.
  unfold dns_indicators_of, recase_world. cbn [dns_resolve].
  destruct (dns_resolve w domain TXT) as [recs|e]; [|reflexivity].
  rewrite flat_map_map. apply flat_map_ext. intros x.
  unfold txt_hits. now rewrite recase_lower.
Qed.

End Recase.

(** C8, amended: matching is case-insensitive on the probed input in
    that it reads only the lower-case form.  Rewriting every header name
    and value, cookie name, body and DNS record text by a function that
    keeps the lower-case form (a re-casing) leaves what the HTTP
    collector, the DNS collector and the whole check return unchanged.
    Upper-casing keeps it for a text of ASCII, not for every text. *)
Theorem matching_case_insensitive (recase : string -> string) :
  (forall s, lower (recase s) = lower s) ->
  (forall r s,
     _check_http_indicators (recase_response recase r) s = _check_http_indicators r s) /\
  (forall w domain s,
     _check_dns_indicators (recase_world recase w) domain s
     = _check_dns_indicators w domain s) /\
  (forall w u log0,
     check_waf_protection (recase_world recase w) u log0 = check_waf_protection w u log0).
Proof.
  intros Hre. split; [|split].
  - intros r s. rewrite !check_http_run. now rewrite http_indicators_recase.
  - intros w domain s. rewrite !check_dns_run.
    now rewrite dns_failure_recase, dns_indicators_recase.
  - intros w u log0. rewrite !check_waf_protection_run.
    unfold recase_world at 1. cbn [urlparse_netloc].
    destruct (urlparse_netloc w u) as [domain|e]; [|reflexivity].
    unfold dns_log_of.
    rewrite dns_failure_recase, dns_indicators_recase by exact Hre.
    unfold recase_world. cbn [requests_get time_before time_after].
    destruct (requests_get w u) as [r|e]; [|reflexivity].
    rewrite http_indicators_recase by exact Hre.
    reflexivity.
Qed.

(** The text upper-cased where that keeps the lower-case form is a
    re-casing. *)
Lemma lower_upper_or_keep (s : string) : lower (upper_or_keep s) = lower s.
Proof.
  unfold upper_or_keep. destruct (upper s) as [t|]; [|reflexivity].
  destruct (String.eqb_spec (lower t) (lower s)) as [E|_]; [exact E|reflexivity].
Qed.

Lemma lower_app (a b : string) : lower (a ++ b) = (lower a ++ lower b)%string.
Proof. induction a as [|c a IH]; cbn; [reflexivity|]. now rewrite IH. Qed.

Lemma upper_char_plain (c : ascii) :
  plain_char c = true ->
  exists u, upper_char c = Some u /\ lower u = String (lower_char c) EmptyString.
Proof.
  destruct c as [[] [] [] [] [] [] [] []]; cbn; intros H;
    try discriminate H; eexists; split; reflexivity.
Qed.

(** It is [s.upper()] for every text without sharp s, micro sign and y
    with diaeresis, so for every text of ASCII. *)
Lemma upper_or_keep_plain (s : string) :
  plain s = true -> upper s = Some (upper_or_keep s).
Proof.
  intros Hp.
  assert (H : exists t, upper s = Some t /\ lower t = lower s).
  { induction s as [|c s IH]; [now exists EmptyString|].
    cbn [plain] in Hp. apply andb_prop in Hp. destruct Hp as [Hc Hs].
    destruct (upper_char_plain c Hc) as (u & Hu & Hl).
    destruct (IH Hs) as (t & Ht & Hlt).
    exists (u ++ t)%string. cbn [upper lower]. rewrite Hu, Ht. split; [reflexivity|].
    rewrite lower_app, Hl, Hlt. reflexivity. }
  destruct H as (t & Ht & Hl). unfold upper_or_keep. rewrite Ht, Hl.
  now rewrite String.eqb_refl.
Qed.

(** Upper-casing every probed text, where that keeps its lower-case
    form, changes nothing; and it keeps the lower-case form of every
    text without sharp s, micro sign and y with diaeresis. *)
Lemma matching_case_insensitive_witness :
  (forall s, plain s = true -> upper s = Some (upper_or_keep s)) /\
  (forall s, lower (upper_or_keep s) = lower s) /\
  (forall r s,
     _check_http_indicators (recase_response upper_or_keep r) s
     = _check_http_indicators r s) /\
  (forall w domain s,
     _check_dns_indicators (recase_world upper_or_keep w) domain s
     = _check_dns_indicators w domain s) /\
  (forall w u log0,
     check_waf_protection (recase_world upper_or_keep w) u log0
     = check_waf_protection w u log0).
Proof.
  split; [exact upper_or_keep_plain|].
  split; [exact lower_upper_or_keep|].
  exact (matching_case_insensitive upper_or_keep lower_upper_or_keep).
Defined.

(** The claim as stated fails where upper-casing changes the lower-case
    form: the sharp s becomes [SS], so the upper-cased header matches a
    signature more. *)
Lemma upper_casing_adds_an_indicator :
  upper "Server" = Some "SERVER" /\
  upper ("cloudflare barra_counter_se" ++ String sharp_s "ion")
  = Some "CLOUDFLARE BARRA_COUNTER_SESSION" /\
  upper "<html></html>" = Some "<HTML></HTML>" /\
  fst (_check_http_indicators response_sharp_s (mkFrame [] []))
  = Return ["HTTP_HEADER_cloudflare"] /\
  fst (_check_http_indicators response_sharp_s_upper (mkFrame [] []))
  = Return ["HTTP_HEADER_cloudflare"; "HTTP_HEADER_barracuda"].
Proof. repeat split; vm_compute; reflexivity. Qed.

(** ** One indicator per vendor and probed item (C10) *)

Lemma hits_count (f : string -> string) (tag : string) (test : string -> bool)
      (l : list (string * list string)) (x : string) :
  count_occ string_dec
    (map f (flat_map (fun '(waf_name, patterns) =>
                        if existsb test patterns then [(tag ++ waf_name)%string] else [])
                     l)) x
  <= count_occ string_dec (map (fun p => f (tag ++ fst p)%string) l) x.
Proof.
  induction l as [|[n ps] l IH]; [reflexivity|].
  cbn [flat_map map fst]. rewrite map_app, count_occ_app.
  destruct (existsb test ps); cbn [map count_occ app];
    destruct (string_dec (f (tag ++ n)%string) x); simpl; lia.
Qed.

Lemma append_cancel (tag a b : string) :
  (tag ++ a)%string = (tag ++ b)%string -> a = b.
Proof.
  induction tag as [|c tag IH]; simpl; [trivial|].
  intros H. inversion H. auto.
Qed.

Lemma count_tagged (tag : string) (l : list (string * list string)) (v : string) :
  count_occ string_dec (map (fun p => (tag ++ fst p)%string) l) (tag ++ v)%string
  = count_occ string_dec (map fst l) v.
Proof.
  induction l as [|[n ps] l IH]; [reflexivity|]. cbn [map fst count_occ].
  destruct (string_dec (tag ++ n)%string (tag ++ v)%string) as [E|E];
    destruct (string_dec n v) as [E'|E']; rewrite IH; try reflexivity.
  - apply append_cancel in E. contradiction.
  - subst. contradiction.
Qed.

(** The registry has one entry per vendor. *)
Lemma waf_patterns_NoDup : NoDup (map fst waf_patterns).
Proof.
  simpl. repeat constructor; simpl; intuition discriminate.
Qed.

(** The keys the resolver tallies for the body indicators of the ten
    vendors are pairwise distinct. *)
Lemma body_keys_NoDup :
  NoDup (map (fun p => waf_name_of ("HTTP_BODY_" ++ fst p)) waf_patterns).
Proof.
  vm_compute. repeat constructor; simpl; intuition discriminate.
Qed.

(** On one probed item a vendor is reported at most once. *)
Lemma vendor_hits_once (tag : string) (test : string -> bool) (v : string) :
  count_occ string_dec (vendor_hits tag test) (tag ++ v)%string <= 1.
Proof.
  unfold vendor_hits.
  pose proof (hits_count (fun s => s) tag test waf_patterns (tag ++ v)%string) as H.
  rewrite map_id in H. rewrite count_tagged in H.
  pose proof (proj1 (NoDup_count_occ string_dec _) waf_patterns_NoDup v). lia.
Qed.

Lemma vendor_hits_tagged (tag : string) (test : string -> bool) (i : string) :
  In i (vendor_hits tag test) -> exists v, i = (tag ++ v)%string.
Proof.
  unfold vendor_hits. intros H. apply in_flat_map in H.
  destruct H as ([n ps] & _ & H). destruct (existsb test ps); [|destruct H].
  destruct H as [H|[]]. now exists n.
Qed.

Lemma occurrences_app (k : string) (a b : list string) :
  occurrences k (a ++ b) = occurrences k a + occurrences k b.
Proof. unfold occurrences, keys_of. now rewrite map_app, count_occ_app. Qed.

Lemma body_hits_once (text : outcome string) (v : string) :
  count_occ string_dec (body_hits text) ("HTTP_BODY_" ++ v)%string <= 1.
Proof.
  destruct text as [t|e]; [apply vendor_hits_once|simpl; lia].
Qed.

Lemma body_keys_once (text : outcome string) (k : string) :
  occurrences k (body_hits text) <= 1.
Proof.
  destruct text as [t|e]; [|unfold occurrences; simpl; lia].
  unfold occurrences, keys_of, body_hits, vendor_hits.
  pose proof (hits_count waf_name_of "HTTP_BODY_"
                (fun pattern => contains pattern (lower t)) waf_patterns k) as H.
  pose proof (proj1 (NoDup_count_occ string_dec _) body_keys_NoDup k). lia.
Qed.

Lemma count_occ_flat_map_bound {A} (f : A -> list string) (l : list A) (x : string) :
  (forall a, count_occ string_dec (f a) x <= 1) ->
  count_occ string_dec (flat_map f l) x <= length l.
Proof.
  intros H. induction l as [|a l IH]; simpl; [lia|].
  rewrite count_occ_app. specialize (H a). lia.
Qed.

(** C10: for one response the HTTP collector returns the header
    indicators, then the cookie indicators, then the body indicators;
    a header pair or a cookie yields a vendor's indicator at most once,
    the whole list holds a vendor's body indicator at most once, and
    the body raises the count of any key of the resolver's tally by at
    most one. *)
Theorem http_one_indicator_per_vendor (response : Response) (log0 : Log) :
  let header_part := flat_map header_hits (resp_headers response) in
  let cookie_part := flat_map cookie_hits (resp_cookies response) in
  let body_part := body_hits (resp_text response) in
  let inds := header_part ++ cookie_part ++ body_part in
  _check_http_indicators response (mkFrame [] log0) = (Return inds, mkFrame inds log0) /\
  (forall header v,
     count_occ string_dec (header_hits header) ("HTTP_HEADER_" ++ v)%string <= 1) /\
  (forall cookie v,
     count_occ string_dec (cookie_hits cookie) ("HTTP_COOKIE_" ++ v)%string <= 1) /\
  (forall v,
     count_occ string_dec inds ("HTTP_HEADER_" ++ v)%string
       <= length (resp_headers response) /\
     count_occ string_dec inds ("HTTP_COOKIE_" ++ v)%string
       <= length (resp_cookies response) /\
     count_occ string_dec inds ("HTTP_BODY_" ++ v)%string <= 1) /\
  (forall k,
     dict_get (tally inds) k 0
       <= dict_get (tally (header_part ++ cookie_part)) k 0 + 1).
Proof.
  cbv zeta. split; [|split; [|split; [|split]]].
  - rewrite check_http_run. reflexivity.
  - intros header v. apply vendor_hits_once.
  - intros cookie v. apply vendor_hits_once.
  - intros v.
    assert (Hnot : forall (tag : string) (l : list string) (x : string),
              (forall i, In i l -> exists v', i = (tag ++ v')%string) ->
              (forall a, (tag ++ a)%string <> x) ->
              count_occ string_dec l x = 0).
    { intros tag l x Hl Hx. apply count_occ_not_In. intros Hin.
      destruct (Hl x Hin) as [v' Hv']. symmetry in Hv'. exact (Hx _ Hv'). }
    assert (Hh : forall i, In i (flat_map header_hits (resp_headers response)) ->
                 exists v', i = ("HTTP_HEADER_" ++ v')%string).
    { intros i Hi. apply in_flat_map in Hi. destruct Hi as (h & _ & Hi).
      exact (vendor_hits_tagged _ _ _ Hi). }
    assert (Hc : forall i, In i (flat_map cookie_hits (resp_cookies response)) ->
                 exists v', i = ("HTTP_COOKIE_" ++ v')%string).
    { intros i Hi. apply in_flat_map in Hi. destruct Hi as (c & _ & Hi).
      exact (vendor_hits_tagged _ _ _ Hi). }
    assert (Hb : forall i, In i (body_hits (resp_text response)) ->
                 exists v', i = ("HTTP_BODY_" ++ v')%string).
    { intros i. destruct (resp_text response) as [t|e]; [|intros []].
      apply vendor_hits_tagged. }
    rewrite !count_occ_app. split; [|split].
    + rewrite (Hnot "HTTP_COOKIE_" _ _ Hc) by (intros a; simpl; discriminate).
      rewrite (Hnot "HTTP_BODY_" _ _ Hb) by (intros a; simpl; discriminate).
      rewrite !Nat.add_0_r. apply count_occ_flat_map_bound.
      intros h. apply vendor_hits_once.
    + rewrite (Hnot "HTTP_HEADER_" _ _ Hh) by (intros a; simpl; discriminate).
      rewrite (Hnot "HTTP_BODY_" _ _ Hb) by (intros a; simpl; discriminate).
      rewrite Nat.add_0_r. apply count_occ_flat_map_bound.
      intros c. apply vendor_hits_once.
    + rewrite (Hnot "HTTP_HEADER_" _ _ Hh) by (intros a; simpl; discriminate).
      rewrite (Hnot "HTTP_COOKIE_" _ _ Hc) by (intros a; simpl; discriminate).
      apply body_hits_once.
  - intros k. rewrite !tally_counts, app_assoc, occurrences_app.
    pose proof (body_keys_once (resp_text response) k). lia.
Qed.

(** * Further properties of the checker *)

(** ** Substring matching *)

Lemma prefix_iff (p s : string) :
  prefix p s = true <-> exists post, s = (p ++ post)%string.
Proof.
  revert s. induction p as [|c p IH]; intros s.
  - split; [intros _; now exists s|]. intros _. destruct s; reflexivity.
  - destruct s as [|c' s]; simpl.
    + split; [discriminate|]. intros [post H]. discriminate H.
    + destruct (ascii_dec c c') as [->|Hne].
      * rewrite IH. split; intros [post H]; exists post.
        -- now rewrite H.
        -- now inversion H.
      * split; [discriminate|]. intros [post H]. congruence.
Qed.

(** [pattern in s] holds exactly when [s] is some text, the pattern,
    and some more text. *)
Lemma contains_iff (pattern s : string) :
  contains pattern s = true <->
  exists pre post, s = (pre ++ pattern ++ post)%string.
Proof.
  induction s as [|c s IH]; cbn [contains]; rewrite orb_true_iff, prefix_iff.
  - split.
    + intros [[post H]|H]; [|discriminate]. now exists EmptyString, post.
    + intros (pre & post & H). left.
      destruct pre; [now exists post|discriminate].
  - rewrite IH. split.
    + intros [[post H]|(pre & post & H)].
      * now exists EmptyString, post.
      * exists (String c pre), post. simpl. now rewrite H.
    + intros (pre & post & H). destruct pre as [|c' pre].
      * left. now exists post.
      * right. inversion H. now exists pre, post.
Qed.

Lemma existsb_contains (patterns : list string) (text : string) :
  existsb (fun pattern => contains pattern text) patterns = true <->
  matches patterns text.
Proof.
  unfold matches. rewrite existsb_exists. split.
  - intros (p & Hin & Hc). apply contains_iff in Hc.
    destruct Hc as (pre & post & H). now exists p, pre, post.
  - intros (p & pre & post & Hin & H). exists p. split; [exact Hin|].
    apply contains_iff. now exists pre, post.
Qed.

Lemma in_vendor_hits (tag : string) (test : string -> bool) (v : string) :
  In (tag ++ v)%string (vendor_hits tag test) <->
  exists patterns, In (v, patterns) waf_patterns /\ existsb test patterns = true.
Proof.
  unfold vendor_hits. rewrite in_flat_map. split.
  - intros ([n ps] & Hin & H). destruct (existsb test ps) eqn:E; [|destruct H].
    destruct H as [H|[]]. apply append_cancel in H. subst n. now exists ps.
  - intros (ps & Hin & E). exists (v, ps). split; [exact Hin|].
    rewrite E. now left.
Qed.

Lemma not_in_other_tag (tag tag' : string) (test : string -> bool) (v : string) :
  (forall a b, (tag ++ a)%string <> (tag' ++ b)%string) ->
  ~ In (tag' ++ v)%string (vendor_hits tag test).
Proof.
  intros Hne Hin. destruct (vendor_hits_tagged _ _ _ Hin) as [v' H].
  symmetry in H. exact (Hne _ _ H).
Qed.

(** X1: what the HTTP collector reports.  A vendor's header indicator
    is in the returned list exactly when one of the vendor's patterns
    occurs in the lower-cased name or value of some header; its cookie
    indicator exactly when a pattern occurs in a lower-cased cookie
    name; its body indicator exactly when the body decodes and a
    pattern occurs in its lower-cased text. *)
Theorem http_indicators_characterised (response : Response) (log0 : Log) (v : string) :
  exists inds,
    _check_http_indicators response (mkFrame [] log0) = (Return inds, mkFrame inds log0) /\
    (In ("HTTP_HEADER_" ++ v)%string inds <->
     exists patterns name value,
       In (v, patterns) waf_patterns /\ In (name, value) (resp_headers response) /\
       (matches patterns (lower name) \/ matches patterns (lower value))) /\
    (In ("HTTP_COOKIE_" ++ v)%string inds <->
     exists patterns cookie,
       In (v, patterns) waf_patterns /\ In cookie (resp_cookies response) /\
       matches patterns (lower cookie)) /\
    (In ("HTTP_BODY_" ++ v)%string inds <->
     exists patterns text,
       In (v, patterns) waf_patterns /\ resp_text response = Return text /\
       matches patterns (lower text)).
Proof.
  exists (http_indicators_of response). split; [now rewrite check_http_run|].
  unfold http_indicators_of.
  assert (Hh : forall tag, (forall a b, ("HTTP_HEADER_" ++ a)%string <> (tag ++ b)%string) ->
            ~ In (tag ++ v)%string (flat_map header_hits (resp_headers response))).
  { intros tag Hne Hin. apply in_flat_map in Hin. destruct Hin as (h & _ & Hin).
    exact (not_in_other_tag _ _ _ _ Hne Hin). }
  assert (Hc : forall tag, (forall a b, ("HTTP_COOKIE_" ++ a)%string <> (tag ++ b)%string) ->
            ~ In (tag ++ v)%string (flat_map cookie_hits (resp_cookies response))).
  { intros tag Hne Hin. apply in_flat_map in Hin. destruct Hin as (h & _ & Hin).
    exact (not_in_other_tag _ _ _ _ Hne Hin). }
  assert (Hb : forall tag, (forall a b, ("HTTP_BODY_" ++ a)%string <> (tag ++ b)%string) ->
            ~ In (tag ++ v)%string (body_hits (resp_text response))).
  { intros tag Hne Hin. destruct (resp_text response) as [t|e]; [|exact Hin].
    exact (not_in_other_tag _ _ _ _ Hne Hin). }
  rewrite !in_app_iff. split; [|split].
  - split.
    + intros [Hin|[Hin|Hin]].
      * apply in_flat_map in Hin. destruct Hin as ([name value] & Hhd & Hin).
        apply in_vendor_hits in Hin. destruct Hin as (ps & Hps & Hex).
        exists ps, name, value. split; [exact Hps|]. split; [exact Hhd|].
        cbn [fst snd] in Hex. apply existsb_exists in Hex.
        destruct Hex as (p & Hp & Hor). apply orb_true_iff in Hor.
        destruct Hor as [H|H]; apply contains_iff in H;
          destruct H as (pre & post & H); [left|right]; now exists p, pre, post.
      * exfalso. apply (Hc "HTTP_HEADER_"); [intros a b; simpl; discriminate|exact Hin].
      * exfalso. apply (Hb "HTTP_HEADER_"); [intros a b; simpl; discriminate|exact Hin].
    + intros (ps & name & value & Hps & Hhd & Hm). left.
      apply in_flat_map. exists (name, value). split; [exact Hhd|].
      apply in_vendor_hits. exists ps. split; [exact Hps|]. cbn [fst snd].
      apply existsb_exists.
      destruct Hm as [(p & pre & post & Hp & H)|(p & pre & post & Hp & H)];
        exists p; (split; [exact Hp|]); apply orb_true_iff; [left|right];
        apply contains_iff; now exists pre, post.
  - split.
    + intros [Hin|[Hin|Hin]].
      * exfalso. apply (Hh "HTTP_COOKIE_"); [intros a b; simpl; discriminate|exact Hin].
      * apply in_flat_map in Hin. destruct Hin as (cookie & Hck & Hin).
        apply in_vendor_hits in Hin. destruct Hin as (ps & Hps & Hex).
        exists ps, cookie. split; [exact Hps|]. split; [exact Hck|].
        now apply existsb_contains.
      * exfalso. apply (Hb "HTTP_COOKIE_"); [intros a b; simpl; discriminate|exact Hin].
    + intros (ps & cookie & Hps & Hck & Hm). right. left.
      apply in_flat_map. exists cookie. split; [exact Hck|].
      apply in_vendor_hits. exists ps. split; [exact Hps|].
      now apply existsb_contains.
  - split.
    + intros [Hin|[Hin|Hin]].
      * exfalso. apply (Hh "HTTP_BODY_"); [intros a b; simpl; discriminate|exact Hin].
      * exfalso. apply (Hc "HTTP_BODY_"); [intros a b; simpl; discriminate|exact Hin].
      * destruct (resp_text response) as [text|e]; [|destruct Hin].
        apply in_vendor_hits in Hin. destruct Hin as (ps & Hps & Hex).
        exists ps, text. split; [exact Hps|]. split; [reflexivity|].
        now apply existsb_contains.
    + intros (ps & text & Hps & Ht & Hm). right. right. rewrite Ht.
      apply in_vendor_hits. exists ps. split; [exact Hps|].
      now apply existsb_contains.
Qed.

(** ** What the DNS collector reports *)

Lemma dns_collector_never_raises_aux (w : World) (domain : string) (log0 : Log) :
  (forall rd e, dns_resolve w domain rd = Raise e -> is_Exception e = true) ->
  exists s,
    _check_dns_indicators w domain (mkFrame [] log0)
    = (Return (dns_indicators_of w domain), s).
Proof.
  intros Hw. rewrite check_dns_run. cbn [locals log app].
  destruct (dns_failure w domain) as [e|] eqn:Hf; [|eauto].
  rewrite (dns_failure_Exception w domain e Hw Hf). eauto.
Qed.

(** X2: for a resolver that raises exceptions only, the DNS collector
    returns, and an indicator is in the returned list exactly when it
    is the TXT indicator of a vendor one of whose patterns occurs in
    the lower-cased text of an answered TXT record.  CNAME records never
    add an indicator. *)
Theorem dns_indicators_characterised (w : World) (domain : string) (log0 : Log) (i : string) :
  (forall rd e, dns_resolve w domain rd = Raise e -> is_Exception e = true) ->
  exists inds s,
    _check_dns_indicators w domain (mkFrame [] log0) = (Return inds, s) /\
    (In i inds <->
     exists v patterns txt_records record,
       i = ("DNS_TXT_" ++ v)%string /\
       In (v, patterns) waf_patterns /\
       dns_resolve w domain TXT = Return txt_records /\
       In record txt_records /\
       matches patterns (lower record)).
Proof.
  intros Hw.
  destruct (dns_collector_never_raises_aux w domain log0 Hw) as (s & Hrun).
  exists (dns_indicators_of w domain), s. split; [exact Hrun|].
  unfold dns_indicators_of.
  destruct (dns_resolve w domain TXT) as [recs|e].
  - rewrite in_flat_map. split.
    + intros (record & Hrec & Hin).
      destruct (vendor_hits_tagged _ _ _ Hin) as [v Hv]. subst i.
      apply in_vendor_hits in Hin. destruct Hin as (ps & Hps & Hex).
      exists v, ps, recs, record. repeat split; try assumption.
      now apply existsb_contains.
    + intros (v & ps & recs' & record & -> & Hps & Heq & Hrec & Hm).
      inversion Heq; subst recs'. exists record. split; [exact Hrec|].
      apply in_vendor_hits. exists ps. split; [exact Hps|].
      now apply existsb_contains.
  - split; [intros []|].
    intros (v & ps & recs' & record & _ & _ & Heq & _). discriminate Heq.
Qed.

Lemma dns_indicators_characterised_witness :
  exists inds s,
    _check_dns_indicators world_txt_cloudflare_refused "shop.example.com" (mkFrame [] [])
      = (Return inds, s) /\
    (In "DNS_TXT_cloudflare" inds <->
     exists v patterns txt_records record,
       "DNS_TXT_cloudflare" = ("DNS_TXT_" ++ v)%string /\
       In (v, patterns) waf_patterns /\
       dns_resolve world_txt_cloudflare_refused "shop.example.com" TXT = Return txt_records /\
       In record txt_records /\
       matches patterns (lower record)).
Proof.
  apply (dns_indicators_characterised world_txt_cloudflare_refused
           "shop.example.com" [] "DNS_TXT_cloudflare").
  intros rd e H. destruct rd; simpl in H; inversion H. reflexivity.
Defined.

(** ** The paths through [check_waf_protection] *)

Lemma check_after_dns (w : World) (u domain : string) (log0 : Log) :
  urlparse_netloc w u = Return domain ->
  dns_raises_exceptions w domain ->
  check_waf_protection w u log0 =
    match requests_get w u with
    | Raise e =>
        handled u e (detect (dns_indicators_of w domain) (initial_result u))
          (log0 ++ dns_log_of w domain)
    | Return response =>
        (Return (classify (detect (http_indicators_of response)
           (set_status_code (resp_status_code response)
              (set_response_time (time_after w - time_before w)
                 (detect (dns_indicators_of w domain) (initial_result u)))))),
         log0 ++ dns_log_of w domain)
    end.
Proof.
  intros Hp Hw. rewrite check_waf_protection_run, Hp. cbv zeta.
  destruct (dns_failure w domain) as [e|] eqn:Hf; [|reflexivity].
  pose proof (dns_failure_Exception w domain e Hw Hf) as He.
  destruct e; try reflexivity. discriminate He.
Qed.

(** X3: the successful path.  When the URL parses, the resolver raises
    exceptions only and the fetch returns a response, the result holds
    the DNS collector's indicators followed by the HTTP collector's,
    [waf_detected] tells whether there are any, the vendor is the
    resolver's answer on the whole list when there is one and unset
    otherwise, the status code and the elapsed time are recorded, and
    there is no error. *)
Theorem successful_check_result (w : World) (u domain : string) (response : Response)
        (log0 : Log) :
  urlparse_netloc w u = Return domain ->
  dns_raises_exceptions w domain ->
  requests_get w u = Return response ->
  exists dns_inds http_inds s1 s2,
    _check_dns_indicators w domain (mkFrame [] log0) = (Return dns_inds, s1) /\
    _check_http_indicators response (mkFrame [] (log s1)) = (Return http_inds, s2) /\
    check_waf_protection w u log0
    = (Return (mkResult u
                 (truthy (dns_inds ++ http_inds))
                 (if truthy (dns_inds ++ http_inds)
                  then Some (_determine_waf_type (dns_inds ++ http_inds)) else None)
                 (dns_inds ++ http_inds)
                 (Some (resp_status_code response))
                 (Some (time_after w - time_before w)%Z)
                 None),
       log s2).
Proof.
  intros Hp Hw Hg.
  destruct (dns_collector_never_raises w domain log0 Hw)
    as (inds & log1 & Hdns & Hinds & _).
  exists (dns_indicators_of w domain), (http_indicators_of response).
  assert (Hd : inds = dns_indicators_of w domain) by exact Hinds. subst inds.
  do 2 eexists. split; [exact Hdns|]. split.
  - rewrite check_http_run. cbn [locals log app]. reflexivity.
  - rewrite (check_after_dns w u domain log0 Hp Hw), Hg. cbn [log].
    rewrite check_dns_run in Hdns. cbn [locals log app] in Hdns.
    assert (Hlog : log1 = dns_log_of w domain).
    { unfold dns_log_of. destruct (dns_failure w domain) as [e|] eqn:Hf.
      - rewrite (dns_failure_Exception w domain e Hw Hf) in *.
        inversion Hdns as [Hl]. now apply app_inv_head in Hl.
      - inversion Hdns as [Hl]. rewrite <- (app_nil_r log0) in Hl at 1.
        now apply app_inv_head in Hl. }
    rewrite Hlog. f_equal. f_equal.
    unfold detect at 2.
    destruct (truthy (dns_indicators_of w domain)) eqn:Ht.
    + destruct (dns_indicators_of w domain) as [|a l]; [discriminate|].
      unfold classify, detect. cbn.
      destruct (http_indicators_of response); cbn; rewrite ?app_nil_r; reflexivity.
    + destruct (dns_indicators_of w domain) as [|a l]; [|discriminate].
      unfold classify, detect. cbn.
      destruct (http_indicators_of response); cbn; reflexivity.
Qed.

Ltac concrete_dns_exceptions :=
  let rd := fresh "rd" in let e := fresh "e" in let H := fresh "H" in
  intros rd e H; destruct rd; simpl in H; inversion H; reflexivity.

Lemma successful_check_result_witness :
  exists dns_inds http_inds s1 s2,
    _check_dns_indicators world_cloudflare_site "www.example.com" (mkFrame [] [])
      = (Return dns_inds, s1) /\
    _check_http_indicators
      (mkResponse 200 [("CF-RAY", "abcd1234")] ["__cfduid"] (Return "<html>hello</html>"))
      (mkFrame [] (log s1)) = (Return http_inds, s2) /\
    check_waf_protection world_cloudflare_site "https://www.example.com" []
    = (Return (mkResult "https://www.example.com"
                 (truthy (dns_inds ++ http_inds))
                 (if truthy (dns_inds ++ http_inds)
                  then Some (_determine_waf_type (dns_inds ++ http_inds)) else None)
                 (dns_inds ++ http_inds)
                 (Some 200%Z) (Some (250 - 100)%Z) None),
       log s2).
Proof.
  apply (successful_check_result world_cloudflare_site "https://www.example.com"
           "www.example.com"
           (mkResponse 200 [("CF-RAY", "abcd1234")] ["__cfduid"]
              (Return "<html>hello</html>")) []).
  - reflexivity.
  - concrete_dns_exceptions.
  - reflexivity.
Defined.

(** X4: the failed path.  When the URL parses, the resolver raises
    exceptions only and the fetch raises an exception [e], the result
    holds the DNS collector's indicators, [waf_detected] tells whether
    there are any, the vendor, the status code and the time are unset,
    and [error] is [str(e)]; the failure is logged as a warning for a
    request exception and as an error for any other class. *)
Theorem failed_fetch_result (w : World) (u domain : string) (e : exn) (log0 : Log) :
  urlparse_netloc w u = Return domain ->
  dns_raises_exceptions w domain ->
  requests_get w u = Raise e ->
  is_Exception e = true ->
  exists dns_inds s1,
    _check_dns_indicators w domain (mkFrame [] log0) = (Return dns_inds, s1) /\
    check_waf_protection w u log0
    = (Return (mkResult u (truthy dns_inds) None dns_inds None None (Some (str e))),
       log s1 ++
       [ if is_RequestException e
         then (WARNING, ("Erro ao acessar " ++ u ++ ": " ++ str e)%string)
         else (ERROR, ("Erro inesperado ao verificar " ++ u ++ ": " ++ str e)%string) ]).
Proof.
  intros Hp Hw Hg He.
  exists (dns_indicators_of w domain), (mkFrame (dns_indicators_of w domain) (log0 ++ dns_log_of w domain)).
  split.
  - rewrite check_dns_run. cbn [locals log app]. unfold dns_log_of.
    destruct (dns_failure w domain) as [e'|] eqn:Hf.
    + now rewrite (dns_failure_Exception w domain e' Hw Hf).
    + now rewrite app_nil_r.
  - rewrite (check_after_dns w u domain log0 Hp Hw), Hg. cbn [log].
    unfold handled. rewrite He.
    unfold detect. destruct (dns_indicators_of w domain);
      destruct (is_RequestException e); reflexivity.
Qed.

Lemma failed_fetch_result_witness :
  exists dns_inds s1,
    _check_dns_indicators world_txt_cloudflare_refused "shop.example.com" (mkFrame [] [])
      = (Return dns_inds, s1) /\
    check_waf_protection world_txt_cloudflare_refused "https://shop.example.com" []
    = (Return (mkResult "https://shop.example.com" (truthy dns_inds) None dns_inds
                 None None (Some "Connection refused")),
       log s1 ++
       [ (WARNING, "Erro ao acessar https://shop.example.com: Connection refused") ]).
Proof.
  apply (failed_fetch_result world_txt_cloudflare_refused "https://shop.example.com"
           "shop.example.com" (RequestException "Connection refused") []).
  - reflexivity.
  - concrete_dns_exceptions.
  - reflexivity.
  - reflexivity.
Defined.

(** X5: a keyboard interrupt is not swallowed by the orchestrator.
    Raised by [urlparse], by either DNS query that is reached, or by
    [requests.get], it leaves [check_waf_protection] as it is; no result
    is returned for the URL. *)
Theorem interrupt_propagates (w : World) (u : string) (log0 : Log) :
  (urlparse_netloc w u = Raise KeyboardInterrupt ->
   check_waf_protection w u log0 = (Raise KeyboardInterrupt, log0)) /\
  (forall domain,
     urlparse_netloc w u = Return domain ->
     dns_resolve w domain TXT = Raise KeyboardInterrupt ->
     check_waf_protection w u log0 = (Raise KeyboardInterrupt, log0)) /\
  (forall domain,
     urlparse_netloc w u = Return domain ->
     txt_passed w domain ->
     dns_resolve w domain CNAME = Raise KeyboardInterrupt ->
     check_waf_protection w u log0 = (Raise KeyboardInterrupt, log0)) /\
  (forall domain,
     urlparse_netloc w u = Return domain ->
     dns_raises_exceptions w domain ->
     requests_get w u = Raise KeyboardInterrupt ->
     fst (check_waf_protection w u log0) = Raise KeyboardInterrupt).
Proof.
  split; [|split; [|split]].
  - intros Hp. now rewrite check_waf_protection_run, Hp.
  - intros domain Hp Ht. rewrite check_waf_protection_run, Hp. cbv zeta.
    unfold dns_failure. rewrite Ht. reflexivity.
  - intros domain Hp Hpass Hc. rewrite check_waf_protection_run, Hp. cbv zeta.
    rewrite (dns_failure_passed w domain Hpass). unfold cname_failure.
    rewrite Hc. reflexivity.
  - intros domain Hp Hw Hg.
    rewrite (check_after_dns w u domain log0 Hp Hw), Hg. reflexivity.
Qed.

Lemma successful_check_result_aux (w : World) (u domain : string) (response : Response)
      (log0 : Log) :
  urlparse_netloc w u = Return domain ->
  dns_raises_exceptions w domain ->
  requests_get w u = Return response ->
  exists r,
    check_waf_protection w u log0 = (Return r, log0 ++ dns_log_of w domain) /\
    status_code r = Some (resp_status_code response) /\
    error r = None /\
    waf_indicators r = dns_indicators_of w domain ++ http_indicators_of response.
Proof.
  intros Hp Hw Hg. rewrite (check_after_dns w u domain log0 Hp Hw), Hg.
  eexists. split; [reflexivity|].
  unfold classify, detect.
  destruct (dns_indicators_of w domain); destruct (http_indicators_of response);
    cbn; rewrite ?app_nil_r; repeat split; reflexivity.
Qed.

(** X6: a body that cannot be read costs the body evidence only.  When
    reading [response.text] raises, whatever the class, the interrupt
    included, the check still returns: the status code is recorded,
    there is no error, what the HTTP collector returns is in the
    result, and no body indicator is. *)
Theorem unreadable_body_is_skipped (w : World) (u domain : string) (response : Response)
        (e : exn) (log0 : Log) :
  urlparse_netloc w u = Return domain ->
  dns_raises_exceptions w domain ->
  requests_get w u = Return response ->
  resp_text response = Raise e ->
  exists r log1 http_inds s,
    check_waf_protection w u log0 = (Return r, log1) /\
    status_code r = Some (resp_status_code response) /\
    error r = None /\
    _check_http_indicators response (mkFrame [] log1) = (Return http_inds, s) /\
    incl http_inds (waf_indicators r) /\
    forall v, ~ In ("HTTP_BODY_" ++ v)%string (waf_indicators r).
Proof.
  intros Hp Hw Hg Ht.
  destruct (successful_check_result_aux w u domain response log0 Hp Hw Hg)
    as (r & Hrun & Hst & Herr & Hinds).
  exists r, (log0 ++ dns_log_of w domain), (http_indicators_of response).
  eexists. split; [exact Hrun|]. split; [exact Hst|]. split; [exact Herr|].
  split; [rewrite check_http_run; reflexivity|]. split.
  - rewrite Hinds. apply incl_appr, incl_refl.
  - intros v Hin. rewrite Hinds in Hin. apply in_app_iff in Hin.
    destruct Hin as [Hin|Hin].
    + unfold dns_indicators_of in Hin.
      destruct (dns_resolve w domain TXT) as [recs|e']; [|exact Hin].
      apply in_flat_map in Hin. destruct Hin as (rec & _ & Hin).
      revert Hin. apply not_in_other_tag. intros a b. simpl. discriminate.
    + unfold http_indicators_of in Hin. rewrite Ht in Hin.
      cbn [body_hits] in Hin. rewrite app_nil_r in Hin.
      apply in_app_iff in Hin. destruct Hin as [Hin|Hin];
        apply in_flat_map in Hin; destruct Hin as (x & _ & Hin);
        revert Hin; apply not_in_other_tag; intros a b; simpl; discriminate.
Qed.

Lemma unreadable_body_is_skipped_witness :
  exists r log1 http_inds s,
    check_waf_protection world_undecodable_body "https://www.example.com" []
      = (Return r, log1) /\
    status_code r = Some 200%Z /\
    error r = None /\
    _check_http_indicators
      (mkResponse 200 [("CF-RAY", "abcd1234")] [] (Raise KeyboardInterrupt))
      (mkFrame [] log1) = (Return http_inds, s) /\
    incl http_inds (waf_indicators r) /\
    forall v, ~ In ("HTTP_BODY_" ++ v)%string (waf_indicators r).
Proof.
  apply (unreadable_body_is_skipped world_undecodable_body "https://www.example.com"
           "www.example.com"
           (mkResponse 200 [("CF-RAY", "abcd1234")] [] (Raise KeyboardInterrupt))
           KeyboardInterrupt []).
  - reflexivity.
  - concrete_dns_exceptions.
  - reflexivity.
  - reflexivity.
Defined.

(** ** More on the resolver *)

Lemma first_max_rule_keys (l1 l2 : list string) (v : string) :
  keys_of l1 = keys_of l2 -> first_max_rule l1 v -> first_max_rule l2 v.
Proof.
  intros Hk. unfold first_max_rule, occurrences.
  destruct l1 as [|a l1]; destruct l2 as [|b l2]; try discriminate Hk; [trivial|].
  now rewrite Hk.
Qed.

(** X7: the resolver reads nothing of an indicator but the text after
    its last underscore: two lists with the same keys, in the same
    order, get the same answer, whatever the sources of the indicators. *)
Theorem resolver_reads_keys_only (l1 l2 : list string) :
  map waf_name_of l1 = map waf_name_of l2 ->
  _determine_waf_type l1 = _determine_waf_type l2.
Proof.
  intros Hk. apply (first_max_rule_unique l2).
  - apply (first_max_rule_keys l1 l2); [exact Hk|apply resolver_follows_rule].
  - apply resolver_follows_rule.
Qed.

Lemma resolver_reads_keys_only_witness :
  _determine_waf_type ["DNS_TXT_akamai"; "HTTP_HEADER_sucuri"; "HTTP_BODY_sucuri"]
  = _determine_waf_type ["HTTP_COOKIE_akamai"; "DNS_TXT_sucuri"; "DNS_TXT_sucuri"].
Proof.
  apply (resolver_reads_keys_only
           ["DNS_TXT_akamai"; "HTTP_HEADER_sucuri"; "HTTP_BODY_sucuri"]
           ["HTTP_COOKIE_akamai"; "DNS_TXT_sucuri"; "DNS_TXT_sucuri"]).
  reflexivity.
Defined.

(** X8: on a non-empty list the resolver's answer is the key of one of
    the indicators, and no key is carried by more indicators. *)
Theorem resolver_returns_most_frequent_key (indicators : list string) :
  indicators <> [] ->
  (exists i, In i indicators /\ _determine_waf_type indicators = waf_name_of i) /\
  forall k,
    count_occ string_dec (map waf_name_of indicators) k
    <= count_occ string_dec (map waf_name_of indicators) (_determine_waf_type indicators).
Proof.
  intros Hne. destruct (resolver_majority indicators Hne) as [Hin Hmax].
  split; [|exact Hmax].
  unfold keys_of in Hin. apply in_map_iff in Hin. destruct Hin as (i & Hi & Hin).
  now exists i.
Qed.

Lemma resolver_returns_most_frequent_key_witness :
  (exists i, In i ["HTTP_HEADER_fastly"; "HTTP_BODY_citrix"; "HTTP_COOKIE_citrix"] /\
     _determine_waf_type ["HTTP_HEADER_fastly"; "HTTP_BODY_citrix"; "HTTP_COOKIE_citrix"]
     = waf_name_of i) /\
  forall k,
    count_occ string_dec
      (map waf_name_of ["HTTP_HEADER_fastly"; "HTTP_BODY_citrix"; "HTTP_COOKIE_citrix"]) k
    <= count_occ string_dec
      (map waf_name_of ["HTTP_HEADER_fastly"; "HTTP_BODY_citrix"; "HTTP_COOKIE_citrix"])
      (_determine_waf_type ["HTTP_HEADER_fastly"; "HTTP_BODY_citrix"; "HTTP_COOKIE_citrix"]).
Proof.
  apply (resolver_returns_most_frequent_key
           ["HTTP_HEADER_fastly"; "HTTP_BODY_citrix"; "HTTP_COOKIE_citrix"]).
  discriminate.
Defined.

Lemma count_occ_two (l : list string) (a b : string) :
  a <> b -> count_occ string_dec l a + count_occ string_dec l b <= length l.
Proof.
  intros Hne. induction l as [|x l IH]; simpl; [lia|].
  destruct (string_dec x a) as [Ha|Ha]; destruct (string_dec x b) as [Hb|Hb];
    try lia. congruence.
Qed.

(** X9: a strict majority wins.  A key carried by more than half of the
    indicators is the resolver's answer. *)
Theorem resolver_strict_majority (indicators : list string) (k : string) :
  length indicators < 2 * count_occ string_dec (map waf_name_of indicators) k ->
  _determine_waf_type indicators = k.
Proof.
  intros Hmaj.
  assert (Hne : indicators <> []) by (intros ->; simpl in Hmaj; lia).
  destruct (resolver_majority indicators Hne) as [_ Hmax].
  specialize (Hmax k). unfold occurrences, keys_of in Hmax.
  destruct (string_dec (_determine_waf_type indicators) k) as [E|Hd]; [exact E|].
  pose proof (count_occ_two (map waf_name_of indicators) _ _ Hd) as H2.
  rewrite length_map in H2. lia.
Qed.

Lemma resolver_strict_majority_witness :
  _determine_waf_type ["HTTP_BODY_akamai"; "HTTP_HEADER_imperva"; "HTTP_COOKIE_imperva"]
  = "imperva".
Proof.
  apply (resolver_strict_majority
           ["HTTP_BODY_akamai"; "HTTP_HEADER_imperva"; "HTTP_COOKIE_imperva"] "imperva").
  vm_compute. lia.
Defined.

Lemma split_pieces_no_sep (sep : ascii) (s : string) :
  Forall (fun piece => no_char sep piece = true) (split sep s).
Proof.
  induction s as [|c s IH]; cbn [split].
  - constructor; [reflexivity|constructor].
  - destruct (Ascii.eqb c sep) eqn:E.
    + constructor; [reflexivity|exact IH].
    + destruct (split sep s) as [|piece pieces].
      * constructor; [|constructor]. simpl. now rewrite E.
      * inversion IH; subst. constructor; [|assumption].
        simpl. rewrite E. assumption.
Qed.

Lemma waf_name_of_no_underscore (indicator : string) :
  no_char "_" (waf_name_of indicator) = true.
Proof.
  unfold waf_name_of, last_item.
  pose proof (split_pieces_no_sep "_" indicator) as H.
  pose proof (split_nonempty "_" indicator) as Hne.
  induction (split "_" indicator) as [|p l IH]; [congruence|].
  inversion H; subst. destruct l as [|q l]; [assumption|].
  apply IH; [assumption|discriminate].
Qed.

(** X10: the resolver never returns a name with an underscore in it;
    in particular it returns neither [aws_waf] nor [f5_bigip], the
    registry's two names of that kind. *)
Theorem resolver_answer_has_no_underscore (indicators : list string) :
  no_char "_" (_determine_waf_type indicators) = true /\
  _determine_waf_type indicators <> "aws_waf" /\
  _determine_waf_type indicators <> "f5_bigip".
Proof.
  assert (H : no_char "_" (_determine_waf_type indicators) = true).
  { destruct indicators as [|i l]; [reflexivity|].
    destruct (resolver_majority (i :: l)) as [Hin _]; [discriminate|].
    unfold keys_of in Hin. apply in_map_iff in Hin.
    destruct Hin as (x & Hx & _). rewrite <- Hx. apply waf_name_of_no_underscore. }
  split; [exact H|]. split; intros E; rewrite E in H; discriminate H.
Qed.

(** ** Vendors the checker cannot tell apart *)

Lemma aws_waf_patterns (patterns : list string) :
  In ("aws_waf", patterns) waf_patterns ->
  patterns = ["x-amz-cf-id"; "x-amz-cf-pop"; "x-amz-cf-id"].
Proof.
  simpl. intros H.
  repeat (destruct H as [H|H]; [inversion H; try reflexivity|]). destruct H.
Qed.

Lemma cloudfront_patterns (patterns : list string) :
  In ("cloudfront", patterns) waf_patterns ->
  patterns = ["x-amz-cf-id"; "x-amz-cf-pop"].
Proof.
  simpl. intros H.
  repeat (destruct H as [H|H]; [inversion H; try reflexivity|]). destruct H.
Qed.

(** On one probed item, the two vendors are reported together. *)
Lemma vendor_hits_twins (tag : string) (test : string -> bool) :
  In (tag ++ "aws_waf")%string (vendor_hits tag test) <->
  In (tag ++ "cloudfront")%string (vendor_hits tag test).
Proof.
  rewrite !in_vendor_hits. split; intros (ps & Hps & Hex).
  - apply aws_waf_patterns in Hps. subst ps.
    exists ["x-amz-cf-id"; "x-amz-cf-pop"]. split; [simpl; tauto|].
    simpl in *. destruct (test "x-amz-cf-id"); destruct (test "x-amz-cf-pop");
      simpl in *; congruence.
  - apply cloudfront_patterns in Hps. subst ps.
    exists ["x-amz-cf-id"; "x-amz-cf-pop"; "x-amz-cf-id"]. split; [simpl; tauto|].
    simpl in *. destruct (test "x-amz-cf-id"); destruct (test "x-amz-cf-pop");
      simpl in *; congruence.
Qed.

Lemma in_flat_map_hits {A} (hits : A -> list string) (items : list A) (i : string) :
  In i (flat_map hits items) <-> exists x, In x items /\ In i (hits x).
Proof. apply in_flat_map. Qed.

Lemma in_http_indicators (response : Response) (i : string) :
  In i (http_indicators_of response) <->
  (exists h, In h (resp_headers response) /\ In i (header_hits h)) \/
  (exists c, In c (resp_cookies response) /\ In i (cookie_hits c)) \/
  In i (body_hits (resp_text response)).
Proof.
  unfold http_indicators_of. rewrite !in_app_iff, !in_flat_map. reflexivity.
Qed.

Lemma other_tag_absent (tag tag' : string) (test : string -> bool) (v : string) :
  (forall a b, (tag ++ a)%string <> (tag' ++ b)%string) ->
  In (tag' ++ v)%string (vendor_hits tag test) -> False.
Proof. intros Hne. apply not_in_other_tag. exact Hne. Qed.

Ltac wrong_tag Hin tag tag' :=
  exfalso;
  first [ refine (other_tag_absent tag tag' _ "aws_waf" _ Hin)
        | refine (other_tag_absent tag tag' _ "cloudfront" _ Hin) ];
  intros ? ?; simpl; discriminate.

(** X11: [aws_waf] and [cloudfront] have the same patterns, so the
    collectors report them together: for each kind of evidence (header,
    cookie, body, TXT record) the list returned holds the indicator of
    one exactly when it holds the indicator of the other. *)
Theorem aws_waf_and_cloudfront_together (response : Response) (w : World)
        (domain : string) (log0 : Log) :
  (exists inds,
     _check_http_indicators response (mkFrame [] log0) = (Return inds, mkFrame inds log0) /\
     (In "HTTP_HEADER_aws_waf" inds <-> In "HTTP_HEADER_cloudfront" inds) /\
     (In "HTTP_COOKIE_aws_waf" inds <-> In "HTTP_COOKIE_cloudfront" inds) /\
     (In "HTTP_BODY_aws_waf" inds <-> In "HTTP_BODY_cloudfront" inds)) /\
  (forall inds s,
     _check_dns_indicators w domain (mkFrame [] log0) = (Return inds, s) ->
     (In "DNS_TXT_aws_waf" inds <-> In "DNS_TXT_cloudfront" inds)).
Proof.
  split.
  - exists (http_indicators_of response). split; [now rewrite check_http_run|].
    rewrite !in_http_indicators. unfold header_hits, cookie_hits, body_hits.
    split; [|split].
    + split; (intros [(h & Hh & Hin)|[(c & Hc & Hin)|Hin]];
        [ left; exists h; split; [exact Hh|];
          apply (vendor_hits_twins "HTTP_HEADER_"); exact Hin
        | wrong_tag Hin "HTTP_COOKIE_" "HTTP_HEADER_"
        | destruct (resp_text response); [|destruct Hin];
          wrong_tag Hin "HTTP_BODY_" "HTTP_HEADER_" ]).
    + split; (intros [(h & Hh & Hin)|[(c & Hc & Hin)|Hin]];
        [ wrong_tag Hin "HTTP_HEADER_" "HTTP_COOKIE_"
        | right; left; exists c; split; [exact Hc|];
          apply (vendor_hits_twins "HTTP_COOKIE_"); exact Hin
        | destruct (resp_text response); [|destruct Hin];
          wrong_tag Hin "HTTP_BODY_" "HTTP_COOKIE_" ]).
    + split; (intros [(h & Hh & Hin)|[(c & Hc & Hin)|Hin]];
        [ wrong_tag Hin "HTTP_HEADER_" "HTTP_BODY_"
        | wrong_tag Hin "HTTP_COOKIE_" "HTTP_BODY_"
        | right; right; destruct (resp_text response); [|exact Hin];
          apply (vendor_hits_twins "HTTP_BODY_"); exact Hin ]).
  - intros inds s. rewrite check_dns_run. cbn [locals log app].
    assert (H : In "DNS_TXT_aws_waf" (dns_indicators_of w domain) <->
                In "DNS_TXT_cloudfront" (dns_indicators_of w domain)).
    { unfold dns_indicators_of.
      destruct (dns_resolve w domain TXT) as [recs|e]; [|reflexivity].
      rewrite !in_flat_map. unfold txt_hits.
      split; intros (rec & Hrec & Hin); exists rec; (split; [exact Hrec|]);
        apply (vendor_hits_twins "DNS_TXT_"); exact Hin. }
    destruct (dns_failure w domain) as [e|]; [destruct (is_Exception e)|];
      intros Heq; inversion Heq; subst; exact H.
Qed.

(** ** The vendors a check can report *)

Lemma waf_seen_first_spec (keys : list string) :
  forall seen, waf_seen_first seen keys = true ->
  forall pre post, keys = pre ++ "cloudfront" :: post -> seen = true \/ In "waf" pre.
Proof.
  induction keys as [|k keys IH]; intros seen H pre post Heq.
  - destruct pre; discriminate Heq.
  - cbn [waf_seen_first] in H. destruct pre as [|p pre]; simpl in Heq.
    + inversion Heq; subst. rewrite String.eqb_refl in H.
      apply andb_prop in H. now left.
    + inversion Heq; subst. destruct (String.eqb p "cloudfront") eqn:E.
      * apply andb_prop in H. destruct H as [Hs H].
        destruct (IH seen H pre post eq_refl) as [H'|H']; [now left|right; now right].
      * destruct (IH _ H pre post eq_refl) as [H'|H'].
        -- apply orb_true_iff in H'. destruct H' as [H'|H']; [now left|].
           apply String.eqb_eq in H'. right. left. exact H'.
        -- right. now right.
Qed.

Lemma waf_leadsb_sound (keys : list string) :
  waf_leadsb keys = true -> waf_leads keys.
Proof.
  unfold waf_leadsb, waf_leads. intros H. apply andb_prop in H.
  destruct H as [Hc Hs]. apply Nat.eqb_eq in Hc. split; [exact Hc|].
  intros pre post Heq.
  destruct (waf_seen_first_spec keys false Hs pre post Heq) as [H|H];
    [discriminate|exact H].
Qed.

Lemma app_split_at (a b pre post : list string) (x : string) :
  a ++ b = pre ++ x :: post ->
  (exists post', a = pre ++ x :: post') \/
  (exists pre', pre = a ++ pre' /\ b = pre' ++ x :: post).
Proof.
  revert pre. induction a as [|y a IH]; intros pre H.
  - right. now exists pre.
  - destruct pre as [|p pre]; simpl in H; inversion H; subst.
    + left. now exists a.
    + destruct (IH pre H2) as [[post' E]|(pre' & E1 & E2)].
      * left. exists post'. simpl. now rewrite E.
      * right. exists pre'. split; [simpl; now rewrite E1|exact E2].
Qed.

Lemma waf_leads_app (a b : list string) :
  waf_leads a -> waf_leads b -> waf_leads (a ++ b).
Proof.
  intros [Hca Ha] [Hcb Hb]. split.
  - rewrite !count_occ_app. lia.
  - intros pre post Heq.
    destruct (app_split_at a b pre post _ Heq) as [[post' E]|(pre' & E1 & E2)].
    + exact (Ha pre post' E).
    + rewrite E1. apply in_app_iff. right. exact (Hb pre' post E2).
Qed.

Lemma waf_leads_nil : waf_leads [].
Proof. split; [reflexivity|]. intros pre post H. destruct pre; discriminate H. Qed.

Lemma waf_leads_flat_map {A} (f : A -> list string) (items : list A) :
  (forall x, waf_leads (keys_of (f x))) ->
  waf_leads (keys_of (flat_map f items)).
Proof.
  intros Hf. induction items as [|x items IH]; simpl; [exact waf_leads_nil|].
  unfold keys_of in *. rewrite map_app. now apply waf_leads_app.
Qed.

Lemma existsb_aba (test : string -> bool) (a b : string) :
  existsb test [a; b; a] = existsb test [a; b].
Proof. simpl. destruct (test a); destruct (test b); reflexivity. Qed.

(** The keys of what one probed item yields, for the four tags the
    collectors use. *)
Lemma vendor_hits_waf_leads (tag : string) (test : string -> bool) :
  In tag ["DNS_TXT_"; "HTTP_HEADER_"; "HTTP_COOKIE_"; "HTTP_BODY_"] ->
  waf_leads (keys_of (vendor_hits tag test)) /\
  incl (keys_of (vendor_hits tag test)) ("cloudfront" :: reported_names).
Proof.
  intros Htag.
  assert (H : waf_leadsb (keys_of (vendor_hits tag test)) = true /\
              forallb (fun k => existsb (String.eqb k) ("cloudfront" :: reported_names))
                      (keys_of (vendor_hits tag test)) = true).
  { unfold vendor_hits, waf_patterns. cbn [flat_map]. rewrite existsb_aba.
    generalize (existsb test ["cloudflare"; "__cfduid"; "cf-ray"]).
    generalize (existsb test ["x-amz-cf-id"; "x-amz-cf-pop"]).
    generalize (existsb test ["akamai"; "x-akamai-transformed"]).
    generalize (existsb test ["fastly"; "x-fastly"]).
    generalize (existsb test ["incap_ses"; "visid_incap"; "x-iinfo"]).
    generalize (existsb test ["bigip"; "x-wa-info"]).
    generalize (existsb test ["barra_counter_session"; "barra_counter_session"]).
    generalize (existsb test ["citrix"; "ns_af"]).
    generalize (existsb test ["sucuri"; "x-sucuri"]).
    intros b9 b8 b7 b6 b5 b4 b3 b2 b1.
    simpl in Htag.
    destruct Htag as [<-|[<-|[<-|[<-|[]]]]];
      destruct b1, b2, b3, b4, b5, b6, b7, b8, b9; vm_compute; split; reflexivity. }
  destruct H as [H1 H2]. split; [now apply waf_leadsb_sound|].
  intros k Hk. rewrite forallb_forall in H2. specialize (H2 k Hk).
  apply existsb_exists in H2. destruct H2 as (x & Hx & E).
  apply String.eqb_eq in E. now subst.
Qed.

Lemma result_with_vendor (w : World) (u : string) (log0 log1 : Log) (r : CheckResult)
      (v : string) :
  check_waf_protection w u log0 = (Return r, log1) ->
  waf_type r = Some v ->
  exists domain response,
    urlparse_netloc w u = Return domain /\
    requests_get w u = Return response /\
    waf_indicators r = dns_indicators_of w domain ++ http_indicators_of response.
Proof.
  rewrite check_waf_protection_run. intros Hrun Hv.
  destruct (urlparse_netloc w u) as [domain|e].
  - cbv zeta in Hrun.
    assert (Hrest :
      match requests_get w u with
      | Return response =>
          (Return (classify (detect (http_indicators_of response)
             (set_status_code (resp_status_code response)
                (set_response_time (time_after w - time_before w)
                   (detect (dns_indicators_of w domain) (initial_result u)))))),
           log0 ++ dns_log_of w domain)
      | Raise e =>
          handled u e (detect (dns_indicators_of w domain) (initial_result u))
            (log0 ++ dns_log_of w domain)
      end = (Return r, log1) ->
      exists domain' response,
        Return domain = Return domain' /\ requests_get w u = Return response /\
        waf_indicators r = dns_indicators_of w domain' ++ http_indicators_of response).
    { destruct (requests_get w u) as [response|e].
      - intros H. inversion H; subst. exists domain, response.
        split; [reflexivity|]. split; [reflexivity|].
        unfold classify, detect.
        destruct (dns_indicators_of w domain); destruct (http_indicators_of response);
          cbn; rewrite ?app_nil_r; reflexivity.
      - intros H. exfalso.
        assert (Hn : waf_type r = None).
        { eapply handled_type; [|exact H]. apply detect_waf_type. }
        congruence. }
    destruct (dns_failure w domain) as [e|]; [|exact (Hrest Hrun)].
    destruct e; try exact (Hrest Hrun). discriminate Hrun.
  - exfalso.
    assert (Hn : waf_type r = None) by (eapply handled_type; [|exact Hrun]; reflexivity).
    congruence.
Qed.

Lemma keys_of_app (a b : list string) : keys_of (a ++ b) = keys_of a ++ keys_of b.
Proof. unfold keys_of. apply map_app. Qed.

Lemma incl_keys_flat_map {A} (f : A -> list string) (items : list A) (names : list string) :
  (forall x, incl (keys_of (f x)) names) -> incl (keys_of (flat_map f items)) names.
Proof.
  intros Hf. induction items as [|x items IH]; simpl; [intros k []|].
  rewrite keys_of_app. apply incl_app; [apply Hf|exact IH].
Qed.

(** The keys of everything a check gathers. *)
Lemma evidence_keys (w : World) (domain : string) (response : Response) :
  let keys := keys_of (dns_indicators_of w domain ++ http_indicators_of response) in
  waf_leads keys /\ incl keys ("cloudfront" :: reported_names).
Proof.
  cbv zeta.
  assert (Ht : forall tag test,
            In tag ["DNS_TXT_"; "HTTP_HEADER_"; "HTTP_COOKIE_"; "HTTP_BODY_"] ->
            waf_leads (keys_of (vendor_hits tag test)))
    by (intros tag test H; apply (vendor_hits_waf_leads tag test H)).
  assert (Hi : forall tag test,
            In tag ["DNS_TXT_"; "HTTP_HEADER_"; "HTTP_COOKIE_"; "HTTP_BODY_"] ->
            incl (keys_of (vendor_hits tag test)) ("cloudfront" :: reported_names))
    by (intros tag test H; apply (vendor_hits_waf_leads tag test H)).
  unfold http_indicators_of. rewrite !keys_of_app. split.
  - repeat apply waf_leads_app.
    + unfold dns_indicators_of.
      destruct (dns_resolve w domain TXT); [|exact waf_leads_nil].
      apply waf_leads_flat_map. intros x. apply Ht. simpl; tauto.
    + apply waf_leads_flat_map. intros x. apply Ht. simpl; tauto.
    + apply waf_leads_flat_map. intros x. apply Ht. simpl; tauto.
    + unfold body_hits. destruct (resp_text response); [|exact waf_leads_nil].
      apply Ht. simpl; tauto.
  - repeat apply incl_app.
    + unfold dns_indicators_of.
      destruct (dns_resolve w domain TXT); [|intros k []].
      apply incl_keys_flat_map. intros x. apply Hi. simpl; tauto.
    + apply incl_keys_flat_map. intros x. apply Hi. simpl; tauto.
    + apply incl_keys_flat_map. intros x. apply Hi. simpl; tauto.
    + unfold body_hits. destruct (resp_text response); [|intros k []].
      apply Hi. simpl; tauto.
Qed.

(** X12: the vendor a check reports is one of nine names.  Besides
    [aws_waf] and [f5_bigip], which come back as [waf] and [bigip], the
    name [cloudfront] is never reported: its indicators always come with
    those of [aws_waf], which is tallied first, so [waf] wins the tie.
    Nor is "unknown" ever reported. *)
Theorem reported_vendor_is_one_of_nine (w : World) (u : string) (log0 log1 : Log)
        (r : CheckResult) (v : string) :
  check_waf_protection w u log0 = (Return r, log1) ->
  waf_type r = Some v ->
  In v reported_names.
Proof.
  intros Hrun Hv.
  destruct (result_with_vendor w u log0 log1 r v Hrun Hv)
    as (domain & response & _ & _ & Hinds).
  destruct (check_result_type w u log0 log1 r Hrun v Hv) as [Hne Hres].
  pose proof (evidence_keys w domain response) as [Hlead Hincl].
  rewrite <- Hinds in Hlead, Hincl.
  pose proof (resolver_follows_rule (waf_indicators r)) as Hrule.
  rewrite <- Hres in Hrule.
  destruct (waf_indicators r) as [|i l] eqn:E; [congruence|].
  destruct Hrule as [(pre & post & Hk & _ & Hlt) Hmax].
  assert (Hin : In v (keys_of (i :: l)))
    by (rewrite Hk; apply in_app_iff; right; now left).
  destruct (Hincl v Hin) as [Hcf|Hok]; [|exact Hok].
  exfalso. destruct Hlead as [Hcount Hfirst].
  rewrite <- Hcf in Hk, Hlt.
  specialize (Hlt "waf" (Hfirst pre post Hk)).
  unfold occurrences in Hlt. lia.
Qed.

Lemma reported_vendor_is_one_of_nine_witness :
  In "cloudflare" reported_names.
Proof.
  apply (reported_vendor_is_one_of_nine world_cloudflare_site "https://www.example.com"
           [] []
           (mkResult "https://www.example.com" true (Some "cloudflare")
              ["HTTP_HEADER_cloudflare"; "HTTP_COOKIE_cloudflare"]
              (Some 200%Z) (Some 150%Z) None)
           "cloudflare").
  - vm_compute. reflexivity.
  - reflexivity.
Defined.

(** * The URL sources: [load_urls_from_file] and [get_route53_records] *)

(** ** Properties of the string helpers *)

Lemma with_scheme_has_scheme (s : string) :
  startswith_any ["http://"; "https://"] (with_scheme s) = true.
Proof.
  unfold with_scheme.
  destruct (startswith_any ["http://"; "https://"] s) eqn:E; simpl; [exact E|].
  unfold startswith_any. simpl. destruct s; reflexivity.
Qed.

Lemma with_scheme_idempotent (s : string) :
  with_scheme (with_scheme s) = with_scheme s.
Proof.
  unfold with_scheme at 1. now rewrite with_scheme_has_scheme.
Qed.

Lemma rstrip_by_idempotent (p : ascii -> bool) (s : string) :
  rstrip_by p (rstrip_by p s) = rstrip_by p s.
Proof.
  induction s as [|c s IH]; [reflexivity|]. cbn [rstrip_by].
  destruct (rstrip_by p s) as [|c' r] eqn:E.
  - destruct (p c) eqn:Hc; [reflexivity|]. cbn [rstrip_by]. now rewrite Hc.
  - cbn [rstrip_by]. cbn [rstrip_by] in IH.
    destruct (rstrip_by p r) as [|c'' r'] eqn:E'.
    + destruct (p c') eqn:Hc'; [discriminate IH|]. now rewrite IH.
    + now rewrite IH.
Qed.

(** Stripping on the right leaves a text alone when what follows a
    prefix is itself left alone and not empty. *)
Lemma rstrip_by_prefixed (p : ascii -> bool) (pre s : string) :
  s <> EmptyString -> rstrip_by p s = s ->
  rstrip_by p (pre ++ s) = (pre ++ s)%string.
Proof.
  intros Hne Hfix. induction pre as [|c pre IH]; [exact Hfix|].
  cbn [String.append rstrip_by]. rewrite IH.
  destruct (pre ++ s)%string eqn:E; [|reflexivity].
  destruct pre; simpl in E; [contradiction|discriminate E].
Qed.

Lemma rstrip_by_head (p : ascii -> bool) (c : ascii) (s : string) :
  p c = false ->
  exists r, rstrip_by p (String c s) = String c r.
Proof.
  intros Hc. cbn [rstrip_by]. destruct (rstrip_by p s) as [|c' r].
  - rewrite Hc. now exists EmptyString.
  - now exists (String c' r).
Qed.

Lemma lstrip_by_head (p : ascii -> bool) (s : string) :
  lstrip_by p s = EmptyString \/
  exists c r, lstrip_by p s = String c r /\ p c = false.
Proof.
  induction s as [|c s IH]; [now left|]. cbn [lstrip_by].
  destruct (p c) eqn:Hc; [exact IH|]. right. now exists c, s.
Qed.

(** What [strip] returns is empty, or begins and ends with characters
    that are not white space: stripping it again changes nothing. *)
Lemma strip_idempotent (s : string) : strip (strip s) = strip s.
Proof.
  unfold strip at 2 3.
  destruct (lstrip_by_head is_space s) as [E|(c & r & E & Hc)]; rewrite E.
  - reflexivity.
  - destruct (rstrip_by_head is_space c r Hc) as [r' Hr]. rewrite Hr.
    unfold strip. cbn [lstrip_by]. rewrite Hc.
    rewrite <- Hr. apply rstrip_by_idempotent.
Qed.

Lemma strip_head (s : string) :
  strip s = EmptyString \/
  exists c r, strip s = String c r /\ is_space c = false.
Proof.
  unfold strip.
  destruct (lstrip_by_head is_space s) as [E|(c & r & E & Hc)]; rewrite E.
  - now left.
  - destruct (rstrip_by_head is_space c r Hc) as [r' Hr]. rewrite Hr.
    right. now exists c, r'.
Qed.

Lemma strip_fixed_rstrip (s : string) :
  strip s = s -> rstrip_by is_space s = s.
Proof.
  intros H. rewrite <- H at 1. unfold strip.
  rewrite rstrip_by_idempotent. exact H.
Qed.

(** A stripped, non-empty line is still stripped once the scheme is
    put before it. *)
Lemma strip_with_scheme (s : string) :
  strip s = s -> s <> EmptyString -> strip (with_scheme s) = with_scheme s.
Proof.
  intros Hfix Hne. unfold with_scheme.
  destruct (startswith_any ["http://"; "https://"] s); cbn [negb]; [exact Hfix|].
  unfold strip. cbn [String.append lstrip_by is_space].
  change (lstrip_by is_space (String "h" ("ttps://" ++ s)))
    with (String "h" ("ttps://" ++ s))%string.
  apply (rstrip_by_prefixed is_space "https://" s Hne).
  now apply strip_fixed_rstrip.
Qed.

Lemma rstrip_dots_with_scheme (s : string) :
  rstrip_dots (with_scheme (rstrip_dots s)) = with_scheme (rstrip_dots s).
Proof.
  unfold rstrip_dots, with_scheme.
  destruct (startswith_any ["http://"; "https://"] (rstrip_by (Ascii.eqb ".") s));
    cbn [negb]; [apply rstrip_by_idempotent|].
  destruct (rstrip_by (Ascii.eqb ".") s) as [|c r] eqn:E; [reflexivity|].
  apply rstrip_by_prefixed; [discriminate|].
  rewrite <- E. apply rstrip_by_idempotent.
Qed.

(** ** [load_urls_from_file]: what is kept, the limit, failures *)

Lemma cap_reached_effective (n : Z) (count : nat) :
  (n <> 0)%Z -> 1 <= count ->
  cap_reached (Some n) count = (effective_cap n <=? count)%nat.
Proof.
  intros Hn Hc. unfold cap_reached, effective_cap.
  destruct (n =? 0)%Z eqn:E; [apply Z.eqb_eq in E; contradiction|].
  cbn [negb andb].
  destruct (n <=? Z.of_nat count)%Z eqn:E1;
    destruct (Z.to_nat (Z.max n 1) <=? count)%nat eqn:E2; try reflexivity.
  - apply Z.leb_le in E1. apply Nat.leb_gt in E2. lia.
  - apply Z.leb_gt in E1. apply Nat.leb_le in E2. lia.
Qed.

Lemma read_lines_unlimited (cap : option Z) (lines urls : list string) :
  (forall count, cap_reached cap count = false) ->
  read_lines cap lines urls = (false, urls ++ urls_of_lines lines).
Proof.
  intros Hcap. revert urls. unfold urls_of_lines.
  induction lines as [|line lines IH]; intros urls; cbn [read_lines filter map].
  - now rewrite app_nil_r.
  - fold (kept line). destruct (kept line); cbn [map].
    + rewrite Hcap, IH, <- app_assoc. reflexivity.
    + apply IH.
Qed.

Lemma read_lines_capped (cap : option Z) (c : nat) (lines urls : list string) :
  (forall count, 1 <= count -> cap_reached cap count = (c <=? count)%nat) ->
  List.length urls < c ->
  read_lines cap lines urls =
    if (c <=? List.length (urls ++ urls_of_lines lines))%nat
    then (true, firstn c (urls ++ urls_of_lines lines))
    else (false, urls ++ urls_of_lines lines).
Proof.
  intros Hcap. revert urls. unfold urls_of_lines.
  induction lines as [|line lines IH]; intros urls Hlen; cbn [read_lines filter map].
  - rewrite app_nil_r. destruct (c <=? List.length urls)%nat eqn:E; [|reflexivity].
    apply Nat.leb_le in E. lia.
  - fold (kept line). destruct (kept line); cbn [map]; [|now apply IH].
    rewrite Hcap by (rewrite length_app; simpl; lia).
    replace (urls ++ with_scheme (strip line)
               :: map (fun l => with_scheme (strip l)) (filter kept lines))
      with ((urls ++ [with_scheme (strip line)])
              ++ map (fun l => with_scheme (strip l)) (filter kept lines))
      by (rewrite <- app_assoc; reflexivity).
    destruct (c <=? List.length (urls ++ [with_scheme (strip line)]))%nat eqn:E.
    + apply Nat.leb_le in E. rewrite length_app in E. simpl in E.
      assert (Hc : c = List.length (urls ++ [with_scheme (strip line)]))
        by (rewrite length_app; simpl; lia).
      rewrite length_app.
      replace (c <=? List.length (urls ++ [with_scheme (strip line)])
                     + List.length (map (fun l => with_scheme (strip l)) (filter kept lines)))%nat
        with true by (symmetry; apply Nat.leb_le; lia).
      rewrite Hc at 1. rewrite firstn_app, firstn_all, Nat.sub_diag. cbn [firstn].
      now rewrite app_nil_r.
    + apply IH. apply Nat.leb_gt in E. exact E.
Qed.

(** X13: the limit of [load_urls_from_file] only cuts the list short.
    For a file read to its end, the URLs loaded under a limit [n] are
    the first [n] of those loaded without a limit; a limit of zero is
    no limit, and a negative limit acts as a limit of one. *)
Theorem load_limit_takes_a_prefix (src : Sources) (file_path : string)
        (lines : list string) (log0 : Log) :
  open_read src file_path = Returns (lines, None) ->
  exists all,
    fst (load_urls_from_file src file_path None log0) = Returns all /\
    forall n,
      fst (load_urls_from_file src file_path (Some n) log0)
      = Returns (if (n =? 0)%Z then all else firstn (effective_cap n) all).
Proof.
  intros Hopen. exists (urls_of_lines lines). unfold load_urls_from_file.
  rewrite Hopen. split.
  - rewrite read_lines_unlimited by reflexivity. reflexivity.
  - intros n. destruct (n =? 0)%Z eqn:E.
    + apply Z.eqb_eq in E. subst n.
      rewrite read_lines_unlimited by reflexivity. reflexivity.
    + apply Z.eqb_neq in E.
      rewrite (read_lines_capped (Some n) (effective_cap n))
        by (try (intros count Hc; apply cap_reached_effective; assumption);
            unfold effective_cap; simpl; lia).
      cbn [app].
      destruct (effective_cap n <=? List.length (urls_of_lines lines))%nat eqn:El.
      * reflexivity.
      * cbn [fst]. apply Nat.leb_gt in El.
        rewrite firstn_all2 by lia. reflexivity.
Qed.

Lemma load_limit_takes_a_prefix_witness :
  exists all,
    fst (load_urls_from_file
           (mkSources (fun _ => Returns (["a.example"; "# note"; "b.example"; "c.example"], None))
              (Returns tt) (Returns []) (fun _ => ([], None)))
           "urls.txt" None []) = Returns all /\
    forall n,
      fst (load_urls_from_file
             (mkSources (fun _ => Returns (["a.example"; "# note"; "b.example"; "c.example"], None))
                (Returns tt) (Returns []) (fun _ => ([], None)))
             "urls.txt" (Some n) [])
      = Returns (if (n =? 0)%Z then all else firstn (effective_cap n) all).
Proof.
  apply (load_limit_takes_a_prefix
           (mkSources (fun _ => Returns (["a.example"; "# note"; "b.example"; "c.example"], None))
              (Returns tt) (Returns []) (fun _ => ([], None)))
           "urls.txt" ["a.example"; "# note"; "b.example"; "c.example"] []).
  reflexivity.
Defined.

(** X14: a file that fails while it is read.  Without a limit the
    failure is raised and no URL is returned.  Under a limit [n] of at
    least one, the URLs are returned when the lines read before the
    failure give [n] of them, since the loop is left before the failure
    is met; otherwise the failure is raised. *)
Theorem load_failure_after_the_limit (src : Sources) (file_path : string)
        (lines : list string) (e : py_exn) (log0 : Log) :
  open_read src file_path = Returns (lines, Some e) ->
  fst (load_urls_from_file src file_path None log0) = Raises e /\
  forall n, (1 <= n)%Z ->
    fst (load_urls_from_file src file_path (Some n) log0)
    = if (Z.to_nat n <=? List.length (urls_of_lines lines))%nat
      then Returns (firstn (Z.to_nat n) (urls_of_lines lines))
      else Raises e.
Proof.
  intros Hopen. unfold load_urls_from_file. rewrite Hopen. split.
  - rewrite read_lines_unlimited by reflexivity.
    unfold load_failed. destruct (is_FileNotFoundError e); [reflexivity|].
    destruct (py_is_Exception e); reflexivity.
  - intros n Hn.
    assert (Hc : effective_cap n = Z.to_nat n) by (unfold effective_cap; lia).
    rewrite (read_lines_capped (Some n) (Z.to_nat n)).
    + cbn [app].
      destruct (Z.to_nat n <=? List.length (urls_of_lines lines))%nat; [reflexivity|].
      unfold load_failed. destruct (is_FileNotFoundError e); [reflexivity|].
      destruct (py_is_Exception e); reflexivity.
    + intros count Hcount. rewrite <- Hc. apply cap_reached_effective; lia.
    + simpl. lia.
Qed.

Lemma load_failure_after_the_limit_witness :
  fst (load_urls_from_file
         (mkSources (fun _ => Returns (["a.example"; "b.example"],
                                       Some (Checker (OtherException "Input/output error"))))
            (Returns tt) (Returns []) (fun _ => ([], None)))
         "urls.txt" None []) = Raises (Checker (OtherException "Input/output error")) /\
  forall n, (1 <= n)%Z ->
    fst (load_urls_from_file
           (mkSources (fun _ => Returns (["a.example"; "b.example"],
                                         Some (Checker (OtherException "Input/output error"))))
              (Returns tt) (Returns []) (fun _ => ([], None)))
           "urls.txt" (Some n) [])
    = if (Z.to_nat n <=? List.length (urls_of_lines ["a.example"; "b.example"]))%nat
      then Returns (firstn (Z.to_nat n) (urls_of_lines ["a.example"; "b.example"]))
      else Raises (Checker (OtherException "Input/output error")).
Proof.
  apply (load_failure_after_the_limit
           (mkSources (fun _ => Returns (["a.example"; "b.example"],
                                         Some (Checker (OtherException "Input/output error"))))
              (Returns tt) (Returns []) (fun _ => ([], None)))
           "urls.txt" ["a.example"; "b.example"]
           (Checker (OtherException "Input/output error")) []).
  reflexivity.
Defined.

Lemma in_firstn {A} (k : nat) (l : list A) (x : A) : In x (firstn k l) -> In x l.
Proof.
  intros H. rewrite <- (firstn_skipn k l). apply in_app_iff. now left.
Qed.


Lemma urls_of_lines_clean (lines : list string) :
  Forall clean_url (urls_of_lines lines).
Proof.
  unfold urls_of_lines. apply Forall_forall. intros u Hin.
  apply in_map_iff in Hin. destruct Hin as (line & <- & Hin).
  apply filter_In in Hin. destruct Hin as [_ Hk].
  unfold kept in Hk. apply andb_prop in Hk. destruct Hk as [Hne _].
  split; [apply with_scheme_has_scheme|].
  apply strip_with_scheme; [apply strip_idempotent|].
  intros E. rewrite E in Hne. discriminate Hne.
Qed.


Lemma read_lines_result (cap : option Z) (lines : list string) :
  exists k, snd (read_lines cap lines []) = firstn k (urls_of_lines lines).
Proof.
  destruct cap as [n|].
  - destruct (Z.eq_dec n 0) as [->|Hn].
    + rewrite read_lines_unlimited by reflexivity.
      exists (List.length (urls_of_lines lines)). cbn [snd app]. now rewrite firstn_all.
    + rewrite (read_lines_capped (Some n) (effective_cap n))
        by (try (intros count Hc; apply cap_reached_effective; assumption);
            unfold effective_cap; simpl; lia).
      cbn [app].
      destruct (effective_cap n <=? List.length (urls_of_lines lines))%nat.
      * now exists (effective_cap n).
      * exists (List.length (urls_of_lines lines)). cbn [snd]. now rewrite firstn_all.
  - rewrite read_lines_unlimited by reflexivity.
    exists (List.length (urls_of_lines lines)). cbn [snd app]. now rewrite firstn_all.
Qed.

Lemma load_returns (src : Sources) (file_path : string) (cap : option Z)
      (log0 log1 : Log) (urls : list string) :
  load_urls_from_file src file_path cap log0 = (Returns urls, log1) ->
  exists lines failure k,
    open_read src file_path = Returns (lines, failure) /\
    urls = firstn k (urls_of_lines lines).
Proof.
  unfold load_urls_from_file.
  assert (Hf : forall e, fst (load_failed e file_path log0) <> Returns urls).
  { intros e. unfold load_failed.
    destruct (is_FileNotFoundError e); [discriminate|].
    destruct (py_is_Exception e); discriminate. }
  destruct (open_read src file_path) as [[lines failure]|e].
  - destruct (read_lines_result cap lines) as [k Hk].
    destruct (read_lines cap lines []) as [broke got]. cbn [snd] in Hk.
    destruct (if broke then None else failure) as [e|].
    + intros H. exfalso. apply (Hf e). now rewrite H.
    + intros H. inversion H; subst. now exists lines, failure, k.
  - intros H. exfalso. apply (Hf e). now rewrite H.
Qed.

(** X15: every URL [load_urls_from_file] returns begins with [http://]
    or [https://], is not empty, and has no white space at either end
    ([strip] leaves it unchanged). *)
Theorem loaded_urls_are_clean (src : Sources) (file_path : string) (cap : option Z)
        (log0 log1 : Log) (urls : list string) :
  load_urls_from_file src file_path cap log0 = (Returns urls, log1) ->
  forall u, In u urls ->
    startswith_any ["http://"; "https://"] u = true /\
    u <> EmptyString /\
    strip u = u.
Proof.
  intros Hload u Hin.
  destruct (load_returns _ _ _ _ _ _ Hload) as (lines & failure & k & _ & ->).
  apply in_firstn in Hin.
  pose proof (urls_of_lines_clean lines) as Hc. rewrite Forall_forall in Hc.
  destruct (Hc u Hin) as [Hs Hfix]. split; [exact Hs|]. split; [|exact Hfix].
  intros ->. discriminate Hs.
Qed.


(** ** [get_route53_records]: what is listed, the limit, failures *)

Lemma scan_records_unlimited (cap : option Z) (records : list RecordSet) :
  limit_of cap = None ->
  forall urls record_count log0,
    scan_records cap records urls record_count log0
    = (Going (urls ++ urls_of_records records)
         (record_count + List.length (urls_of_records records)), log0).
Proof.
  intros Hcap. unfold urls_of_records.
  induction records as [|record records IH]; intros urls count log0;
    cbn [scan_records filter map].
  - cbn [List.length]. now rewrite app_nil_r, Nat.add_0_r.
  - fold (wanted record). fold (url_of_record record).
    destruct (wanted record); cbn [map List.length]; [|now apply IH].
    assert (Hgo : scan_records cap records (urls ++ [url_of_record record]) (count + 1) log0
                  = (Going (urls ++ url_of_record record
                               :: map url_of_record (filter wanted records))
                       (count + S (List.length (map url_of_record (filter wanted records)))),
                     log0)).
    { rewrite IH, <- app_assoc. cbn [app]. f_equal. f_equal. lia. }
    destruct cap as [n|]; [|exact Hgo].
    unfold limit_of in Hcap. destruct (n =? 0)%Z; [exact Hgo|discriminate Hcap].
Qed.

Lemma scan_records_limited (n : Z) (records : list RecordSet) :
  (n <> 0)%Z ->
  forall urls record_count log0,
    record_count < effective_cap n ->
    scan_records (Some n) records urls record_count log0
    = if (effective_cap n <=? record_count + List.length (urls_of_records records))%nat
      then (Returned (urls ++ firstn (effective_cap n - record_count)
                                 (urls_of_records records)),
            log0 ++ limit_entry (Some n))
      else (Going (urls ++ urls_of_records records)
              (record_count + List.length (urls_of_records records)), log0).
Proof.
  intros Hn. unfold urls_of_records.
  induction records as [|record records IH]; intros urls count log0 Hbelow;
    cbn [scan_records filter map].
  - cbn [List.length]. rewrite app_nil_r, Nat.add_0_r.
    destruct (effective_cap n <=? count)%nat eqn:E; [|reflexivity].
    apply Nat.leb_le in E. lia.
  - fold (wanted record). fold (url_of_record record).
    destruct (wanted record); cbn [map List.length]; [|now apply IH].
    pose proof (cap_reached_effective n (count + 1) Hn ltac:(lia)) as Hc.
    unfold cap_reached in Hc. rewrite Hc.
    destruct (effective_cap n <=? count + 1)%nat eqn:E1.
    + apply Nat.leb_le in E1.
      replace (effective_cap n <=? count + S (List.length
                 (map url_of_record (filter wanted records))))%nat
        with true by (symmetry; apply Nat.leb_le; lia).
      replace (effective_cap n - count) with 1 by lia. reflexivity.
    + apply Nat.leb_gt in E1. rewrite IH by lia.
      replace (count + 1 + List.length (map url_of_record (filter wanted records)))
        with (count + S (List.length (map url_of_record (filter wanted records))))
        by lia.
      rewrite <- !app_assoc. cbn [app].
      destruct (effective_cap n <=? count + S (List.length
                  (map url_of_record (filter wanted records))))%nat.
      * replace (effective_cap n - count) with (S (effective_cap n - (count + 1)))
          by lia.
        reflexivity.
      * reflexivity.
Qed.

Lemma limit_of_cases (cap : option Z) :
  limit_of cap = None \/
  exists n, cap = Some n /\ (n <> 0)%Z /\ limit_of cap = Some (effective_cap n).
Proof.
  destruct cap as [n|]; [|now left]. unfold limit_of.
  destruct (n =? 0)%Z eqn:E; [now left|]. right. exists n.
  apply Z.eqb_neq in E. auto.
Qed.

Lemma scan_records_spec (cap : option Z) (records : list RecordSet)
      (urls : list string) (record_count : nat) (log0 : Log) :
  below_limit cap record_count ->
  scan_records cap records urls record_count log0
  = scanned cap None (urls_of_records records) urls record_count log0.
Proof.
  unfold below_limit, scanned.
  destruct (limit_of_cases cap) as [Hnone|(n & -> & Hn & Hsome)].
  - rewrite Hnone. intros _. now apply scan_records_unlimited.
  - rewrite Hsome. intros Hbelow. now apply scan_records_limited.
Qed.

Lemma urls_of_records_app (a b : list RecordSet) :
  urls_of_records (a ++ b) = urls_of_records a ++ urls_of_records b.
Proof. unfold urls_of_records. now rewrite filter_app, map_app. Qed.

Lemma effective_cap_positive (n : Z) : 1 <= effective_cap n.
Proof. unfold effective_cap. lia. Qed.

Lemma scan_pages_spec (cap : option Z) (failure : option py_exn)
      (pages : list (list RecordSet)) :
  forall urls record_count log0,
    below_limit cap record_count ->
    scan_pages cap pages failure urls record_count log0
    = scanned cap failure (urls_of_records (concat pages)) urls record_count log0.
Proof.
  induction pages as [|page pages IH]; intros urls count log0 Hbelow;
    cbn [scan_pages concat].
  - unfold scanned, below_limit in *. cbn [urls_of_records filter map List.length].
    rewrite app_nil_r, Nat.add_0_r.
    destruct (limit_of cap) as [c|]; [|reflexivity].
    destruct (c <=? count)%nat eqn:E; [|reflexivity].
    apply Nat.leb_le in E. lia.
  - rewrite scan_records_spec by exact Hbelow.
    rewrite urls_of_records_app.
    set (us := urls_of_records page). set (rest := urls_of_records (concat pages)).
    unfold scanned at 1. unfold below_limit in Hbelow.
    destruct (limit_of cap) as [c|] eqn:Hlim.
    + destruct (c <=? count + List.length us)%nat eqn:E.
      * apply Nat.leb_le in E. unfold scanned. rewrite Hlim, length_app.
        replace (c <=? count + (List.length us + List.length rest))%nat
          with true by (symmetry; apply Nat.leb_le; lia).
        rewrite firstn_app.
        replace (c - count - List.length us) with 0 by lia.
        cbn [firstn]. now rewrite app_nil_r.
      * apply Nat.leb_gt in E.
        rewrite IH by (unfold below_limit; rewrite Hlim; exact E).
        fold rest. unfold scanned. rewrite Hlim, length_app.
        replace (count + List.length us + List.length rest)
          with (count + (List.length us + List.length rest)) by lia.
        destruct (c <=? count + (List.length us + List.length rest))%nat.
        -- rewrite firstn_app, (firstn_all2 us) by lia.
           replace (c - (count + List.length us)) with (c - count - List.length us) by lia.
           now rewrite <- !app_assoc.
        -- now rewrite <- !app_assoc.
    + rewrite IH by (unfold below_limit; now rewrite Hlim).
      fold rest. unfold scanned. rewrite Hlim, length_app.
      replace (count + List.length us + List.length rest)
        with (count + (List.length us + List.length rest)) by lia.
      now rewrite <- !app_assoc.
Qed.

(** How a run of the zones' loop ends, read off its result. *)
Lemma scan_zones_spec (src : Sources) (cap : option Z) (zones : list (list (string * string))) :
  forall urls log0 fl log1,
    scan_zones src cap zones urls log0 = (fl, log1) ->
    match fl with
    | Going urls' _ =>
        urls' = urls ++ flat_map (zone_urls src) zones /\
        forall c, limit_of cap = Some c ->
                  Forall (fun z => List.length (zone_urls src z) < c) zones
    | Returned urls' =>
        exists c done z rest,
          limit_of cap = Some c /\
          zones = done ++ z :: rest /\
          Forall (fun z => List.length (zone_urls src z) < c) done /\
          c <= List.length (zone_urls src z) /\
          urls' = urls ++ flat_map (zone_urls src) done ++ firstn c (zone_urls src z)
    | Failed _ => True
    end.
Proof.
  induction zones as [|zone zones IH]; intros urls log0 fl log1; cbn [scan_zones].
  - intros H. inversion H; subst. cbn [flat_map]. rewrite app_nil_r.
    split; [reflexivity|]. intros c _. constructor.
  - destruct (getitem zone "Name") as [name|e] eqn:Hname;
      [|intros H; inversion H; exact I].
    destruct (getitem zone "Id") as [id|e] eqn:Hid;
      [|intros H; inversion H; exact I].
    destruct (paginate src id) as [pages failure] eqn:Hpag.
    rewrite scan_pages_spec
      by (unfold below_limit; destruct (limit_of_cases cap) as [->|(n & _ & _ & ->)];
          [exact I|apply effective_cap_positive]).
    assert (Hz : zone_urls src zone = urls_of_records (concat pages))
      by (unfold zone_urls; now rewrite Hid, Hpag).
    set (us := urls_of_records (concat pages)) in *.
    unfold scanned. cbn [Nat.add].
    destruct (limit_of cap) as [c|] eqn:Hlim; rewrite ?Nat.sub_0_r.
    + destruct (c <=? List.length us)%nat eqn:E.
      * intros H. inversion H; subst. exists c, [], zone, zones.
        apply Nat.leb_le in E. rewrite Hz. cbn [flat_map app].
        repeat split; try assumption; constructor.
      * apply Nat.leb_gt in E. destruct failure as [e|];
          [intros H; inversion H; exact I|].
        intros H. specialize (IH _ _ _ _ H). destruct fl as [urls' k|urls'|e].
        -- destruct IH as [Hu Hall]. cbn [flat_map]. rewrite Hz.
           split; [now rewrite Hu, <- app_assoc|].
           intros c' Hc'. inversion Hc'; subst c'. constructor; [now rewrite Hz|].
           now apply Hall.
        -- destruct IH as (c' & done & z & rest & Hc' & Hzs & Hdone & Hlen & Hu).
           inversion Hc'; subst c'.
           exists c, (zone :: done), z, rest. rewrite Hzs.
           repeat split; try assumption.
           ++ constructor; [now rewrite Hz|exact Hdone].
           ++ cbn [flat_map]. rewrite Hz, Hu. now rewrite <- !app_assoc.
        -- exact I.
    + destruct failure as [e|]; [intros H; inversion H; exact I|].
      intros H. specialize (IH _ _ _ _ H). destruct fl as [urls' k|urls'|e].
      * destruct IH as [Hu Hall]. cbn [flat_map]. rewrite Hz.
        split; [now rewrite Hu, <- app_assoc|]. intros c' Hc'. discriminate Hc'.
      * destruct IH as (c' & done & z & rest & Hc' & _). discriminate Hc'.
      * exact I.
Qed.

(** X17: a hosted zone id makes the listing fail.  With a non-empty
    [hosted_zone_id] the only zone is the dictionary [{'Id': id}], and
    the first statement of the loop reads its [Name]: once the client
    is made, the call raises [KeyError('Name')], logged as an unexpected
    error, whatever the zone holds and whatever the limit. *)
Theorem hosted_zone_id_raises_KeyError (src : Sources) (id : string)
        (max_records : option Z) (log0 : Log) :
  route53_client src = Returns tt ->
  id <> EmptyString ->
  get_route53_records src (Some id) max_records log0
  = (Raises (KeyError "'Name'"), log0 ++ [(ERROR, "Erro inesperado: 'Name'")]).
Proof.
  intros Hclient Hid. unfold get_route53_records. rewrite Hclient.
  destruct (String.eqb id EmptyString) eqn:E;
    [apply String.eqb_eq in E; contradiction|].
  reflexivity.
Qed.

Lemma hosted_zone_id_raises_KeyError_witness :
  get_route53_records
    (mkSources (fun _ => Returns ([], None)) (Returns tt) (Returns [])
       (fun _ => ([[mkRecordSet "A" "www.example.com."]], None)))
    (Some "Z1234567890ABC") (Some 10%Z) []
  = (Raises (KeyError "'Name'"), [] ++ [(ERROR, "Erro inesperado: 'Name'")]).
Proof.
  apply (hosted_zone_id_raises_KeyError
           (mkSources (fun _ => Returns ([], None)) (Returns tt) (Returns [])
              (fun _ => ([[mkRecordSet "A" "www.example.com."]], None)))
           "Z1234567890ABC" (Some 10%Z) []).
  - reflexivity.
  - discriminate.
Defined.

Lemma scan_zones_unlimited (src : Sources) (cap : option Z)
      (zones : list (list (string * string))) :
  limit_of cap = None ->
  Forall (zone_listed src) zones ->
  forall urls log0,
    exists log1,
      scan_zones src cap zones urls log0
      = (Going (urls ++ flat_map (zone_urls src) zones) 0, log1).
Proof.
  intros Hlim. induction 1 as [|zone zones Hz _ IH]; intros urls log0;
    cbn [scan_zones flat_map].
  - rewrite app_nil_r. eauto.
  - destruct Hz as (name & id & Hname & Hid & Hfail).
    unfold zone_urls at 1. rewrite Hname, Hid.
    destruct (paginate src id) as [pages failure]. cbn [snd fst] in *. subst failure.
    rewrite scan_pages_spec by (unfold below_limit; now rewrite Hlim).
    unfold scanned. rewrite Hlim. cbn [Nat.add].
    match goal with
    | |- context [scan_zones src cap zones ?u ?l] => destruct (IH u l) as [log1 H]
    end.
    rewrite H, <- app_assoc. eauto.
Qed.

(** X18: without a limit, every A, CNAME and AAAA record set of every
    zone is listed.  When the client is made and the zones are listed
    with their pages, the call returns, zone after zone and record
    after record, the URL of each such record set: its name without
    trailing dots, with [https://] before it unless it has a scheme.
    A limit of zero is no limit. *)
Theorem route53_lists_every_record (src : Sources) (max_records : option Z)
        (zones : list (list (string * string))) (log0 : Log) :
  route53_client src = Returns tt ->
  list_hosted_zones src = Returns zones ->
  Forall (zone_listed src) zones ->
  max_records = None \/ max_records = Some 0%Z ->
  fst (get_route53_records src None max_records log0)
  = Returns
      (flat_map
         (fun zone =>
            match getitem zone "Id" with
            | Returns id =>
                map (fun record => with_scheme (rstrip_dots (rs_Name record)))
                    (filter (fun record =>
                               existsb (String.eqb (rs_Type record)) ["A"; "CNAME"; "AAAA"])
                            (concat (fst (paginate src id))))
            | Raises _ => []
            end)
         zones).
Proof.
  intros Hclient Hzones Hall Hcap. unfold get_route53_records.
  rewrite Hclient, Hzones.
  assert (Hlim : limit_of max_records = None) by (destruct Hcap; subst; reflexivity).
  destruct (scan_zones_unlimited src max_records zones Hlim Hall [] log0) as [log1 H].
  rewrite H. reflexivity.
Qed.

(** ** An example of sources *)

Lemma sources_example_zones_listed :
  Forall (zone_listed sources_example)
    [ [("Id", "/hostedzone/Z1"); ("Name", "example.com.")];
      [("Id", "/hostedzone/Z2"); ("Name", "example.org.")] ].
Proof.
  repeat constructor.
  - exists "example.com.", "/hostedzone/Z1". repeat split; reflexivity.
  - exists "example.org.", "/hostedzone/Z2". repeat split; reflexivity.
Qed.

Lemma route53_lists_every_record_witness :
  fst (get_route53_records sources_example None None [])
  = Returns [ "https://example.com"; "https://www.example.com";
              "https://example.org"; "https://a.example.org"; "https://b.example.org" ].
Proof.
  apply (route53_lists_every_record sources_example None
           [ [("Id", "/hostedzone/Z1"); ("Name", "example.com.")];
             [("Id", "/hostedzone/Z2"); ("Name", "example.org.")] ] []).
  - reflexivity.
  - reflexivity.
  - exact sources_example_zones_listed.
  - now left.
Defined.

Lemma loaded_urls_are_clean_witness :
  startswith_any ["http://"; "https://"] "https://shop.example.com" = true /\
  "https://shop.example.com" <> EmptyString /\
  strip "https://shop.example.com" = "https://shop.example.com".
Proof.
  apply (loaded_urls_are_clean sources_example "urls.txt" None []
           [(INFO, "Carregadas 3 URLs do arquivo urls.txt")]
           ["https://shop.example.com"; "http://intranet.example/";
            "https://www.example.org"]).
  - vm_compute. reflexivity.
  - simpl. left. reflexivity.
Defined.


(** ** The limit of [get_route53_records] *)

Lemma route53_returns (src : Sources) (hosted_zone_id : option string)
      (cap : option Z) (log0 log1 : Log) (urls : list string) :
  get_route53_records src hosted_zone_id cap log0 = (Returns urls, log1) ->
  exists zones fl log2,
    scan_zones src cap zones [] log0 = (fl, log2) /\
    (fl = Returned urls \/ exists k, fl = Going urls k) /\
    (hosted_zone_id = None -> list_hosted_zones src = Returns zones).
Proof.
  unfold get_route53_records.
  assert (Hf : forall e lg, fst (route53_failed e lg) <> Returns urls).
  { intros e lg. unfold route53_failed.
    destruct (is_NoCredentialsError e); [discriminate|].
    destruct (is_ClientError e); [discriminate|].
    destruct (py_is_Exception e); discriminate. }
  destruct (route53_client src) as [u|e];
    [|intros H; exfalso; apply (Hf e log0); now rewrite H].
  set (zs := match hosted_zone_id with
             | Some id => if negb (String.eqb id EmptyString)
                          then Returns [[("Id", id)]] else list_hosted_zones src
             | None => list_hosted_zones src
             end).
  assert (Hzs : hosted_zone_id = None -> zs = list_hosted_zones src)
    by (intros ->; reflexivity).
  destruct zs as [zones|e];
    [|intros H; exfalso; apply (Hf e log0); now rewrite H].
  destruct (scan_zones src cap zones [] log0) as [fl log2] eqn:Hscan.
  intros H. exists zones, fl, log2. split; [exact Hscan|].
  destruct fl as [urls' k|urls'|e].
  - inversion H; subst. split; [right; now exists k|].
    intros Hn. symmetry. now apply Hzs.
  - inversion H; subst. split; [now left|]. intros Hn. symmetry. now apply Hzs.
  - exfalso. apply (Hf e log2). now rewrite H.
Qed.

(** X19: the limit of [get_route53_records] counts per zone.  When a
    call under a limit returns, the zones split in two: those before
    the split have fewer record URLs than the limit each and are listed
    in full; and either no zone is left, or the next zone has at least
    as many URLs as the limit and its first ones, as many as the limit,
    end the list.  A negative limit acts as a limit of one. *)
Theorem route53_limit_counts_per_zone (src : Sources) (n : Z)
        (zones : list (list (string * string))) (log0 log1 : Log) (urls : list string) :
  (n <> 0)%Z ->
  list_hosted_zones src = Returns zones ->
  get_route53_records src None (Some n) log0 = (Returns urls, log1) ->
  exists done rest,
    zones = done ++ rest /\
    Forall (fun z => List.length (zone_urls src z) < effective_cap n) done /\
    ((rest = [] /\ urls = flat_map (zone_urls src) done) \/
     (exists z rest',
        rest = z :: rest' /\
        effective_cap n <= List.length (zone_urls src z) /\
        urls = flat_map (zone_urls src) done ++ firstn (effective_cap n) (zone_urls src z))).
Proof.
  intros Hn Hzones Hget.
  destruct (route53_returns _ _ _ _ _ _ Hget) as (zones' & fl & log2 & Hscan & Hfl & Hz).
  specialize (Hz eq_refl). rewrite Hzones in Hz. inversion Hz; subst zones'.
  pose proof (scan_zones_spec src (Some n) zones [] log0 fl log2 Hscan) as Hspec.
  assert (Hlim : limit_of (Some n) = Some (effective_cap n)).
  { unfold limit_of. destruct (n =? 0)%Z eqn:E; [|reflexivity].
    apply Z.eqb_eq in E. contradiction. }
  destruct Hfl as [->|[k ->]].
  - destruct Hspec as (c & done & z & rest & Hc & Hsplit & Hdone & Hlen & Hu).
    rewrite Hlim in Hc. inversion Hc; subst c.
    exists done, (z :: rest). split; [exact Hsplit|]. split; [exact Hdone|].
    right. exists z, rest. auto.
  - destruct Hspec as [Hu Hall]. exists zones, []. rewrite app_nil_r.
    split; [reflexivity|]. split; [now apply Hall|]. left. auto.
Qed.

Lemma route53_limit_counts_per_zone_witness :
  exists done rest,
    [ [("Id", "/hostedzone/Z1"); ("Name", "example.com.")];
      [("Id", "/hostedzone/Z2"); ("Name", "example.org.")] ] = done ++ rest /\
    Forall (fun z => List.length (zone_urls sources_example z) < effective_cap 3) done /\
    ((rest = [] /\
      [ "https://example.com"; "https://www.example.com";
        "https://example.org"; "https://a.example.org"; "https://b.example.org" ]
      = flat_map (zone_urls sources_example) done) \/
     (exists z rest',
        rest = z :: rest' /\
        effective_cap 3 <= List.length (zone_urls sources_example z) /\
        [ "https://example.com"; "https://www.example.com";
          "https://example.org"; "https://a.example.org"; "https://b.example.org" ]
        = flat_map (zone_urls sources_example) done
          ++ firstn (effective_cap 3) (zone_urls sources_example z))).
Proof.
  apply (route53_limit_counts_per_zone sources_example 3
           [ [("Id", "/hostedzone/Z1"); ("Name", "example.com.")];
             [("Id", "/hostedzone/Z2"); ("Name", "example.org.")] ]
           []
           [ (INFO, "Processando zona hospedada: example.com.");
             (INFO, "Total de registros processados na zona example.com.: 2");
             (INFO, "Processando zona hospedada: example.org.");
             (INFO, "Limite de 3 registros atingido") ]).
  - discriminate.
  - reflexivity.
  - vm_compute. reflexivity.
Defined.

Lemma url_of_record_clean (record : RecordSet) :
  startswith_any ["http://"; "https://"] (url_of_record record) = true /\
  rstrip_dots (url_of_record record) = url_of_record record.
Proof.
  unfold url_of_record. split;
    [apply with_scheme_has_scheme | apply rstrip_dots_with_scheme].
Qed.

(** A call that returns listed the zones: a hosted zone id, which makes
    the loop raise, was not given. *)
Lemma route53_returns_listed (src : Sources) (hosted_zone_id : option string)
      (cap : option Z) (log0 log1 : Log) (urls : list string) :
  get_route53_records src hosted_zone_id cap log0 = (Returns urls, log1) ->
  exists zones fl log2,
    list_hosted_zones src = Returns zones /\
    scan_zones src cap zones [] log0 = (fl, log2) /\
    (fl = Returned urls \/ exists k, fl = Going urls k).
Proof.
  unfold get_route53_records.
  assert (Hf : forall e lg, fst (route53_failed e lg) <> Returns urls).
  { intros e lg. unfold route53_failed.
    destruct (is_NoCredentialsError e); [discriminate|].
    destruct (is_ClientError e); [discriminate|].
    destruct (py_is_Exception e); discriminate. }
  destruct (route53_client src) as [u|e];
    [|intros H; exfalso; apply (Hf e log0); now rewrite H].
  assert (Hlisted :
    match list_hosted_zones src with
    | Returns zones =>
        match scan_zones src cap zones [] log0 with
        | (Going urls0 _, log2) | (Returned urls0, log2) => (Returns urls0, log2)
        | (Failed e, log2) => route53_failed e log2
        end
    | Raises e => route53_failed e log0
    end = (Returns urls, log1) ->
    exists zones fl log2,
      list_hosted_zones src = Returns zones /\
      scan_zones src cap zones [] log0 = (fl, log2) /\
      (fl = Returned urls \/ exists k, fl = Going urls k)).
  { destruct (list_hosted_zones src) as [zones|e];
      [|intros H; exfalso; apply (Hf e log0); now rewrite H].
    destruct (scan_zones src cap zones [] log0) as [fl log2] eqn:Hscan.
    intros H. exists zones, fl, log2. split; [reflexivity|]. split; [exact Hscan|].
    destruct fl as [urls' k|urls'|e].
    - inversion H; subst. right. now exists k.
    - inversion H; subst. now left.
    - exfalso. apply (Hf e log2). now rewrite H. }
  destruct hosted_zone_id as [id|]; [|exact Hlisted].
  destruct (String.eqb id EmptyString); cbn [negb]; [exact Hlisted|].
  cbn. intros H. discriminate H.
Qed.

Lemma zone_urls_records (src : Sources) (zone : list (string * string)) (u : string) :
  In u (zone_urls src zone) ->
  exists id page record,
    getitem zone "Id" = Returns id /\
    In page (fst (paginate src id)) /\
    In record page /\
    wanted record = true /\
    u = url_of_record record.
Proof.
  unfold zone_urls. destruct (getitem zone "Id") as [id|e]; [|intros []].
  unfold urls_of_records. intros Hin.
  apply in_map_iff in Hin. destruct Hin as (record & Hu & Hin).
  apply filter_In in Hin. destruct Hin as [Hin Hw].
  apply in_concat in Hin. destruct Hin as (page & Hpage & Hrec).
  exists id, page, record. repeat split; auto.
Qed.

Lemma route53_urls_from_zones (src : Sources) (hosted_zone_id : option string)
      (cap : option Z) (log0 log1 : Log) (urls : list string) (u : string) :
  get_route53_records src hosted_zone_id cap log0 = (Returns urls, log1) ->
  In u urls ->
  exists zones zone,
    list_hosted_zones src = Returns zones /\
    In zone zones /\
    In u (zone_urls src zone).
Proof.
  intros Hget Hin.
  destruct (route53_returns_listed _ _ _ _ _ _ Hget)
    as (zones & fl & log2 & Hzones & Hscan & Hfl).
  pose proof (scan_zones_spec src cap zones [] log0 fl log2 Hscan) as Hspec.
  exists zones.
  destruct Hfl as [->|[k ->]].
  - destruct Hspec as (c & done & z & rest & _ & Hsplit & _ & _ & Hu).
    subst urls. cbn [app] in Hin. apply in_app_or in Hin. destruct Hin as [Hin|Hin].
    + apply in_flat_map in Hin. destruct Hin as (zone & Hz & Hin).
      exists zone. repeat split; auto. rewrite Hsplit. apply in_or_app. now left.
    + exists z. repeat split; auto.
      * rewrite Hsplit. apply in_or_app. right. now left.
      * eapply in_firstn. exact Hin.
  - destruct Hspec as [Hu _]. subst urls. cbn [app] in Hin.
    apply in_flat_map in Hin. destruct Hin as (zone & Hz & Hin).
    exists zone. repeat split; auto.
Qed.

(** X20: every URL [get_route53_records] returns was made from a record
    set that Route53 listed.  There is a zone among the hosted zones
    listed, a page among the pages of the record sets of that zone, and
    on the page a record set of type A, CNAME or AAAA of which the URL is
    the name without its trailing dots, with [https://] put before it
    unless it starts with a scheme.  So the URL starts with a scheme and
    ends in no dot. *)
Theorem route53_urls_are_record_names (src : Sources) (hosted_zone_id : option string)
        (max_records : option Z) (log0 log1 : Log) (urls : list string) (u : string) :
  get_route53_records src hosted_zone_id max_records log0 = (Returns urls, log1) ->
  In u urls ->
  (exists zones zone id page record,
      list_hosted_zones src = Returns zones /\
      In zone zones /\
      getitem zone "Id" = Returns id /\
      In page (fst (paginate src id)) /\
      In record page /\
      In (rs_Type record) ["A"; "CNAME"; "AAAA"] /\
      u = with_scheme (rstrip_dots (rs_Name record))) /\
  startswith_any ["http://"; "https://"] u = true /\
  rstrip_dots u = u.
Proof.
  intros Hget Hin.
  destruct (route53_urls_from_zones _ _ _ _ _ _ _ Hget Hin)
    as (zones & zone & Hzones & Hzone & Hz).
  destruct (zone_urls_records _ _ _ Hz) as (id & page & record & Hid & Hpage & Hrec & Hw & ->).
  split; [|apply url_of_record_clean].
  exists zones, zone, id, page, record. repeat split; auto.
  unfold wanted in Hw. apply existsb_exists in Hw.
  destruct Hw as (t & Ht & Heq). apply String.eqb_eq in Heq. now rewrite Heq.
Qed.

Lemma route53_urls_are_record_names_witness :
  (exists zones zone id page record,
      list_hosted_zones sources_example = Returns zones /\
      In zone zones /\
      getitem zone "Id" = Returns id /\
      In page (fst (paginate sources_example id)) /\
      In record page /\
      In (rs_Type record) ["A"; "CNAME"; "AAAA"] /\
      "https://www.example.com" = with_scheme (rstrip_dots (rs_Name record))) /\
  startswith_any ["http://"; "https://"] "https://www.example.com" = true /\
  rstrip_dots "https://www.example.com" = "https://www.example.com".
Proof.
  apply (route53_urls_are_record_names sources_example None None []
           [ (INFO, "Processando zona hospedada: example.com.");
             (INFO, "Total de registros processados na zona example.com.: 2");
             (INFO, "Processando zona hospedada: example.org.");
             (INFO, "Total de registros processados na zona example.org.: 3") ]
           [ "https://example.com"; "https://www.example.com";
             "https://example.org"; "https://a.example.org"; "https://b.example.org" ]).
  - vm_compute. reflexivity.
  - cbn [In]. auto.
Defined.

Lemma flat_map_length_bound {A B : Type} (f : A -> list B) (c : nat) (l : list A) :
  Forall (fun a => List.length (f a) < c) l ->
  List.length (flat_map f l) <= (c - 1) * List.length l.
Proof.
  induction 1 as [|a l Ha _ IH]; cbn [flat_map List.length]; [lia|].
  rewrite length_app. nia.
Qed.

(** X21: under a limit, [get_route53_records] returns at most as many
    URLs as the limit times the number of zones listed: the limit holds
    for each zone, not for the list. *)
Theorem route53_limit_bounds_each_zone (src : Sources) (n : Z)
        (zones : list (list (string * string))) (log0 log1 : Log) (urls : list string) :
  (n <> 0)%Z ->
  list_hosted_zones src = Returns zones ->
  get_route53_records src None (Some n) log0 = (Returns urls, log1) ->
  List.length urls <= effective_cap n * List.length zones.
Proof.
  intros Hn Hzones Hget.
  destruct (route53_returns _ _ _ _ _ _ Hget) as (zones' & fl & log2 & Hscan & Hfl & Hz).
  specialize (Hz eq_refl). rewrite Hzones in Hz. inversion Hz; subst zones'.
  pose proof (scan_zones_spec src (Some n) zones [] log0 fl log2 Hscan) as Hspec.
  assert (Hlim : limit_of (Some n) = Some (effective_cap n)).
  { unfold limit_of. destruct (n =? 0)%Z eqn:E; [|reflexivity].
    apply Z.eqb_eq in E. contradiction. }
  pose proof (effective_cap_positive n) as Hpos.
  destruct Hfl as [->|[k ->]].
  - destruct Hspec as (c & done & z & rest & Hc & Hsplit & Hdone & Hlen & Hu).
    rewrite Hlim in Hc. inversion Hc; subst c.
    subst urls zones. cbn [app]. rewrite !length_app. cbn [List.length].
    pose proof (flat_map_length_bound _ _ _ Hdone) as Hb.
    pose proof (firstn_le_length (effective_cap n) (zone_urls src z)) as Hf.
    rewrite length_firstn. nia.
  - destruct Hspec as [Hu Hall]. subst urls. cbn [app].
    pose proof (flat_map_length_bound _ _ _ (Hall _ Hlim)) as Hb. nia.
Qed.

Lemma route53_limit_bounds_each_zone_witness :
  List.length [ "https://example.com"; "https://www.example.com";
                "https://example.org"; "https://a.example.org"; "https://b.example.org" ]
  <= effective_cap 3 * List.length
       [ [("Id", "/hostedzone/Z1"); ("Name", "example.com.")];
         [("Id", "/hostedzone/Z2"); ("Name", "example.org.")] ].
Proof.
  apply (route53_limit_bounds_each_zone sources_example 3
           [ [("Id", "/hostedzone/Z1"); ("Name", "example.com.")];
             [("Id", "/hostedzone/Z2"); ("Name", "example.org.")] ]
           []
           [ (INFO, "Processando zona hospedada: example.com.");
             (INFO, "Total de registros processados na zona example.com.: 2");
             (INFO, "Processando zona hospedada: example.org.");
             (INFO, "Limite de 3 registros atingido") ]).
  - discriminate.
  - reflexivity.
  - vm_compute. reflexivity.
Defined.

(** * Saving the results and the command: [save_results] and [main] *)

(** ** The calls of the save methods *)

Lemma makes_a_call_keeps {A : Type} (m : IO A) : makes_a_call m -> keeps_calls m.
Proof. intros H st. specialize (H st). lia. Qed.

Lemma io_ret_keeps {A : Type} (a : A) : keeps_calls (io_ret a).
Proof. intros st. cbn. lia. Qed.

Lemma io_log_keeps (lvl : level) (msg : string) : keeps_calls (io_log lvl msg).
Proof. intros st. cbn. lia. Qed.

Lemma perform_makes_a_call (env : Env) (c : ext_call) : makes_a_call (perform env c).
Proof. intros st. cbn. rewrite length_app. cbn. lia. Qed.

Lemma io_bind_keeps {A B : Type} (m : IO A) (k : A -> IO B) :
  keeps_calls m -> (forall a, keeps_calls (k a)) -> keeps_calls (io_bind m k).
Proof.
  intros Hm Hk st. unfold io_bind. specialize (Hm st).
  destruct (m st) as [[a|e] st1]; cbn [snd] in *; [|exact Hm].
  specialize (Hk a st1). lia.
Qed.

Lemma io_bind_makes_a_call_first {A B : Type} (m : IO A) (k : A -> IO B) :
  makes_a_call m -> (forall a, keeps_calls (k a)) -> makes_a_call (io_bind m k).
Proof.
  intros Hm Hk st. unfold io_bind. specialize (Hm st).
  destruct (m st) as [[a|e] st1]; cbn [snd] in *; [|exact Hm].
  specialize (Hk a st1). lia.
Qed.

Lemma io_except_makes_a_call {A : Type} (m : IO A) (class : py_exn -> bool)
      (handler : py_exn -> IO A) :
  makes_a_call m -> (forall e, keeps_calls (handler e)) ->
  makes_a_call (io_except m class handler).
Proof.
  intros Hm Hh st. unfold io_except. specialize (Hm st).
  destruct (m st) as [[a|e] st1]; cbn [snd] in *; [exact Hm|].
  destruct (class e); [|exact Hm].
  specialize (Hh e st1). lia.
Qed.

Create HintDb calls.

#[local] Hint Resolve io_ret_keeps io_log_keeps perform_makes_a_call
  makes_a_call_keeps : calls.

Ltac calls_step :=
  first [ apply io_bind_makes_a_call_first; [|intros ?]
        | apply io_except_makes_a_call; [|intros ?]
        | apply io_bind_keeps; [|intros ?] ];
  auto with calls.

Lemma io_log_then_makes_a_call {B : Type} (lvl : level) (msg : string) (k : unit -> IO B) :
  makes_a_call (k tt) -> makes_a_call (io_bind (io_log lvl msg) k).
Proof.
  intros Hk st.
  exact (Hk (mkStore (calls st) (journal st ++ [(lvl, msg)]))).
Qed.

Lemma io_ret_then_makes_a_call {B : Type} (k : unit -> IO B) :
  makes_a_call (k tt) -> makes_a_call (io_bind (io_ret tt) k).
Proof. intros Hk st. exact (Hk st). Qed.

Lemma upload_makes_a_call (env : Env) (self : WAFChecker)
      (content filename content_type : string) :
  makes_a_call (_upload_to_s3 env self content filename content_type).
Proof.
  unfold _upload_to_s3.
  destruct (s3_bucket self) as [[|c bucket]|].
  - apply io_log_then_makes_a_call. repeat calls_step.
  - repeat calls_step.
  - apply io_log_then_makes_a_call. repeat calls_step.
Qed.

Lemma save_csv_makes_a_call (env : Env) (self : WAFChecker)
      (r : CheckResult) (rs : list CheckResult) (filename : string) :
  makes_a_call (_save_csv env self (r :: rs) filename).
Proof.
  unfold _save_csv. cbn [truthy negb].
  destruct (local_mode self); [|apply upload_makes_a_call].
  repeat calls_step.
Qed.

Lemma save_json_makes_a_call (env : Env) (self : WAFChecker)
      (r : CheckResult) (rs : list CheckResult) (filename : string) :
  makes_a_call (_save_json env self (r :: rs) filename).
Proof.
  unfold _save_json. cbn [truthy negb].
  destruct (local_mode self); [|apply upload_makes_a_call].
  repeat calls_step.
Qed.

Lemma save_json_keeps (env : Env) (self : WAFChecker)
      (rs : list CheckResult) (filename : string) :
  keeps_calls (_save_json env self rs filename).
Proof.
  destruct rs as [|r rs]; [apply io_ret_keeps|].
  apply makes_a_call_keeps, save_json_makes_a_call.
Qed.

Lemma text_in_not_formats (output_format : string) :
  ~ In output_format ["csv"; "json"; "both"] ->
  text_in output_format ["csv"; "both"] = false /\
  text_in output_format ["json"; "both"] = false.
Proof.
  intros Hn. unfold text_in. cbn [existsb].
  destruct (String.eqb_spec output_format "csv") as [->|_];
    [exfalso; apply Hn; cbn; auto|].
  destruct (String.eqb_spec output_format "json") as [->|_];
    [exfalso; apply Hn; cbn; auto|].
  destruct (String.eqb_spec output_format "both") as [->|_];
    [exfalso; apply Hn; cbn; auto|].
  split; reflexivity.
Qed.

Lemma save_results_makes_a_call (env : Env) (self : WAFChecker)
      (r : CheckResult) (rs : list CheckResult) (output_format : string) :
  In output_format ["csv"; "json"; "both"] ->
  makes_a_call (save_results env self (r :: rs) output_format).
Proof.
  cbn [In]. intros [<-|[<-|[<-|[]]]]; unfold save_results;
    cbn [text_in existsb String.eqb Ascii.eqb Bool.eqb orb andb].
  - apply io_bind_makes_a_call_first; [apply save_csv_makes_a_call|].
    intros _. apply io_ret_keeps.
  - apply io_ret_then_makes_a_call, save_json_makes_a_call.
  - apply io_bind_makes_a_call_first; [apply save_csv_makes_a_call|].
    intros _. apply save_json_keeps.
Qed.

(** X22: [save_results] leaves everything as it is, making no call and
    logging nothing, exactly when there is no result or the format is
    none of [csv], [json] and [both]; in every other case it makes a
    call to the outside. *)
Theorem save_results_idle_iff (env : Env) (self : WAFChecker)
        (results : list CheckResult) (output_format : string) (st : Store) :
  save_results env self results output_format st = (Returns tt, st)
  <-> (results = [] \/ ~ In output_format ["csv"; "json"; "both"]).
Proof.
  split.
  - intros Hrun.
    destruct results as [|r rs]; [now left|]. right. intros Hin.
    pose proof (save_results_makes_a_call env self r rs output_format Hin st) as Hlt.
    rewrite Hrun in Hlt. cbn in Hlt. lia.
  - intros [->|Hn].
    + unfold save_results, _save_csv, _save_json. cbn [truthy negb].
      destruct (text_in output_format ["csv"; "both"]),
               (text_in output_format ["json"; "both"]); reflexivity.
    + destruct (text_in_not_formats _ Hn) as [Hc Hj].
      unfold save_results. rewrite Hc, Hj. reflexivity.
Qed.

(** X23: when [_upload_to_s3] returns, its last call stored the content
    and was answered: it wrote the content to the file of that name
    under [output], or put it in the bucket under that name with the
    content type given. *)
Theorem upload_returns_after_storing (env : Env) (self : WAFChecker)
        (content filename content_type : string) (st st' : Store) :
  _upload_to_s3 env self content filename content_type st = (Returns tt, st') ->
  exists before c,
    calls st' = before ++ [c] /\
    answer env before c = Returns tt /\
    (c = f_write (os_path_join "output" filename) content \/
     exists bucket,
       s3_bucket self = Some bucket /\
       c = put_object bucket filename content content_type).
Proof.
  unfold _upload_to_s3.
  assert (Hlocal : forall lg,
             (perform env (os_makedirs "output") >>
              perform env (f_write (os_path_join "output" filename) content))
               (mkStore (calls st) lg) = (Returns tt, st') ->
             exists before c,
               calls st' = before ++ [c] /\
               answer env before c = Returns tt /\
               (c = f_write (os_path_join "output" filename) content \/
                exists bucket,
                  s3_bucket self = Some bucket /\
                  c = put_object bucket filename content content_type)).
  { intros lg. unfold io_bind, perform. cbn [calls journal].
    destruct (answer env (calls st) (os_makedirs "output")) as [[]|e]; [|discriminate].
    destruct (answer env (calls st ++ [os_makedirs "output"])
                     (f_write (os_path_join "output" filename) content))
      as [[]|e] eqn:Hw; [|discriminate].
    intros H. inversion H; subst st'. cbn [calls].
    exists (calls st ++ [os_makedirs "output"]),
           (f_write (os_path_join "output" filename) content). auto. }
  destruct (s3_bucket self) as [[|ch bucket]|] eqn:Hb.
  - apply Hlocal.
  - unfold io_except, io_bind, io_log, perform. cbn [calls journal].
    destruct (answer env (calls st) session_client_s3) as [[]|e] eqn:Hc.
    + destruct (answer env (calls st ++ [session_client_s3])
                       (put_object (String ch bucket) filename content content_type))
        as [[]|e] eqn:Hp.
      * intros H. inversion H; subst st'. cbn [calls].
        exists (calls st ++ [session_client_s3]),
               (put_object (String ch bucket) filename content content_type).
        split; [reflexivity|]. split; [exact Hp|]. right. now exists (String ch bucket).
      * destruct (py_is_Exception e); [|discriminate]. cbn [calls journal].
        destruct (answer env ((calls st ++ [session_client_s3])
                              ++ [put_object (String ch bucket) filename content content_type])
                         (os_makedirs "output")) as [[]|e1]; [|discriminate].
        destruct (answer env (((calls st ++ [session_client_s3])
                               ++ [put_object (String ch bucket) filename content content_type])
                              ++ [os_makedirs "output"])
                         (f_write (os_path_join "output" filename) content))
          as [[]|e2] eqn:Hw; [|discriminate].
        intros H. inversion H; subst st'. cbn [calls].
        eexists _, _. split; [reflexivity|]. split; [exact Hw|]. now left.
    + destruct (py_is_Exception e); [|discriminate]. cbn [calls journal].
      destruct (answer env (calls st ++ [session_client_s3]) (os_makedirs "output"))
        as [[]|e1]; [|discriminate].
      destruct (answer env ((calls st ++ [session_client_s3]) ++ [os_makedirs "output"])
                       (f_write (os_path_join "output" filename) content))
        as [[]|e2] eqn:Hw; [|discriminate].
      intros H. inversion H; subst st'. cbn [calls].
      eexists _, _. split; [reflexivity|]. split; [exact Hw|]. now left.
  - apply Hlocal.
Qed.

Lemma upload_returns_after_storing_witness :
  exists before c,
    [session_client_s3;
     put_object "waf-reports" "waf_check_results_1700000000.csv" "URL,WAF_Detectado" "text/csv";
     os_makedirs "output";
     f_write "output/waf_check_results_1700000000.csv" "URL,WAF_Detectado"]
    = before ++ [c] /\
    answer env_example before c = Returns tt /\
    (c = f_write (os_path_join "output" "waf_check_results_1700000000.csv")
                 "URL,WAF_Detectado" \/
     exists bucket,
       s3_bucket (mkWAFChecker false (Some "waf-reports")) = Some bucket /\
       c = put_object bucket "waf_check_results_1700000000.csv" "URL,WAF_Detectado" "text/csv").
Proof.
  apply (upload_returns_after_storing env_example (mkWAFChecker false (Some "waf-reports"))
           "URL,WAF_Detectado" "waf_check_results_1700000000.csv" "text/csv"
           (mkStore [] [])
           (mkStore
              [session_client_s3;
               put_object "waf-reports" "waf_check_results_1700000000.csv"
                          "URL,WAF_Detectado" "text/csv";
               os_makedirs "output";
               f_write "output/waf_check_results_1700000000.csv" "URL,WAF_Detectado"]
              [(ERROR, "Erro ao enviar para S3: AccessDenied");
               (INFO, "Arquivo salvo localmente como fallback: output/waf_check_results_1700000000.csv")])).
  vm_compute. reflexivity.
Defined.

(** X24: a failure of S3 alone never makes [_upload_to_s3] fail.  When
    it raises, the exception is that of its last call, and this call is
    one of the two that write the local file, unless the exception is no
    [Exception] (an interruption), which no handler catches. *)
Theorem upload_raises_only_from_local_write (env : Env) (self : WAFChecker)
        (content filename content_type : string) (st st' : Store) (e : py_exn) :
  _upload_to_s3 env self content filename content_type st = (Raises e, st') ->
  exists before c,
    calls st' = before ++ [c] /\
    answer env before c = Raises e /\
    (py_is_Exception e = true ->
     c = os_makedirs "output" \/ c = f_write (os_path_join "output" filename) content).
Proof.
  unfold _upload_to_s3.
  assert (Hlocal : forall cs lg,
             (perform env (os_makedirs "output") >>
              perform env (f_write (os_path_join "output" filename) content))
               (mkStore cs lg) = (Raises e, st') ->
             exists before c,
               calls st' = before ++ [c] /\
               answer env before c = Raises e /\
               (c = os_makedirs "output" \/
                c = f_write (os_path_join "output" filename) content)).
  { intros cs lg. unfold io_bind, perform. cbn [calls journal].
    destruct (answer env cs (os_makedirs "output")) as [[]|e1] eqn:Hm.
    - destruct (answer env (cs ++ [os_makedirs "output"])
                       (f_write (os_path_join "output" filename) content))
        as [[]|e2] eqn:Hw; [discriminate|].
      intros H. inversion H; subst. cbn [calls]. eexists _, _. eauto.
    - intros H. inversion H; subst. cbn [calls]. eexists _, _. eauto. }
  assert (Hlocal' : forall cs lg,
             (perform env (os_makedirs "output") >>
              perform env (f_write (os_path_join "output" filename) content))
               (mkStore cs lg) = (Raises e, st') ->
             exists before c,
               calls st' = before ++ [c] /\
               answer env before c = Raises e /\
               (py_is_Exception e = true ->
                c = os_makedirs "output" \/
                c = f_write (os_path_join "output" filename) content)).
  { intros cs lg H. destruct (Hlocal cs lg H) as (before & c & H1 & H2 & H3).
    exists before, c. auto. }
  assert (Hfallback : forall cs lg msg,
             (perform env (os_makedirs "output") >>
              perform env (f_write (os_path_join "output" filename) content) >>
              io_log INFO msg) (mkStore cs lg) = (Raises e, st') ->
             exists before c,
               calls st' = before ++ [c] /\
               answer env before c = Raises e /\
               (py_is_Exception e = true ->
                c = os_makedirs "output" \/
                c = f_write (os_path_join "output" filename) content)).
  { intros cs lg msg H. apply (Hlocal' cs lg).
    unfold io_bind in *.
    destruct (perform env (os_makedirs "output") (mkStore cs lg)) as [[[]|e1] st1];
      [|exact H].
    destruct (perform env (f_write (os_path_join "output" filename) content) st1)
      as [[[]|e2] st2]; [discriminate H|exact H]. }
  destruct (s3_bucket self) as [[|ch bucket]|] eqn:Hb.
  - apply Hlocal'.
  - unfold io_except.
    destruct ((perform env session_client_s3 >>
               perform env (put_object (String ch bucket) filename content content_type) >>
               io_log INFO ("Arquivo enviado para S3: s3://" ++ String ch bucket ++ "/" ++ filename))
                st) as [[[]|e0] st0] eqn:Htry; [discriminate|].
    destruct (py_is_Exception e0) eqn:Hex.
    + unfold io_bind at 1. unfold io_log at 1. apply Hfallback.
    + intros H. inversion H; subst e0 st0. clear H.
      revert Htry. unfold io_bind, io_log, perform. cbn [calls journal].
      destruct (answer env (calls st) session_client_s3) as [[]|e1] eqn:Hc.
      * destruct (answer env (calls st ++ [session_client_s3])
                         (put_object (String ch bucket) filename content content_type))
          as [[]|e2] eqn:Hp; [discriminate|].
        intros H. inversion H; subst. cbn [calls]. eexists _, _.
        split; [reflexivity|]. split; [exact Hp|]. congruence.
      * intros H. inversion H; subst. cbn [calls]. eexists _, _.
        split; [reflexivity|]. split; [exact Hc|]. congruence.
  - apply Hlocal'.
Qed.

Lemma upload_raises_only_from_local_write_witness :
  exists before c,
    [session_client_s3;
     put_object "waf-reports" "waf_check_results_1700000000.json" "{}" "application/json";
     os_makedirs "output";
     f_write "output/waf_check_results_1700000000.json" "{}"]
    = before ++ [c] /\
    answer env_read_only before c
    = Raises (Checker (OtherException "[Errno 30] Read-only file system")) /\
    (py_is_Exception (Checker (OtherException "[Errno 30] Read-only file system")) = true ->
     c = os_makedirs "output" \/
     c = f_write (os_path_join "output" "waf_check_results_1700000000.json") "{}").
Proof.
  apply (upload_raises_only_from_local_write env_read_only
           (mkWAFChecker false (Some "waf-reports"))
           "{}" "waf_check_results_1700000000.json" "application/json"
           (mkStore [] [])
           (mkStore
              [session_client_s3;
               put_object "waf-reports" "waf_check_results_1700000000.json"
                          "{}" "application/json";
               os_makedirs "output";
               f_write "output/waf_check_results_1700000000.json" "{}"]
              [(ERROR, "Erro ao enviar para S3: AccessDenied")])).
  vm_compute. reflexivity.
Defined.

(** ** The fields of a returned result *)

Lemma handled_fields (u : string) (e : exn) (r r' : CheckResult) (lg lg' : Log) :
  handled u e r lg = (Return r', lg') ->
  url r' = url r /\ waf_indicators r' = waf_indicators r.
Proof.
  unfold handled.
  destruct (is_RequestException e); [|destruct (is_Exception e)];
    intros H; inversion H; subst; split; reflexivity.
Qed.

Lemma detect_fields (inds : list string) (r : CheckResult) :
  url (detect inds r) = url r /\
  waf_indicators (detect inds r) = waf_indicators r ++ inds.
Proof.
  unfold detect. destruct inds as [|i inds]; cbn [truthy].
  - now rewrite app_nil_r.
  - split; reflexivity.
Qed.

Lemma classify_fields (r : CheckResult) :
  url (classify r) = url r /\ waf_indicators (classify r) = waf_indicators r.
Proof. unfold classify. destruct (truthy (waf_indicators r)); split; reflexivity. Qed.

(** A returned result is for the URL given, and its indicators are
    those of the DNS collector, if it ran, followed by those of the HTTP
    collector, if it ran. *)
Lemma returned_result_fields (w : World) (u : string) (log0 log1 : Log) (r : CheckResult) :
  check_waf_protection w u log0 = (Return r, log1) ->
  url r = u /\
  exists dns http,
    waf_indicators r = dns ++ http /\
    (dns = [] \/ exists domain, dns = dns_indicators_of w domain) /\
    (http = [] \/ exists response, http = http_indicators_of response).
Proof.
  rewrite check_waf_protection_run.
  destruct (urlparse_netloc w u) as [domain|e].
  - cbv zeta.
    assert (Hrest :
      match requests_get w u with
      | Return response =>
          (Return (classify (detect (http_indicators_of response)
             (set_status_code (resp_status_code response)
                (set_response_time (time_after w - time_before w)
                   (detect (dns_indicators_of w domain) (initial_result u)))))),
           log0 ++ dns_log_of w domain)
      | Raise e =>
          handled u e (detect (dns_indicators_of w domain) (initial_result u))
            (log0 ++ dns_log_of w domain)
      end = (Return r, log1) ->
      url r = u /\
      exists dns http,
        waf_indicators r = dns ++ http /\
        (dns = [] \/ exists domain, dns = dns_indicators_of w domain) /\
        (http = [] \/ exists response, http = http_indicators_of response)).
    { destruct (detect_fields (dns_indicators_of w domain) (initial_result u)) as [Hu1 Hi1].
      cbn [initial_result url waf_indicators app] in Hu1, Hi1.
      destruct (requests_get w u) as [response|e].
      - intros H; inversion H; subst. clear H.
        destruct (classify_fields
                    (detect (http_indicators_of response)
                       (set_status_code (resp_status_code response)
                          (set_response_time (time_after w - time_before w)
                             (detect (dns_indicators_of w domain) (initial_result u))))))
          as [Hu3 Hi3].
        destruct (detect_fields (http_indicators_of response)
                    (set_status_code (resp_status_code response)
                       (set_response_time (time_after w - time_before w)
                          (detect (dns_indicators_of w domain) (initial_result u)))))
          as [Hu2 Hi2].
        cbn [set_status_code set_response_time url waf_indicators] in Hu2, Hi2.
        rewrite Hu3, Hu2, Hu1, Hi3, Hi2, Hi1. split; [reflexivity|].
        exists (dns_indicators_of w domain), (http_indicators_of response).
        split; [reflexivity|]. split; right; eauto.
      - intros H. destruct (handled_fields _ _ _ _ _ _ H) as [Hu2 Hi2].
        rewrite Hu2, Hu1, Hi2, Hi1. split; [reflexivity|].
        exists (dns_indicators_of w domain), []. rewrite app_nil_r.
        split; [reflexivity|]. split; [right; eauto | now left]. }
    destruct (dns_failure w domain) as [e|]; [|exact Hrest].
    destruct e; try exact Hrest. discriminate.
  - intros H. destruct (handled_fields _ _ _ _ _ _ H) as [Hu2 Hi2].
    cbn [initial_result url waf_indicators] in Hu2, Hi2.
    split; [exact Hu2|]. exists [], []. rewrite Hi2. auto.
Qed.

Lemma returned_indicators_tagged (w : World) (u : string) (log0 log1 : Log)
      (r : CheckResult) (i : string) :
  check_waf_protection w u log0 = (Return r, log1) ->
  In i (waf_indicators r) ->
  exists tag v, In tag indicator_tags /\ i = (tag ++ v)%string.
Proof.
  intros Hrun Hin.
  destruct (returned_result_fields _ _ _ _ _ Hrun) as (_ & dns & http & Hi & Hd & Hh).
  rewrite Hi in Hin. apply in_app_or in Hin. unfold indicator_tags.
  destruct Hin as [Hin|Hin].
  - destruct Hd as [->|[domain ->]]; [destruct Hin|].
    unfold dns_indicators_of in Hin.
    destruct (dns_resolve w domain TXT) as [recs|e]; [|destruct Hin].
    apply in_flat_map in Hin. destruct Hin as (record & _ & Hin).
    apply vendor_hits_tagged in Hin. destruct Hin as [v ->].
    exists "DNS_TXT_", v. split; [cbn [In]; auto 10 | reflexivity].
  - destruct Hh as [->|[response ->]]; [destruct Hin|].
    apply in_http_indicators in Hin.
    destruct Hin as [(h & _ & Hin)|[(c & _ & Hin)|Hin]].
    + apply vendor_hits_tagged in Hin. destruct Hin as [v ->].
      exists "HTTP_HEADER_", v. split; [cbn [In]; auto 10 | reflexivity].
    + apply vendor_hits_tagged in Hin. destruct Hin as [v ->].
      exists "HTTP_COOKIE_", v. split; [cbn [In]; auto 10 | reflexivity].
    + unfold body_hits in Hin. destruct (resp_text response) as [t|e]; [|destruct Hin].
      apply vendor_hits_tagged in Hin. destruct Hin as [v ->].
      exists "HTTP_BODY_", v. split; [cbn [In]; auto 10 | reflexivity].
Qed.

(** ** What is written for a result *)

Lemma count_if_partition (test : CheckResult -> bool) (results : list CheckResult) :
  count_if test results + count_if (fun r => negb (test r)) results
  = List.length results.
Proof.
  unfold count_if. induction results as [|r rs IH]; [reflexivity|].
  cbn [filter]. destruct (test r); cbn [negb List.length]; lia.
Qed.

(** X25: in the document [_save_json] builds, the two counts of the
    metadata add up to [total_urls], which is the number of results,
    and [waf_detected_count] counts the results with [waf_detected]
    set; the results are handed on as they are. *)
Theorem json_counts_add_up (env : Env) (rs : list CheckResult) :
  waf_detected_count (metadata (json_data_of env rs))
  + waf_not_detected_count (metadata (json_data_of env rs))
  = total_urls (metadata (json_data_of env rs)) /\
  total_urls (metadata (json_data_of env rs)) = List.length (results (json_data_of env rs)) /\
  waf_detected_count (metadata (json_data_of env rs))
  = List.length (filter waf_detected (results (json_data_of env rs))) /\
  results (json_data_of env rs) = rs.
Proof.
  unfold json_data_of. cbn [metadata results total_urls waf_detected_count
                            waf_not_detected_count].
  split; [apply count_if_partition|]. repeat split; reflexivity.
Qed.

Lemma concat_starts (sep i : string) (rest : list string) (c : ascii) (s : string) :
  i = String c s ->
  exists s', String.concat sep (i :: rest) = String c s'.
Proof.
  intros ->. destruct rest as [|j rest]; cbn [String.concat String.append]; eauto.
Qed.

Lemma tagged_initial (tag v : string) :
  In tag indicator_tags ->
  exists c s, (tag ++ v)%string = String c s /\ c <> "N"%char.
Proof.
  unfold indicator_tags. cbn [In].
  intros [<-|[<-|[<-|[<-|[]]]]]; cbn [String.append];
    eexists _, _; (split; [reflexivity|discriminate]).
Qed.

(** X26: the CSV row of a result [check_waf_protection] returned is
    consistent.  Its [URL] is the URL checked; [Indicadores] is ['N/A']
    exactly when the result has no indicator, the joined indicators
    never reading ['N/A']; and [WAF_Detectado] is ['Sim'] exactly when
    [Indicadores] is not ['N/A']. *)
Theorem csv_row_of_a_check (env : Env) (w : World) (u : string) (log0 log1 : Log)
        (r : CheckResult) :
  check_waf_protection w u log0 = (Return r, log1) ->
  URL (csv_row env r) = u /\
  (Indicadores (csv_row env r) = "N/A" <-> waf_indicators r = []) /\
  (WAF_Detectado (csv_row env r) = "Sim" <-> Indicadores (csv_row env r) <> "N/A").
Proof.
  intros Hrun.
  destruct (returned_result_fields _ _ _ _ _ Hrun) as (Hu & _).
  pose proof (check_result_inv _ _ _ _ _ Hrun) as Hinv. unfold detected_iff_indicators in Hinv.
  assert (Hna : Indicadores (csv_row env r) = "N/A" <-> waf_indicators r = []).
  { unfold csv_row. cbn [Indicadores].
    destruct (waf_indicators r) as [|i rest] eqn:Hi; cbn [truthy].
    - split; reflexivity.
    - split; [|discriminate]. intros Hj. exfalso.
      destruct (returned_indicators_tagged w u log0 log1 r i Hrun) as (tag & v & Htag & ->);
        [rewrite Hi; now left|].
      destruct (tagged_initial tag v Htag) as (c & s & Hcs & Hc).
      destruct (concat_starts "; " _ rest c s Hcs) as (s' & Hs').
      rewrite Hs' in Hj. inversion Hj. contradiction. }
  split; [exact Hu|]. split; [exact Hna|].
  rewrite Hna. unfold csv_row. cbn [WAF_Detectado].
  destruct (waf_detected r) eqn:Hd.
  - split; [intros _; now apply Hinv | reflexivity].
  - split; [discriminate|]. intros Hne. apply Hinv in Hne. discriminate.
Qed.

Lemma csv_row_of_a_check_witness :
  URL (csv_row env_example result_cloudflare_site) = "https://shop.example" /\
  (Indicadores (csv_row env_example result_cloudflare_site) = "N/A"
   <-> waf_indicators result_cloudflare_site = []) /\
  (WAF_Detectado (csv_row env_example result_cloudflare_site) = "Sim"
   <-> Indicadores (csv_row env_example result_cloudflare_site) <> "N/A").
Proof.
  apply (csv_row_of_a_check env_example world_cloudflare_site "https://shop.example" [] []).
  vm_compute. reflexivity.
Defined.

(** ** What [main] hands to the outside *)

Lemma io_ret_only {A : Type} (P : ext_call -> Prop) (a : A) : only_calls P (io_ret a).
Proof. intros st. exists []. cbn. now rewrite app_nil_r. Qed.

Lemma io_log_only (P : ext_call -> Prop) (lvl : level) (msg : string) :
  only_calls P (io_log lvl msg).
Proof. intros st. exists []. cbn. now rewrite app_nil_r. Qed.


Lemma perform_only (P : ext_call -> Prop) (env : Env) (c : ext_call) :
  P c -> only_calls P (perform env c).
Proof. intros Hc st. exists [c]. cbn. split; [reflexivity|]. now constructor. Qed.

Lemma io_bind_only {A B : Type} (P : ext_call -> Prop) (m : IO A) (k : A -> IO B) :
  only_calls P m -> (forall a, only_calls P (k a)) -> only_calls P (io_bind m k).
Proof.
  intros Hm Hk st. unfold io_bind. destruct (Hm st) as (l1 & H1 & HP1).
  destruct (m st) as [[a|e] st1]; cbn [snd] in *; [|now exists l1].
  destruct (Hk a st1) as (l2 & H2 & HP2). exists (l1 ++ l2).
  rewrite H2, H1, app_assoc. split; [reflexivity|]. now apply Forall_app.
Qed.









Lemma repeat_snoc {A : Type} (a : A) (n : nat) : repeat a n ++ [a] = a :: repeat a n.
Proof. induction n as [|n IH]; cbn; [reflexivity|]. now rewrite IH. Qed.







(** X28: the option [--hosted-zone-id] makes the command fail.  Without
    a file of URLs and with a hosted zone id, once the checker and the
    Route53 client are made, [main] ends by [sys.exit(1)]: the listing
    raises [KeyError('Name')], which is logged twice, no URL is checked
    and nothing is written. *)
Theorem main_with_hosted_zone_id_exits (env : Env) (local_mode local_storage : bool)
        (max_urls : option Z) (id output_format : string) (st st1 : Store) :
  id <> EmptyString ->
  route53_client (sources env) = Returns tt ->
  setup env local_mode st = (Returns tt, st1) ->
  main env local_mode local_storage None max_urls (Some id) output_format false st
  = (SystemExit 1,
     mkStore (calls st1)
             (journal st1 ++ [ (INFO, "Listando registros DNS do Route53...");
                               (ERROR, "Erro inesperado: 'Name'");
                               (ERROR, "Erro durante execução: 'Name'") ])).
Proof.
  intros Hid Hclient Hsetup. unfold main. rewrite Hsetup. cbv zeta.
  unfold main_try, get_urls, io_bind, io_log, on_log. cbn [calls journal].
  unfold get_route53_records. rewrite Hclient.
  destruct (String.eqb id EmptyString) eqn:E;
    [apply String.eqb_eq in E; contradiction|].
  cbn. rewrite <- !app_assoc. reflexivity.
Qed.

Lemma main_with_hosted_zone_id_exits_witness :
  main env_example false false None (Some 100%Z) (Some "Z1234567890ABC") "both" false
       (mkStore [] [])
  = (SystemExit 1,
     mkStore (calls (mkStore [load_dotenv; boto3_Session] []))
             (journal (mkStore [load_dotenv; boto3_Session] [])
              ++ [ (INFO, "Listando registros DNS do Route53...");
                   (ERROR, "Erro inesperado: 'Name'");
                   (ERROR, "Erro durante execução: 'Name'") ])).
Proof.
  apply (main_with_hosted_zone_id_exits env_example false false (Some 100%Z)
           "Z1234567890ABC" "both" (mkStore [] [])
           (mkStore [load_dotenv; boto3_Session] [])).
  - discriminate.
  - reflexivity.
  - reflexivity.
Defined.

(** X29: in local mode [save_results] never calls S3, whatever the
    bucket.  All it does to the outside is to make the directory
    [output] and to write there the CSV table of the rows and the JSON
    document of the results, in two files whose names carry the same
    timestamp. *)
Theorem local_mode_writes_two_files (env : Env) (self : WAFChecker)
        (rs : list CheckResult) (output_format : string) (st : Store) :
  local_mode self = true ->
  exists l,
    calls (snd (save_results env self rs output_format st)) = calls st ++ l /\
    Forall (local_call env rs) l.
Proof.
  intros Hlocal.
  assert (H : only_calls (local_call env rs) (save_results env self rs output_format)).
  { unfold save_results. apply io_bind_only; [|intros _].
    - destruct (text_in output_format ["csv"; "both"]); [|apply io_ret_only].
      unfold _save_csv. destruct (negb (truthy rs)); [apply io_ret_only|].
      rewrite Hlocal. unfold os_path_join. cbn [prefix String.append].
      repeat (apply io_bind_only; [|intros ?]); try apply io_log_only;
        apply perform_only; unfold local_call; cbn [String.append]; auto.
    - destruct (text_in output_format ["json"; "both"]); [|apply io_ret_only].
      unfold _save_json. destruct (negb (truthy rs)); [apply io_ret_only|].
      rewrite Hlocal. unfold os_path_join. cbn [prefix String.append].
      repeat (apply io_bind_only; [|intros ?]); try apply io_log_only;
        apply perform_only; unfold local_call; cbn [String.append]; auto. }
  exact (H st).
Qed.

Lemma local_mode_writes_two_files_witness :
  exists l,
    calls (snd (save_results env_example (mkWAFChecker true (Some "waf-reports"))
                             [result_cloudflare_site] "both" (mkStore [] [])))
    = calls (mkStore [] []) ++ l /\
    Forall (local_call env_example [result_cloudflare_site]) l.
Proof.
  apply (local_mode_writes_two_files env_example (mkWAFChecker true (Some "waf-reports"))
           [result_cloudflare_site] "both" (mkStore [] [])).
  reflexivity.
Defined.
